(** * aws-sso-extender: the data layer of [src/extension/extension.ts]

    A shallow embedding of the [Extension] class: the storage-backed data
    model (settings, users, customization, IAM logins, application
    profiles), the profile resolver, the URL builder and the entry of the
    navigation routine, followed by the properties of the specification
    that were checked against it.

    Conventions of the embedding.
    - A JavaScript string is a Rocq [string]; its characters stand for the
      UTF-16 code units 0..255.
    - A JavaScript value that can be written as JSON is a [value]; the
      value [undefined] is [None] in [option value].  An object never stores
      [undefined] under a key: such a key is absent.
    - A storage cell holds the text produced by [JSON.stringify]; the model
      keeps the document this text denotes, so [JSON.parse] of a cell is the
      cell's document.
    - Asynchronous calls are run in the order the code issues them; a
      rejected promise and a thrown exception are both [Throw].  The
      callback given to [then] is a job of its own: it runs when the code
      that registered it has run to its end.
    - The built-in prototypes are the ones of the language: no code has
      added a member to them.
    - [this.log] only prints and is left out. *)

From Stdlib Require Import ZArith Lia Ascii String.
From stdpp Require Import base option list strings gmap fin_maps pretty sorting.

Local Set Warnings "-register-all".
Local Open Scope string_scope.

(** ** Strings and URI encoding *)

Module JsString.

Definition code (c : ascii) : nat := nat_of_ascii c.

Definition in_range (lo hi c : ascii) : bool :=
  (code lo <=? code c)%nat && (code c <=? code hi)%nat.

Definition is_digit (c : ascii) : bool := in_range "0" "9" c.

Definition is_alpha (c : ascii) : bool :=
  in_range "A" "Z" c || in_range "a" "z" c.

(** [\w] of a regular expression without flags. *)
Definition is_word (c : ascii) : bool :=
  is_alpha c || is_digit c || Ascii.eqb c "_".

(** The line terminators that [.] refuses (U+2028 and U+2029 lie outside
    the modelled code units). *)
Definition is_line_terminator (c : ascii) : bool :=
  (code c =? 10)%nat || (code c =? 13)%nat.

Fixpoint concat (l : list string) : string :=
  match l with
  | [] => ""
  | s :: l' => s +:+ concat l'
  end.

(** [Array.prototype.join] on strings. *)
Fixpoint join (sep : string) (l : list string) : string :=
  match l with
  | [] => ""
  | [s] => s
  | s :: l' => s +:+ sep +:+ join sep l'
  end.

Definition flat_map_chars (f : ascii → string) (s : string) : string :=
  concat (map f (list_ascii_of_string s)).

Definition hex_upper (n : nat) : ascii :=
  nth n (list_ascii_of_string "0123456789ABCDEF") "0"%char.

Definition hex_lower (n : nat) : ascii :=
  nth n (list_ascii_of_string "0123456789abcdef") "0"%char.

(** One escaped octet: [%XX] with upper-case digits. *)
Definition percent (n : nat) : string :=
  String "%" (String (hex_upper (n / 16)) (String (hex_upper (n mod 16)) "")).

(** [Number.prototype.toString(16)] on a natural number: lower-case
    digits, no padding. *)
Fixpoint toString16_aux (fuel n : nat) (acc : string) : string :=
  match fuel with
  | O => acc
  | S fuel' =>
      let acc' := String (hex_lower (n mod 16)) acc in
      if (n / 16 =? 0)%nat then acc' else toString16_aux fuel' (n / 16) acc'
  end.

Definition toString16 (n : nat) : string := toString16_aux (S n) n "".

(** The characters [encodeURIComponent] leaves alone:
    [A-Z a-z 0-9 - _ . ! ~ * ' ( )]. *)
Definition uri_unreserved (c : ascii) : bool :=
  is_alpha c || is_digit c
  || existsb (Ascii.eqb c) (list_ascii_of_string "-_.!~*'()").

(** [encodeURIComponent] on one code unit: the UTF-8 octets of the code
    point, each written [%XX]; code units 128..255 take two octets. *)
Definition encode_unit (c : ascii) : string :=
  if uri_unreserved c then String c ""
  else if (code c <? 128)%nat then percent (code c)
  else percent (192 + code c / 64) +:+ percent (128 + code c mod 64).

Definition encodeURIComponent (s : string) : string :=
  flat_map_chars encode_unit s.

(** The unreserved characters of RFC 3986: [A-Z a-z 0-9 - . _ ~]. *)
Definition rfc3986_unreserved (c : ascii) : bool :=
  is_alpha c || is_digit c
  || existsb (Ascii.eqb c) (list_ascii_of_string "-._~").

(** The character class [[!'()*]]. *)
Definition is_paren_class (c : ascii) : bool :=
  existsb (Ascii.eqb c) (list_ascii_of_string "!'()*").

(** [s.replace(/[!'()*]/g, (c) => `%${c.charCodeAt(0).toString(16)}`)]. *)
Definition replace_parens (s : string) : string :=
  flat_map_chars
    (λ c, if is_paren_class c then "%" +:+ toString16 (code c)
          else String c "")
    s.

(** [encodeUriPlusParens] (lines 15-17). *)
Definition encodeUriPlusParens (s : string) : string :=
  replace_parens (encodeURIComponent s).

(** The alphabet of a percent-encoded string: unreserved characters and
    the escape sign. *)
Definition uri_safe (c : ascii) : bool :=
  rfc3986_unreserved c || Ascii.eqb c "%".

(** What is expected of one character: it stays when it is unreserved,
    and becomes a string of safe characters that starts with [%]
    otherwise. *)
Definition escapes_char (c : ascii) : bool :=
  let e := encodeUriPlusParens (String c "") in
  if rfc3986_unreserved c then String.eqb e (String c "")
  else forallb uri_safe (list_ascii_of_string e) && String.prefix "%" e.

End JsString.

Import JsString.

(** ** Regular expressions

    The console pattern is matched through Brzozowski derivatives; the
    matcher is shown to agree with the usual denotation of a regular
    expression ([matches_spec]). *)

Module Regex.

Inductive regex :=
  | Void
  | Eps
  | Class (p : ascii → bool)
  | Cat (r1 r2 : regex)
  | Alt (r1 r2 : regex)
  | Star (r : regex).

Fixpoint lit (s : string) : regex :=
  match s with
  | EmptyString => Eps
  | String c s' => Cat (Class (Ascii.eqb c)) (lit s')
  end.

Definition opt (r : regex) : regex := Alt r Eps.
Definition plus (r : regex) : regex := Cat r (Star r).

Fixpoint rep (n : nat) (r : regex) : regex :=
  match n with
  | O => Eps
  | S n' => Cat r (rep n' r)
  end.

Fixpoint nullable (r : regex) : bool :=
  match r with
  | Void => false
  | Eps => true
  | Class _ => false
  | Cat r1 r2 => nullable r1 && nullable r2
  | Alt r1 r2 => nullable r1 || nullable r2
  | Star _ => true
  end.

Fixpoint deriv (c : ascii) (r : regex) : regex :=
  match r with
  | Void => Void
  | Eps => Void
  | Class p => if p c then Eps else Void
  | Cat r1 r2 =>
      if nullable r1 then Alt (Cat (deriv c r1) r2) (deriv c r2)
      else Cat (deriv c r1) r2
  | Alt r1 r2 => Alt (deriv c r1) (deriv c r2)
  | Star r1 => Cat (deriv c r1) (Star r1)
  end.

(** A whole-string match: the pattern between [^] and [$]. *)
Fixpoint matches (r : regex) (s : string) : bool :=
  match s with
  | EmptyString => nullable r
  | String c s' => matches (deriv c r) s'
  end.

(** The denotation of a regular expression. *)
Inductive Matches : regex → string → Prop :=
  | MEps : Matches Eps ""
  | MClass p c : p c = true → Matches (Class p) (String c "")
  | MCat r1 r2 s1 s2 :
      Matches r1 s1 → Matches r2 s2 → Matches (Cat r1 r2) (s1 +:+ s2)
  | MAltL r1 r2 s : Matches r1 s → Matches (Alt r1 r2) s
  | MAltR r1 r2 s : Matches r2 s → Matches (Alt r1 r2) s
  | MStarNil r : Matches (Star r) ""
  | MStarCons r c s1 s2 :
      Matches r (String c s1) → Matches (Star r) s2 →
      Matches (Star r) (String c s1 +:+ s2).

End Regex.

Import Regex.

(** [this.consoleUrlRegex] (line 77), read from left to right:
    [^https:\/\/], then either one of [\w{2}-\w+-\d{1,2}] (the group
    [region]), [support], [s3], [health] followed by
    [\.console\.aws\.amazon], or [console\.amazonaws-us-gov]; then
    [\.com\/], then the optional group [path], any run of characters that
    are not line terminators, and [$].  The named groups only capture. *)
Definition region_regex : regex :=
  Cat (rep 2 (Class is_word))
    (Cat (lit "-")
       (Cat (plus (Class is_word))
          (Cat (lit "-")
             (Cat (Class is_digit) (opt (Class is_digit)))))).

Definition consoleUrlRegex : regex :=
  Cat (lit "https://")
    (Cat
       (Alt
          (Cat
             (Alt region_regex (Alt (lit "support") (Alt (lit "s3") (lit "health"))))
             (lit ".console.aws.amazon"))
          (lit "console.amazonaws-us-gov"))
       (Cat (lit ".com/")
          (opt (Star (Class (λ c, negb (is_line_terminator c))))))).

(** The console pattern in the words of the specification: the URL is
    [https://], a console host, [.com/] and a path on one line; a console
    host is the GovCloud console domain, or [.console.aws.amazon] under
    [support], [s3], [health] or a region name such as [us-east-1]: two
    word characters, a dash, word characters, a dash, one or two digits. *)
Definition all_chars (p : ascii → bool) (s : string) : Prop :=
  forallb p (list_ascii_of_string s) = true.

Definition region_name (s : string) : Prop :=
  ∃ a b d,
    s = a +:+ "-" +:+ b +:+ "-" +:+ d ∧
    String.length a = 2 ∧ all_chars is_word a ∧
    b ≠ "" ∧ all_chars is_word b ∧
    (String.length d = 1 ∨ String.length d = 2) ∧ all_chars is_digit d.

Definition console_host (host : string) : Prop :=
  (∃ sub, host = sub +:+ ".console.aws.amazon" ∧
          (region_name sub ∨ sub = "support" ∨ sub = "s3" ∨ sub = "health"))
  ∨ host = "console.amazonaws-us-gov".

Definition console_url (url : string) : Prop :=
  ∃ host path,
    url = "https://" +:+ host +:+ ".com/" +:+ path ∧
    console_host host ∧
    all_chars (λ c, negb (is_line_terminator c)) path.

(** ** JavaScript values *)

Inductive value :=
  | Null
  | Bool (b : bool)
  | Num (z : Z)
  | Str (s : string)
  | Arr (l : list value)
  | Obj (m : gmap string value).

(** [undefined]. *)
Abbreviation undefined := (@None value).

(** What a JavaScript operation can do besides returning: throw a
    [TypeError], or leave the modelled fragment of the language
    ([Unmodelled]: an array carrying named properties, a comparison that
    needs string-to-number conversion, ...).  [try]/[catch] catches the
    first and never the second. *)
Inductive exn := TypeError | Unmodelled.

Inductive res (A : Type) :=
  | Ok (a : A)
  | Throw (e : exn).
Arguments Ok {A} a.
Arguments Throw {A} e.

#[global] Instance res_ret : MRet res := λ A a, Ok a.
#[global] Instance res_bind : MBind res :=
  λ A B f r, match r with Ok a => f a | Throw e => Throw e end.

Module Js.

(** [ToString], as a template literal or a property key applies it.
    Numbers are integers and print in decimal. *)
Fixpoint to_string_val (v : value) : string :=
  match v with
  | Null => "null"
  | Bool true => "true"
  | Bool false => "false"
  | Num z => pretty z
  | Str s => s
  | Arr l =>
      join ","
        (map (λ x, match x with Null => "" | _ => to_string_val x end) l)
  | Obj _ => "[object Object]"
  end.

Definition to_string (x : option value) : string :=
  match x with
  | None => "undefined"
  | Some v => to_string_val v
  end.

(** [ToBoolean]. *)
Definition truthy (x : option value) : bool :=
  match x with
  | None | Some Null => false
  | Some (Bool b) => b
  | Some (Num z) => negb (z =? 0)%Z
  | Some (Str s) => negb (String.eqb s "")
  | Some (Arr _) | Some (Obj _) => true
  end.

(** [===] (and SameValueZero, which agrees with it on integers).  Two
    objects or arrays are equal when they are the same reference, which
    a [value] does not record: that comparison is outside the model. *)
Definition strict_eq (x y : option value) : res bool :=
  match x, y with
  | None, None => Ok true
  | Some Null, Some Null => Ok true
  | Some (Bool a), Some (Bool b) => Ok (Bool.eqb a b)
  | Some (Num a), Some (Num b) => Ok (a =? b)%Z
  | Some (Str a), Some (Str b) => Ok (String.eqb a b)
  | Some (Arr _ | Obj _), Some (Arr _ | Obj _) => Throw Unmodelled
  | _, _ => Ok false
  end.

(** [x === s] for a string [s]. *)
Definition is_str (s : string) (x : option value) : bool :=
  match x with
  | Some (Str t) => String.eqb t s
  | _ => false
  end.

(** [x !== y]. *)
Definition strict_ne (x y : option value) : res bool :=
  b ← strict_eq x y; Ok (negb b).

(** [l.some(f)], which stops at the first element [f] accepts. *)
Fixpoint exists_res {A} (f : A → res bool) (l : list A) : res bool :=
  match l with
  | [] => Ok false
  | x :: l' => b ← f x; if b : bool then Ok true else exists_res f l'
  end.

(** The index an array of length [len] has under the property key [k]:
    [k] has to be the decimal numeral of a number below [len], without a
    leading zero. *)
Definition digit_value (c : ascii) : option nat :=
  if is_digit c then Some (code c - 48) else None.

Fixpoint parse_digits (acc : nat) (s : string) : option nat :=
  match s with
  | EmptyString => Some acc
  | String c s' => d ← digit_value c; parse_digits (10 * acc + d) s'
  end.

Definition parse_index (k : string) : option nat :=
  match k with
  | EmptyString => None
  | String c EmptyString => digit_value c
  | String c _ => if Ascii.eqb c "0" then None else parse_digits 0 k
  end.

Definition array_index (k : string) (len : nat) : option nat :=
  i ← parse_index k; if (i <? len)%nat then Some i else None.

Definition char_at (s : string) (i : nat) : option value :=
  (λ c, Str (String c "")) <$> String.get i s.

(** The names of the members that a value inherits from its prototype:
    every object from [Object.prototype], and an array, a string, a
    number from the prototype of its kind as well ([length] is an own
    property of arrays and strings). *)
Definition object_members : list string :=
  ["constructor"; "__proto__"; "hasOwnProperty"; "isPrototypeOf";
   "propertyIsEnumerable"; "toLocaleString"; "toString"; "valueOf";
   "__defineGetter__"; "__defineSetter__"; "__lookupGetter__";
   "__lookupSetter__"].

Definition array_members : list string :=
  object_members ++
  ["at"; "concat"; "copyWithin"; "entries"; "every"; "fill"; "filter";
   "find"; "findIndex"; "findLast"; "findLastIndex"; "flat"; "flatMap";
   "forEach"; "includes"; "indexOf"; "join"; "keys"; "lastIndexOf"; "map";
   "pop"; "push"; "reduce"; "reduceRight"; "reverse"; "shift"; "slice";
   "some"; "sort"; "splice"; "toReversed"; "toSorted"; "toSpliced";
   "unshift"; "values"; "with"].

Definition string_members : list string :=
  object_members ++
  ["at"; "charAt"; "charCodeAt"; "codePointAt"; "concat"; "endsWith";
   "includes"; "indexOf"; "isWellFormed"; "lastIndexOf"; "localeCompare";
   "match"; "matchAll"; "normalize"; "padEnd"; "padStart"; "repeat";
   "replace"; "replaceAll"; "search"; "slice"; "split"; "startsWith";
   "substr"; "substring"; "toLocaleLowerCase"; "toLocaleUpperCase";
   "toLowerCase"; "toUpperCase"; "toWellFormed"; "trim"; "trimEnd";
   "trimLeft"; "trimRight"; "trimStart"; "anchor"; "big"; "blink"; "bold";
   "fixed"; "fontcolor"; "fontsize"; "italics"; "link"; "small"; "strike";
   "sub"; "sup"].

Definition number_members : list string :=
  object_members ++ ["toExponential"; "toFixed"; "toPrecision"].

Definition is_member (names : list string) (k : string) : bool :=
  existsb (String.eqb k) names.

(** [k] names a member of [Object.prototype]. *)
Definition inherited (k : string) : bool := is_member object_members k.

(** What a property read finds: an own property (or nothing, which
    reads as [undefined]), or a member of the prototype, a function (for
    [__proto__], the prototype itself), which is not a [value]. *)
Inductive slot :=
  | Own (v : option value)
  | Inherited.

Definition lookup (x : option value) (k : string) : res slot :=
  match x with
  | None | Some Null => Throw TypeError
  | Some (Obj m) =>
      Ok (if inherited k
          then match m !! k with Some v => Own (Some v) | None => Inherited end
          else Own (m !! k))
  | Some (Arr l) =>
      if String.eqb k "length" then Ok (Own (Some (Num (Z.of_nat (length l)))))
      else Ok (if is_member array_members k then Inherited
               else Own (i ← array_index k (length l); l !! i))
  | Some (Str s) =>
      if String.eqb k "length"
      then Ok (Own (Some (Num (Z.of_nat (String.length s)))))
      else Ok (if is_member string_members k then Inherited
               else Own (i ← array_index k (String.length s); char_at s i))
  | Some (Bool _) => Ok (if inherited k then Inherited else Own None)
  | Some (Num _) =>
      Ok (if is_member number_members k then Inherited else Own None)
  end.

(** The property read [x.k] or [x[k]].  A read that finds a member of a
    prototype leaves the model; of the own properties of arrays and
    strings the model has the indices and [length]. *)
Definition get (x : option value) (k : string) : res (option value) :=
  s ← lookup x k;
  match s with
  | Own v => Ok v
  | Inherited => Throw Unmodelled
  end.

(** The names under which the built-in functions and prototypes that a
    read can find carry a property: the members above, the properties of
    every function, and the static members of [Object], [Array],
    [String] and [Number]. *)
Definition builtin_names : list string :=
  array_members ++ string_members ++ number_members ++
  ["length"; "name"; "prototype"; "arguments"; "caller"; "apply"; "bind";
   "call";
   "assign"; "create"; "defineProperties"; "defineProperty"; "freeze";
   "fromEntries"; "getOwnPropertyDescriptor"; "getOwnPropertyDescriptors";
   "getOwnPropertyNames"; "getOwnPropertySymbols"; "getPrototypeOf";
   "groupBy"; "hasOwn"; "is"; "isExtensible"; "isFrozen"; "isSealed";
   "preventExtensions"; "seal"; "setPrototypeOf";
   "from"; "fromAsync"; "isArray"; "of";
   "fromCharCode"; "fromCodePoint"; "raw";
   "EPSILON"; "MAX_SAFE_INTEGER"; "MAX_VALUE"; "MIN_SAFE_INTEGER";
   "MIN_VALUE"; "NaN"; "NEGATIVE_INFINITY"; "POSITIVE_INFINITY"; "isFinite";
   "isInteger"; "isNaN"; "isSafeInteger"; "parseFloat"; "parseInt"].

(** [s !== undefined] and [s.p] for what a read has found.  A member of
    a prototype is defined; under a name that no built-in carries it
    reads as [undefined], under any other name the read leaves the
    model. *)
Definition slot_defined (s : slot) : bool :=
  match s with
  | Own None => false
  | _ => true
  end.

Definition slot_get (s : slot) (p : string) : res (option value) :=
  match s with
  | Own v => get v p
  | Inherited => if is_member builtin_names p then Throw Unmodelled else Ok None
  end.

(** The optional chain [x?.k]. *)
Definition get_opt (x : option value) (k : string) : res (option value) :=
  match x with
  | None | Some Null => Ok None
  | _ => get x k
  end.

(** Own string-keyed properties of an array or a string. *)
Definition own_indexed (k : string) (len : nat) : bool :=
  String.eqb k "length" || bool_decide (is_Some (array_index k len)).

(** [k in x]: the own properties and the members of the prototype; a
    [TypeError] unless [x] is an object. *)
Definition has_in (k : string) (x : option value) : res bool :=
  match x with
  | Some (Obj m) => Ok (inherited k || bool_decide (is_Some (m !! k)))
  | Some (Arr l) => Ok (is_member array_members k || own_indexed k (length l))
  | _ => Throw TypeError
  end.

(** [Object.prototype.hasOwnProperty.call(x, k)]. *)
Definition has_own (x : option value) (k : string) : res bool :=
  match x with
  | None | Some Null => Throw TypeError
  | Some (Obj m) => Ok (bool_decide (is_Some (m !! k)))
  | Some (Arr l) => Ok (own_indexed k (length l))
  | Some (Str s) => Ok (own_indexed k (String.length s))
  | Some (Bool _) | Some (Num _) => Ok false
  end.

(** Writing a property that may be [undefined] into an object. *)
Definition put (k : string) (x : option value) (m : gmap string value)
  : gmap string value :=
  match x with
  | Some v => <[k := v]> m
  | None => delete k m
  end.

(** The assignment [x[k] = y] in strict mode (the file is a module).
    Under the key [__proto__] an object that does not own the key is
    given [y] as its prototype when [y] is an object or [null], which
    leaves the model, and is left as it is otherwise: the setter of
    [Object.prototype] adds no property.  The same setter ignores a
    number, a boolean or a string, on which every other assignment
    throws. *)
Definition set_prop (x : option value) (k : string) (y : option value)
  : res value :=
  match x with
  | Some (Obj m) =>
      if String.eqb k "__proto__" then
        match m !! k, y with
        | Some _, _ => Ok (Obj (put k y m))
        | None, Some (Null | Arr _ | Obj _) => Throw Unmodelled
        | None, _ => Ok (Obj m)
        end
      else Ok (Obj (put k y m))
  | Some (Arr _) => Throw Unmodelled
  | Some (Bool _ as v) | Some (Num _ as v) | Some (Str _ as v) =>
      if String.eqb k "__proto__" then Ok v else Throw TypeError
  | None | Some Null => Throw TypeError
  end.

(** [delete x[k]]. *)
Definition delete_prop (x : option value) (k : string) : res value :=
  match x with
  | None | Some Null => Throw TypeError
  | Some (Obj m) => Ok (Obj (delete k m))
  | Some (Arr l) => Throw Unmodelled
  | Some (Str s) => Throw Unmodelled
  | Some v => Ok v
  end.

Definition obj_of_list (l : list value) : gmap string value :=
  list_to_map (imap (λ i v, (pretty i, v)) l).

(** The own enumerable properties that [{...x}] copies. *)
Definition spread (x : option value) : gmap string value :=
  match x with
  | Some (Obj m) => m
  | Some (Arr l) => obj_of_list l
  | Some (Str s) =>
      obj_of_list (map (λ c, Str (String c "")) (list_ascii_of_string s))
  | _ => ∅
  end.

(** [typeof x === 'object']. *)
Definition typeof_object (x : option value) : bool :=
  match x with
  | Some Null | Some (Arr _) | Some (Obj _) => true
  | _ => false
  end.

(** [x > y] on the values the model compares: numbers, strings,
    [undefined] (never greater, never smaller), [null] and booleans as
    the numbers they convert to. *)
Definition to_number (v : value) : option Z :=
  match v with
  | Null => Some 0%Z
  | Bool b => Some (if b then 1 else 0)%Z
  | Num z => Some z
  | _ => None
  end.

Definition gt (x y : option value) : res bool :=
  match x, y with
  | Some (Str a), Some (Str b) => Ok (String.ltb b a)
  | Some (Str _), _ | _, Some (Str _)
  | Some (Arr _), _ | _, Some (Arr _)
  | Some (Obj _), _ | _, Some (Obj _) => Throw Unmodelled
  | None, _ | _, None => Ok false
  | Some a, Some b =>
      match to_number a, to_number b with
      | Some m, Some n => Ok (n <? m)%Z
      | _, _ => Throw Unmodelled
      end
  end.

(** [arr.includes(x)]. *)
Definition includes (arr : option value) (x : option value) : res bool :=
  match arr with
  | Some (Arr l) => exists_res (λ y, strict_eq (Some y) x) l
  | Some (Str _) => Throw Unmodelled
  | _ => Throw TypeError
  end.

(** [[...new Set(l)]]: the first occurrence of each value, in order. *)
Fixpoint uniq_aux (seen l : list (option value))
    : res (list (option value)) :=
  match l with
  | [] => Ok []
  | x :: l' =>
      dup ← exists_res (strict_eq x) seen;
      if dup : bool then uniq_aux seen l'
      else r ← uniq_aux (x :: seen) l'; Ok (x :: r)
  end.

Definition uniq (l : list (option value)) : res (list (option value)) :=
  uniq_aux [] l.

(** [arr.flat(1)] on an array whose elements may be [undefined]. *)
Definition flat1 (l : list (option value)) : list (option value) :=
  mjoin (map (λ x, match x with
                   | Some (Arr xs) => map Some xs
                   | _ => [x]
                   end) l).

End Js.

Import Js.

(** ** The extension instance and the browser *)

Inductive platform_t := Chrome | Firefox | Safari.

Inductive area := SyncArea | LocalArea.

(** A [tabs.Tab] of the browser: the fields the code reads, and whether
    the tab is the active one of the current window. *)
Record tab := {
  tab_id : Z;
  tab_windowId : Z;
  tab_index : Z;
  tab_url : option string;
  tab_cookieStoreId : string;
  tab_active_current : bool;
}.

(** A [ContextualIdentity] of Firefox. *)
Record container := {
  container_name : string;
  container_cookieStoreId : string;
}.

(** What the code asks of the browser besides storage. *)
Inductive action :=
  | TabsUpdate (id : Z) (url : string)
  | TabsCreate (url : string)
  | TabsHighlight (windowId index : Z)
  | WindowsFocus (windowId : Z)
  | SendExpireContainer (cookieStoreId : string)
  | WindowClose.

(** The state a method runs in: the fields of [this], the two storage
    areas, the clock behind [Date.now] (its successive readings), the
    tabs and containers of the browser, and the calls made so far. *)
Record world := {
  config_name : string;
  platform : platform_t;
  fields_defaultCustom : gmap string value;
  fields_defaultSettings : gmap string value;
  sync : gmap string value;
  local : gmap string value;
  clock : nat → Z;
  ticks : nat;
  tabs : list tab;
  containers : list container;
  calls : list action;
}.

Definition with_defaultSettings (m : gmap string value) (w : world) : world :=
  {| config_name := config_name w; platform := platform w;
     fields_defaultCustom := fields_defaultCustom w;
     fields_defaultSettings := m;
     sync := sync w; local := local w; clock := clock w; ticks := ticks w;
     tabs := tabs w; containers := containers w; calls := calls w |}.

Definition with_sync (m : gmap string value) (w : world) : world :=
  {| config_name := config_name w; platform := platform w;
     fields_defaultCustom := fields_defaultCustom w;
     fields_defaultSettings := fields_defaultSettings w;
     sync := m; local := local w; clock := clock w; ticks := ticks w;
     tabs := tabs w; containers := containers w; calls := calls w |}.

Definition with_local (m : gmap string value) (w : world) : world :=
  {| config_name := config_name w; platform := platform w;
     fields_defaultCustom := fields_defaultCustom w;
     fields_defaultSettings := fields_defaultSettings w;
     sync := sync w; local := m; clock := clock w; ticks := ticks w;
     tabs := tabs w; containers := containers w; calls := calls w |}.

Definition with_ticks (n : nat) (w : world) : world :=
  {| config_name := config_name w; platform := platform w;
     fields_defaultCustom := fields_defaultCustom w;
     fields_defaultSettings := fields_defaultSettings w;
     sync := sync w; local := local w; clock := clock w; ticks := n;
     tabs := tabs w; containers := containers w; calls := calls w |}.

Definition with_calls (l : list action) (w : world) : world :=
  {| config_name := config_name w; platform := platform w;
     fields_defaultCustom := fields_defaultCustom w;
     fields_defaultSettings := fields_defaultSettings w;
     sync := sync w; local := local w; clock := clock w; ticks := ticks w;
     tabs := tabs w; containers := containers w; calls := l |}.

(** [this.defaultCustom] and [this.defaultSettings].  The two objects
    are built by the literals of lines 32-72 and changed by assignments
    only; neither a literal with these keys nor an assignment gives an
    object an own property [__proto__], so the objects are the fields of
    the state without that key. *)
Definition defaultCustom (w : world) : gmap string value :=
  delete "__proto__" (fields_defaultCustom w).

Definition defaultSettings (w : world) : gmap string value :=
  delete "__proto__" (fields_defaultSettings w).

Definition area_of (a : area) (w : world) : gmap string value :=
  match a with SyncArea => sync w | LocalArea => local w end.

Definition with_area (a : area) (m : gmap string value) (w : world) : world :=
  match a with SyncArea => with_sync m w | LocalArea => with_local m w end.

(** ** The monad of methods: state and exceptions *)

Definition M (A : Type) : Type := world → res A * world.

#[global] Instance M_ret : MRet M := λ A a w, (Ok a, w).
#[global] Instance M_bind : MBind M :=
  λ A B f m w,
    match m w with
    | (Ok a, w') => f a w'
    | (Throw e, w') => (Throw e, w')
    end.

Definition lift {A} (r : res A) : M A := λ w, (r, w).
Definition throw {A} (e : exn) : M A := λ w, (Throw e, w).
Definition ask {A} (f : world → A) : M A := λ w, (Ok (f w), w).
Definition modify (f : world → world) : M unit := λ w, (Ok tt, f w).

(** [try { m } catch { h }]. *)
Definition try_catch {A} (m : M A) (h : M A) : M A :=
  λ w,
    match m w with
    | (Throw TypeError, w') => h w'
    | r => r
    end.

(** A call to an asynchronous function whose promise nobody awaits: its
    effects happen, its rejection is lost. *)
Definition fire (m : M unit) : M unit :=
  try_catch m (mret tt).

Fixpoint mapM_ {A} (f : A → M unit) (l : list A) : M unit :=
  match l with
  | [] => mret tt
  | x :: l' => f x;; mapM_ f l'
  end.

Fixpoint mapM' {A B} (f : A → M B) (l : list A) : M (list B) :=
  match l with
  | [] => mret []
  | x :: l' => y ← f x; ys ← mapM' f l'; mret (y :: ys)
  end.

Fixpoint map_res {A B} (f : A → res B) (l : list A) : res (list B) :=
  match l with
  | [] => Ok []
  | x :: l' => y ← f x; ys ← map_res f l'; Ok (y :: ys)
  end.

Fixpoint filter_res {A} (f : A → res bool) (l : list A) : res (list A) :=
  match l with
  | [] => Ok []
  | x :: l' =>
      b ← f x; ys ← filter_res f l'; Ok (if b : bool then x :: ys else ys)
  end.

(** [arr.find(f)]: the first element [f] accepts; [f] is not called past
    it. *)
Fixpoint find_res {A} (f : A → res bool) (l : list A) : res (option A) :=
  match l with
  | [] => Ok None
  | x :: l' => b ← f x; if b : bool then Ok (Some x) else find_res f l'
  end.

(** ** Storage *)

(** [(await storage.get(key))[key]] for a string key. *)
Definition storage_get (a : area) (k : string) : M (option value) :=
  ask (λ w, area_of a w !! k).

(** [storage.set({[k]: v})]. *)
Definition write (a : area) (k : string) (v : value) (w : world) : world :=
  with_area a (<[k := v]> (area_of a w)) w.

Definition storage_set (a : area) (k : string) (v : value) : M unit :=
  modify (write a k v).

(** [storage.remove(keys)] for a list of string keys. *)
Definition erase (a : area) (ks : list string) (w : world) : world :=
  with_area a (foldr delete (area_of a w) ks) w.

Definition storage_remove (a : area) (ks : list string) : M unit :=
  modify (erase a ks).

Definition storage_clear (a : area) : M unit :=
  modify (with_area a ∅).

(** [Date.now()]: the next reading of the clock. *)
Definition now (w : world) : Z := clock w (ticks w).

Definition tick (w : world) : world := with_ticks (S (ticks w)) w.

Definition Date_now : M Z :=
  λ w, (Ok (now w), tick w).

(** ** The [Extension] class *)

(** The field initialisers (lines 32-72). *)
Definition defaultCustom_init : gmap string value :=
  list_to_map [
    ("accounts", Obj ∅);
    ("accountsOverride", Bool false);
    ("displayName", Str "");
    ("sessionLabelSso", Str "{{user}}/{{profile}} @ {{account}}");
    ("sessionLabelIam", Str "{{user}}/{{role}} @ {{account}} via {{profile}}");
    ("colorDefault", Str "222f3e");
    ("colorFooter", Bool true);
    ("colorHeader", Bool true);
    ("labelFooter", Bool true);
    ("labelHeader", Bool true);
    ("labelIcon", Bool false);
    ("profiles", Obj ∅);
    ("hotkeys", Obj (list_to_map [
       ("openProfile1", Str "");
       ("openProfile2", Str "");
       ("openProfile3", Str "")]))
  ].

Definition defaultSettings_init : gmap string value :=
  list_to_map [
    ("defaultUser", Str "lastUserId");
    ("enableSync", Bool true);
    ("lastUserId", Null);
    ("lastProfileId", Null);
    ("firefoxContainers", Bool false);
    ("firefoxResumeContainer", Bool true);
    ("firefoxExpireMinsContainer", Num 480);
    ("iconColor", Str "red");
    ("navCurrentTab", Bool false);
    ("showReleaseNotes", Bool true);
    ("showAllProfiles", Bool false);
    ("tableSettings", Obj (list_to_map [
       ("showAllUsers", Bool false);
       ("showIamRoles", Bool true);
       ("showIcon", Bool true);
       ("sortCustom", Bool false);
       ("sortApp", Str "desc");
       ("sortProfile", Bool false)]))
  ].

(** The state right after [new Extension(config)] (lines 74-82), in a
    browser whose storage, clock, tabs and containers are as given;
    [pf] is what [checkPlatform] reads off the user agent. *)
Definition constructor (name : string) (pf : platform_t)
    (sync0 local0 : gmap string value) (clock0 : nat → Z)
    (tabs0 : list tab) (containers0 : list container) : world :=
  {| config_name := name; platform := pf;
     fields_defaultCustom := defaultCustom_init;
     fields_defaultSettings := defaultSettings_init;
     sync := sync0; local := local0; clock := clock0; ticks := 0;
     tabs := tabs0; containers := containers0; calls := [] |}.

(** [saveData] (lines 412-424).  The document written is
    [{ ...data, updatedAt: Date.now() }] for a datum of type object and the
    datum itself otherwise.  It is put into [dataObj] by the assignment
    of line 420: under the key [__proto__] the text, a string, is
    ignored by the setter, [dataObj] stays empty and nothing is
    stored. *)
Definition saveData (dataKey : string) (data : option value) (db : area)
    : M unit :=
  doc ← (if typeof_object data
         then stamp ← Date_now;
              mret (Some (Obj (<["updatedAt" := Num stamp]> (spread data))))
         else mret data);
  match doc with
  | Some v =>
      if String.eqb dataKey "__proto__" then mret tt
      else storage_set db dataKey v
  | None => throw Unmodelled
  end.

(** The document [saveData] writes for a datum when the clock reads
    [t], and the state of the clock after the call. *)
Definition document (data : value) (t : Z) : value :=
  if typeof_object (Some data)
  then Obj (<["updatedAt" := Num t]> (spread (Some data)))
  else data.

Definition after_stamp (data : value) (w : world) : world :=
  if typeof_object (Some data) then tick w else w.

(** [loadIamLogins] (lines 182-189). *)
Definition loadIamLogins : M value :=
  name ← ask config_name;
  cell ← storage_get LocalArea (name +:+ "-iam-logins");
  mret (default (Obj ∅) cell).

(** [removeIamLogin] (lines 191-201). *)
Definition removeIamLogin (profileId : string) : M unit :=
  logins ← loadIamLogins;
  logins' ← lift (delete_prop (Some logins) profileId);
  name ← ask config_name;
  saveData (name +:+ "-iam-logins") (Some logins') LocalArea.

(** [queueIamLogin] (lines 203-214). *)
Definition queueIamLogin (role : option value) : M unit :=
  logins ← loadIamLogins;
  pid ← lift (get role "profileId");
  iamLogins ← lift (set_prop (Some logins) (to_string pid) role);
  name ← ask config_name;
  fire (saveData (name +:+ "-iam-logins") (Some iamLogins) LocalArea).

(** The loop shared by [loadUser] (lines 232-236) and [loadSettings]
    (lines 278-283): every key of the default record that the loaded
    record does not own is copied into it. *)
Definition backfill_key (k : string) (d : value) (acc : res value)
    : res value :=
  v ← acc;
  b ← has_own (Some v) k;
  if b : bool then Ok v else set_prop (Some v) k (Some d).

Definition backfill (defaults : gmap string value) (target : value)
    : res value :=
  map_fold backfill_key (Ok target) defaults.

Definition storage_of (enableSync : option value) : area :=
  if truthy enableSync then SyncArea else LocalArea.

(** [loadUser] (lines 216-239). *)
Definition loadUser (userId : string) (enableSync : option value) : M value :=
  let storage := storage_of enableSync in
  name ← ask config_name;
  userCell ← storage_get storage (name +:+ "-user-" +:+ userId);
  let user := default (Obj ∅) userCell in
  customCell ← storage_get storage (name +:+ "-custom-" +:+ userId);
  dc ← ask defaultCustom;
  custom ← lift (backfill dc (default (Obj dc) customCell));
  lift (set_prop (Some user) "custom" (Some custom)).

(** [loadUsers] (lines 241-258). *)
Definition loadUsers (enableSync : option value) : M (list value) :=
  name ← ask config_name;
  cell ← storage_get SyncArea (name +:+ "-users");
  userIds ← match cell with
            | None => mret (Some (Arr []))
            | Some doc => lift (get (Some doc) "users")
            end;
  match userIds with
  | Some (Arr ids) =>
      mapM' (λ userId, loadUser (to_string (Some userId)) enableSync) ids
  | _ => throw TypeError
  end.

(** [saveSettings] (lines 260-266). *)
Definition saveSettings (settings : option value) : M unit :=
  name ← ask config_name;
  saveData (name +:+ "-settings") settings SyncArea.

(** [loadSettings] (lines 268-285).  With no stored record the method
    returns [this.defaultSettings] itself; the second component tells the
    caller that the record it holds is that object. *)
Definition loadSettings_ref : M (value * bool) :=
  name ← ask config_name;
  cell ← storage_get SyncArea (name +:+ "-settings");
  ds ← ask defaultSettings;
  settings ← lift (backfill ds (default (Obj ds) cell));
  mret (settings, bool_decide (cell = None)).

Definition loadSettings : M value :=
  r ← loadSettings_ref;
  mret (fst r).

(** The aggregate that [loadData] returns. *)
Record ExtensionData := {
  d_updatedAt : option value;
  d_appProfiles : list value;
  d_settings : value;
  d_users : list value;
  d_iamLogins : value;
}.

(** [getDefaultUser] (lines 287-294). *)
Definition getDefaultUser (data : ExtensionData) : res (option value) :=
  let settings := Some (d_settings data) in
  defaultUser ← get settings "defaultUser";
  isLast ← strict_eq defaultUser (Some (Str "lastUserId"));
  if isLast : bool then
    lastUser ← find_res
      (λ u, userId ← get (Some u) "userId";
            lastUserId ← get settings "lastUserId";
            strict_eq userId lastUserId)
      (d_users data);
    Ok (if truthy lastUser then lastUser else head (d_users data))
  else
    l ← filter_res
      (λ u, userId ← get (Some u) "userId";
            defaultUser ← get settings "defaultUser";
            strict_eq userId defaultUser)
      (d_users data);
    Ok (head l).

(** [Array.prototype.sort] with a comparator, as an insertion sort that
    takes the elements from left to right and puts each one before the
    first element it compares below.  A list of at most one element is
    returned without a call of the comparator.  On a longer list the
    order is the one of the insertion sort when "[x] comes before [y]",
    that is [cmp x y < 0], is a strict weak order on the elements: no
    two elements come before each other, and when [x] comes before [z]
    then every [y] has [x] before it or comes before [z].  Where it is
    not (with the comparator of line 301: when some stamps cannot be
    compared, as a missing one with a number), the order is the
    engine's, and the sort leaves the model. *)
Fixpoint insert_by {A} (cmp : A → A → res Z) (x : A) (l : list A)
    : res (list A) :=
  match l with
  | [] => Ok [x]
  | y :: l' =>
      c ← cmp x y;
      if (c <? 0)%Z then Ok (x :: y :: l')
      else r ← insert_by cmp x l'; Ok (y :: r)
  end.

Definition comes_before {A} (cmp : A → A → res Z) (x y : A) : res bool :=
  c ← cmp x y; Ok (c <? 0)%Z.

Fixpoint all_res {A} (f : A → res bool) (l : list A) : res bool :=
  match l with
  | [] => Ok true
  | x :: l' => b ← f x; r ← all_res f l'; Ok (b && r)
  end.

Definition weak_order_at {A} (cmp : A → A → res Z) (x y z : A) : res bool :=
  xy ← comes_before cmp x y;
  yx ← comes_before cmp y x;
  xz ← comes_before cmp x z;
  yz ← comes_before cmp y z;
  Ok (implb xy (negb yx) && implb xz (xy || yz)).

Definition weak_order {A} (cmp : A → A → res Z) (l : list A) : bool :=
  match all_res (λ x, all_res (λ y, all_res (weak_order_at cmp x y) l) l) l with
  | Ok b => b
  | Throw _ => false
  end.

Definition sort_by {A} (cmp : A → A → res Z) (l : list A) : res (list A) :=
  match l with
  | [] | [_] => Ok l
  | _ =>
      if weak_order cmp l
      then foldl (λ acc x, sorted ← acc; insert_by cmp x sorted) (Ok []) l
      else Throw Unmodelled
  end.

(** The comparator of line 301:
    [(a, b) => (a.updatedAt > b.updatedAt ? -1 : 1)]. *)
Definition by_updatedAt (a b : value) : res Z :=
  x ← get (Some a) "updatedAt";
  y ← get (Some b) "updatedAt";
  g ← gt x y;
  Ok (if g : bool then (-1)%Z else 1%Z).

(** [storage.local.get(keys)], the whole result object: the cells of the
    keys asked for that exist; every cell when [keys] is [undefined] or
    [null]. *)
Definition as_key (v : value) : option string :=
  match v with Str s => Some s | _ => None end.

Definition storage_get_keys (a : area) (keys : option value)
    : M (gmap string value) :=
  match keys with
  | None | Some Null => ask (area_of a)
  | Some (Str k) =>
      ask (λ w, match area_of a w !! k with
                | Some v => {[ k := v ]}
                | None => ∅
                end)
  | Some (Arr ks) =>
      match mapM as_key ks with
      | Some ks' =>
          ask (λ w, filter (λ kv, kv.1 ∈ ks') (area_of a w))
      | None => throw TypeError
      end
  | Some (Obj _) => throw Unmodelled
  | Some _ => throw TypeError
  end.

(** [ap[Object.keys(ap)[0]]]. *)
Definition first_value (ap : gmap string value) : option value :=
  snd <$> head (map_to_list ap).



Fixpoint nub_aux (seen l : list string) : list string :=
  match l with
  | [] => []
  | x :: l' =>
      if bool_decide (x ∈ seen) then nub_aux seen l'
      else x :: nub_aux (x :: seen) l'
  end.

Definition nub (l : list string) : list string := nub_aux [] l.



(** The stamp of a record, when it is a number. *)
Definition stamp_of (u : value) : option Z :=
  match u with
  | Obj m =>
      match m !! "updatedAt" with
      | Some (Num t) => Some t
      | _ => None
      end
  | _ => None
  end.

(** [a] is at least as recent as [b]. *)
Definition not_older (a b : value) : Prop :=
  ∃ ta tb, stamp_of a = Some ta ∧ stamp_of b = Some tb ∧ (tb ≤ ta)%Z.

(** [loadData] (lines 296-321). *)
Definition loadData : M ExtensionData :=
  iamLogins ← loadIamLogins;
  settings ← loadSettings;
  enableSync ← lift (get (Some settings) "enableSync");
  users ← loadUsers enableSync;
  users ← lift (sort_by by_updatedAt users);
  appProfileIds ← lift (map_res (λ u, get (Some u) "appProfileIds") users);
  uniqProfileIds ← lift (uniq (flat1 appProfileIds));
  aps ← mapM' (storage_get_keys LocalArea) uniqProfileIds;
  updatedAt ← match users with
              | u :: _ => lift (get (Some u) "updatedAt")
              | [] => mret (Some (Num 0))
              end;
  mret {| d_updatedAt := updatedAt;
          d_appProfiles := omap first_value aps;
          d_settings := settings;
          d_users := users;
          d_iamLogins := iamLogins |}.

(** [createProfileUrl] (lines 323-341). *)
Definition createProfileUrl (user appProfile : option value) : M string :=
  mad ← lift (get user "managedActiveDirectoryId");
  let ssoDirUrl := "https://" +:+ to_string mad +:+ ".awsapps.com/start/#/saml" in
  name ← lift (get appProfile "name");
  let appProfileName := encodeUriPlusParens (to_string name) in
  profile ← lift (get appProfile "profile");
  profileName ← lift (get profile "name");
  isDefault ← lift (strict_eq profileName (Some (Str "Default")));
  if isDefault : bool then
    id ← lift (get appProfile "id");
    mret (ssoDirUrl +:+ "/default/" +:+ appProfileName +:+ "/" +:+ to_string id)
  else
    searchMetadata ← lift (get appProfile "searchMetadata");
    accountId ← lift (get_opt searchMetadata "AccountId");
    let consoleUrl :=
      "https://" +:+ to_string mad +:+ ".awsapps.com/start/#/console?account_id="
      +:+ to_string accountId +:+ "&role_name=" +:+ to_string profileName in
    active ← ask (λ w, filter (λ t, tab_active_current t = true) (tabs w));
    match active with
    | [] => throw TypeError
    | currentTab :: _ =>
        match tab_url currentTab with
        | Some url =>
            if matches consoleUrlRegex url
            then mret (consoleUrl +:+ "&destination=" +:+ encodeURIComponent url)
            else mret consoleUrl
        | None => mret consoleUrl
        end
    end.

(** [storage.remove(keys)] where [keys] is a value of the program: one
    key or an array of keys. *)
Definition storage_remove_keys (a : area) (keys : option value) : M unit :=
  match keys with
  | Some (Str k) => storage_remove a [k]
  | Some (Arr ks) =>
      match mapM as_key ks with
      | Some ks' => storage_remove a ks'
      | None => throw TypeError
      end
  | _ => throw TypeError
  end.

(** [arr.forEach], [arr.filter] on a value that has to be an array. *)
Definition as_array (x : option value) : res (list value) :=
  match x with
  | Some (Arr l) => Ok l
  | _ => Throw TypeError
  end.

(** [removeUser] (lines 364-410).  [loadUser] always returns an object,
    so the early return of line 369 is never taken. *)
Definition removeUser (userId : string) (enableSync : option value) : M unit :=
  user ← loadUser userId enableSync;
  name ← ask config_name;
  let storage := storage_of enableSync in
  storage_remove storage
    [name +:+ "-user-" +:+ userId; name +:+ "-custom-" +:+ userId];;
  appProfileIds ← lift (get (Some user) "appProfileIds");
  (if truthy appProfileIds then
     len ← lift (get appProfileIds "length");
     nonempty ← lift (gt len (Some (Num 0)));
     if nonempty : bool then storage_remove_keys LocalArea appProfileIds
     else mret tt
   else mret tt);;
  iamLogins ← loadIamLogins;
  (if truthy appProfileIds then
     ids ← lift (as_array appProfileIds);
     iamLogins' ← lift
       (foldl (λ acc profileId,
                 logins ← acc;
                 delete_prop (Some logins) (to_string (Some profileId)))
              (Ok iamLogins) ids);
     saveData (name +:+ "-iam-logins") (Some iamLogins') LocalArea
   else mret tt);;
  usersCell ← storage_get SyncArea (name +:+ "-users");
  users ← match usersCell with
          | Some doc => lift (get (Some doc) "users")
          | None => mret (Some (Arr []))
          end;
  users ← lift (as_array users);
  updatedUsers ← lift
    (filter_res (λ id, strict_ne (Some id) (Some (Str userId))) users);
  saveData (name +:+ "-users")
    (Some (Obj {[ "users" := Arr updatedUsers ]})) SyncArea;;
  r ← loadSettings_ref;
  let settings := Some (fst r) in
  defaultUser ← lift (get settings "defaultUser");
  lastUserId ← lift (get settings "lastUserId");
  wasDefault ← lift (strict_eq defaultUser (Some (Str userId)));
  wasLast ← lift (strict_eq lastUserId (Some (Str userId)));
  if wasDefault || wasLast then
    let next := if truthy (head updatedUsers) then head updatedUsers
                else Some (Str "") in
    settings1 ← lift (set_prop settings "lastUserId" next);
    settings2 ← (if wasDefault : bool
                 then lift (set_prop (Some settings1) "defaultUser"
                              (Some (Str "lastUserId")))
                 else mret settings1);
    (match snd r, settings2 with
     | true, Obj m => modify (with_defaultSettings m)
     | _, _ => mret tt
     end);;
    saveSettings (Some settings2)
  else mret tt.

(** [saveCustom] (lines 426-432): the promise of [saveData] is dropped. *)
Definition saveCustom (custom : option value) (userId : string)
    (enableSync : option value) : M unit :=
  name ← ask config_name;
  fire (saveData (name +:+ "-custom-" +:+ userId) custom
          (storage_of enableSync)).

(** [saveUser] (lines 434-446). *)
Definition saveUser (user : option value) (enableSync : option value)
    : M unit :=
  hasCustom ← lift (has_in "custom" user);
  userId ← lift (get user "userId");
  (if hasCustom : bool then
     custom ← lift (get user "custom");
     saveCustom custom (to_string userId) enableSync
   else mret tt);;
  name ← ask config_name;
  saveData (name +:+ "-user-" +:+ to_string userId)
    (Some (Obj (<["custom" := Obj ∅]> (spread user))))
    (storage_of enableSync).

(** The object [ap] after the assignment [ap.profile = p] has taken
    effect ([ap.profile.custom = ...] changes the object under
    [ap.profile] in place). *)
Definition with_profile (ap : value) (p : value) : value :=
  match ap with
  | Obj m => Obj (<["profile" := p]> m)
  | _ => ap
  end.

(** The body of the loop of [customizeProfiles] (lines 477-495). *)
Definition customizeProfile (user : option value) (defaults : value)
    (ap : value) : res value :=
  custom ← get user "custom";
  profiles ← get custom "profiles";
  apProfile ← get (Some ap) "profile";
  id ← get apProfile "id";
  known ← has_in (to_string id) profiles;
  profileCustom ← (if known : bool then get profiles (to_string id)
                   else Ok (Some defaults));
  apProfile1 ← set_prop apProfile "custom" profileCustom;
  let profile := with_profile ap apProfile1 in
  applicationName ← get (Some profile) "applicationName";
  isAccount ← strict_eq applicationName (Some (Str "AWS Account"));
  if isAccount : bool then
    searchMetadata ← get (Some profile) "searchMetadata";
    accountId ← get_opt searchMetadata "AccountId";
    accounts ← get custom "accounts";
    hasAccount ← has_in (to_string accountId) accounts;
    if hasAccount : bool then
      accountsOverride ← get custom "accountsOverride";
      inherit ← (if truthy accountsOverride then Ok true
                 else color ← get profileCustom "color";
                      colorDefault ← get custom "colorDefault";
                      strict_eq color colorDefault);
      if inherit : bool then
        account ← lookup accounts (to_string accountId);
        accountColor ← slot_get account "color";
        apProfile2 ← set_prop (Some apProfile1) "custom"
          (Some (Obj (put "color" accountColor (spread profileCustom))));
        Ok (with_profile ap apProfile2)
      else Ok profile
    else Ok profile
  else Ok profile.

(** The block [defaults] of [customizeProfiles] (lines 468-474). *)
Definition default_block (colorDefault : option value) : value :=
  Obj (put "color" colorDefault
         (list_to_map [
            ("favorite", Bool false);
            ("hide", Bool false);
            ("label", Null);
            ("iamRoles", Arr [])])).

(** [customizeProfiles] (lines 463-499). *)
Definition customizeProfiles (user : option value) (appProfiles : list value)
    : res (list value) :=
  custom ← get user "custom";
  colorDefault ← get custom "colorDefault";
  let defaults := default_block colorDefault in
  map_res (customizeProfile user defaults) appProfiles.

(** The color a customized profile carries:
    [profile.profile.custom.color]. *)
Definition resolved_color (profile : value) : res (option value) :=
  p ← get (Some profile) "profile";
  c ← get p "custom";
  get c "color".

(** [u.appProfileIds.includes(profileId)]. *)
Definition owns_profile (profileId : option value) (u : option value)
    : res bool :=
  appProfileIds ← get u "appProfileIds";
  includes appProfileIds profileId.

(** [findUserByProfileId] (lines 558-567). *)
Definition findUserByProfileId (profileId : option value) (users : list value)
    : res (option value) :=
  foldl (λ acc u,
           user ← acc;
           owns ← owns_profile profileId (Some u);
           Ok (if owns : bool then Some u else user))
        (Ok (head users)) users.

Definition call (a : action) : M unit :=
  modify (λ w, with_calls (calls w ++ [a]) w).

(** [navCurrentTab] (lines 596-603).  The method asks the browser for
    the active tab and returns; the update of the tab is the callback
    given to [then], a job that runs when the caller has run to its end.
    The method hands the job to its caller, which nobody awaits: a
    failure in it is lost. *)
Definition navCurrentTab (url : string) : M (M unit) :=
  active ← ask (λ w, filter (λ t, tab_active_current t = true) (tabs w));
  mret (fire (match active with
              | t :: _ => call (TabsUpdate (tab_id t) url)
              | [] => throw TypeError
              end)).

(** The first statement of [navSelectedProfile] (lines 614-620): the user
    the rest of the method works with. *)
Definition navSelectedProfile_user (profile user : option value)
    (users : list value) (settings : option value) : res (option value) :=
  showAllProfiles ← get settings "showAllProfiles";
  if truthy showAllProfiles then
    p ← get profile "profile";
    id ← get p "id";
    owns ← owns_profile id user;
    if owns : bool then Ok user else findUserByProfileId id users
  else Ok user.

Section Navigation.

(** [sessionLabelSso] (lines 669-682) names the container to look for;
    the navigation is stated for any such naming. *)
Variable sessionLabelSso : option value → option value → res string.

(** The rest of [navSelectedProfile] (lines 621-667), for the user
    resolved by its first statement.  [window.close()] is the last
    statement of the method; the job that [navCurrentTab] left behind
    runs after it. *)
Definition navSelectedProfile_rest (profile user settings : option value)
    : M unit :=
  profileUrl ← createProfileUrl user profile;
  pf ← ask platform;
  nav ← match pf with
        | Firefox =>
            firefoxContainers ← lift (get settings "firefoxContainers");
            if truthy firefoxContainers then
              resume ← lift (get settings "firefoxResumeContainer");
              found ← (if truthy resume then
                         label ← lift (sessionLabelSso profile user);
                         ask (λ w, filter (λ c, container_name c = label)
                                     (containers w))
                       else mret []);
              match found with
              | c :: _ =>
                  let store := container_cookieStoreId c in
                  ts ← ask (λ w, filter (λ t, tab_cookieStoreId t = store)
                                   (tabs w));
                  mapM_ (λ t,
                     call (TabsHighlight (tab_windowId t) (tab_index t));;
                     call (WindowsFocus (tab_windowId t));;
                     expire ← lift (get settings "firefoxExpireMinsContainer");
                     positive ← lift (gt expire (Some (Num 0)));
                     if positive : bool then call (SendExpireContainer store)
                     else mret tt) ts;;
                  mret (match ts with [] => true | _ => false end)
              | [] => mret true
              end
            else mret true
        | _ => mret true
        end;
  if nav : bool then
    navCurrentTabSetting ← lift (get settings "navCurrentTab");
    job ← (if truthy navCurrentTabSetting then navCurrentTab profileUrl
           else call (TabsCreate profileUrl);; mret (mret tt));
    call WindowClose;;
    job
  else mret tt.

(** [navSelectedProfile] (lines 606-667). *)
Definition navSelectedProfile (profile user : option value)
    (users : list value) (settings : option value) : M unit :=
  user' ← lift (navSelectedProfile_user profile user users settings);
  navSelectedProfile_rest profile user' settings.

End Navigation.

(** [importUserConfig] (lines 684-704).  [saveSettings] is asynchronous
    and not awaited; [saveCustom] drops its promise itself. *)
Definition importUserConfig (userId : string) (cfg : option value) : M bool :=
  try_catch
    (hasUser ← lift (has_in "user" cfg);
     hasExtension ← lift (has_in "extension" cfg);
     let missingKeys := negb hasUser || negb hasExtension in
     if missingKeys then mret false
     else
       extension ← lift (get cfg "extension");
       fire (saveSettings extension);;
       user ← lift (get cfg "user");
       enableSync ← lift (get extension "enableSync");
       saveCustom user userId enableSync;;
       mret true)
    (mret false).

(** [resetData] (lines 358-362). *)
Definition resetData : M unit :=
  storage_clear SyncArea;;
  storage_clear LocalArea.

(** ** Sample data *)

Module Sample.

(** A user whose default color is [222f3e], without [accountsOverride],
    whose account [111111111111] has the color [ff0000]; the profile
    [p-default] carries the default color, [p-green] the color
    [00ff00]. *)
Definition custom : gmap string value :=
  list_to_map [
    ("colorDefault", Str "222f3e");
    ("accountsOverride", Bool false);
    ("accounts", Obj (list_to_map [
       ("111111111111", Obj (list_to_map [
          ("label", Str "prod"); ("color", Str "ff0000")]))]));
    ("profiles", Obj (list_to_map [
       ("p-default", Obj (list_to_map [
          ("favorite", Bool false); ("hide", Bool false); ("label", Null);
          ("iamRoles", Arr []); ("color", Str "222f3e")]));
       ("p-green", Obj (list_to_map [
          ("favorite", Bool true); ("hide", Bool false); ("label", Null);
          ("iamRoles", Arr []); ("color", Str "00ff00")]))]))
  ].

Definition user : gmap string value :=
  list_to_map [
    ("userId", Str "alice");
    ("managedActiveDirectoryId", Str "d-1234567890");
    ("appProfileIds", Arr [Str "p-default"; Str "p-green"]);
    ("custom", Obj custom)
  ].

Definition account_profile (id role : string) : gmap string value :=
  list_to_map [
    ("id", Str "ins-0001");
    ("name", Str "AWS Account (prod)");
    ("applicationName", Str "AWS Account");
    ("profile", Obj (list_to_map [("id", Str id); ("name", Str role)]));
    ("searchMetadata", Obj (list_to_map [
       ("AccountId", Str "111111111111"); ("AccountName", Str "prod")]))
  ].

(** Two users who both own the profile [p-shared], and a third one who
    does not. *)
Definition owner (id : string) : value :=
  Obj (list_to_map [
    ("userId", Str id);
    ("managedActiveDirectoryId", Str ("d-" +:+ id));
    ("appProfileIds", Arr [Str "p-shared"])]).

Definition stranger : value :=
  Obj (list_to_map [
    ("userId", Str "carol");
    ("managedActiveDirectoryId", Str "d-carol");
    ("appProfileIds", Arr [Str "p-own"])]).

Definition shared_profile_inner : option value :=
  Some (Obj (list_to_map [("id", Str "p-shared"); ("name", Str "Admin")])).

Definition shared_profile : value :=
  Obj (list_to_map [
    ("applicationName", Str "AWS Account");
    ("profile", default Null shared_profile_inner)]).

Definition show_all : value :=
  Obj (list_to_map [("showAllProfiles", Bool true)]).

(** A browser whose active tab shows a page of the console. *)
Definition console_tab : tab :=
  {| tab_id := 7; tab_windowId := 1; tab_index := 0;
     tab_url := Some "https://us-east-1.console.aws.amazon.com/ec2/home?region=us-east-1#Instances:";
     tab_cookieStoreId := "firefox-default";
     tab_active_current := true |}.

Definition other_tab : tab :=
  {| tab_id := 8; tab_windowId := 1; tab_index := 1;
     tab_url := Some "https://example.org/";
     tab_cookieStoreId := "firefox-default";
     tab_active_current := false |}.

(** A synchronized store that holds settings written before some of
    today's keys existed, and a customization of [alice] likewise. *)
Definition old_sync : gmap string value :=
  list_to_map [
    ("aws-sso-ext-settings", Obj (list_to_map [
       ("enableSync", Bool true); ("lastUserId", Str "alice");
       ("iconColor", Str "blue")]));
    ("aws-sso-ext-custom-alice", Obj (list_to_map [
       ("colorDefault", Str "00aa00"); ("displayName", Str "Alice")]))
  ].

(** A store that holds [alice] and [bob]: their records, the profiles
    [alice] owns, a login remembered for one of them; [alice] is both the
    default and the last user. *)
Definition stored_user (id : string) (ids : list value) (t : Z)
    : gmap string value :=
  list_to_map [
    ("userId", Str id);
    ("managedActiveDirectoryId", Str ("d-" +:+ id));
    ("appProfileIds", Arr ids);
    ("custom", Obj ∅);
    ("updatedAt", Num t)].

Definition alice : gmap string value :=
  stored_user "alice" [Str "p-default"; Str "p-green"; Str "p-gone"]
    1690000000003.

Definition bob : gmap string value :=
  stored_user "bob" [Str "p-bob"; Str "p-green"] 1690000000004.

(** The two users as [loadUser] returns them. *)
Definition alice_loaded : value :=
  Obj (<["custom" := Obj (custom ∪ defaultCustom_init)]> alice).

Definition bob_loaded : value :=
  Obj (<["custom" := Obj defaultCustom_init]> bob).

Definition users_doc : gmap string value :=
  list_to_map [("users", Arr [Str "alice"; Str "bob"]);
               ("updatedAt", Num 1690000000000)].

Definition settings_doc : gmap string value :=
  list_to_map [("defaultUser", Str "alice"); ("lastUserId", Str "alice");
               ("enableSync", Bool true); ("updatedAt", Num 1690000000001)].

Definition logins_doc : gmap string value :=
  list_to_map [
    ("p-default", Obj (list_to_map [
       ("profileId", Str "p-default"); ("roleName", Str "Audit");
       ("accountId", Str "222222222222")]));
    ("p-bob", Obj (list_to_map [
       ("profileId", Str "p-bob"); ("roleName", Str "Ops");
       ("accountId", Str "333333333333")]));
    ("updatedAt", Num 1690000000002)].

Definition stored_sync : gmap string value :=
  list_to_map [
    ("aws-sso-ext-settings", Obj settings_doc);
    ("aws-sso-ext-users", Obj users_doc);
    ("aws-sso-ext-user-alice", Obj alice);
    ("aws-sso-ext-user-bob", Obj bob);
    ("aws-sso-ext-custom-alice", Obj custom)
  ].

Definition stored_local : gmap string value :=
  list_to_map [
    ("p-default", Obj (account_profile "p-default" "Admin"));
    ("p-green", Obj (account_profile "p-green" "ReadOnly"));
    ("p-bob", Obj (account_profile "p-bob" "Ops"));
    ("aws-sso-ext-iam-logins", Obj logins_doc)
  ].

Definition stored_world : world :=
  constructor "aws-sso-ext" Chrome stored_sync stored_local
    (λ n, 1700000000000 + Z.of_nat n)%Z [] [].

(** An aggregate whose settings name a last user who is not among the
    users. *)
Definition stale_settings : gmap string value :=
  list_to_map [("defaultUser", Str "lastUserId"); ("lastUserId", Str "carol")].

Definition aggregate : ExtensionData :=
  {| d_updatedAt := Some (Num 1690000000004);
     d_appProfiles := [];
     d_settings := Obj stale_settings;
     d_users := [bob_loaded; alice_loaded];
     d_iamLogins := Obj ∅ |}.

Definition old_world : world :=
  constructor "aws-sso-ext" Chrome old_sync ∅ (λ n, 1700000000000 + Z.of_nat n)%Z
    [] [].

Definition console_world : world :=
  constructor "aws-sso-ext" Chrome ∅ ∅ (λ n, 1700000000000 + Z.of_nat n)%Z
    [other_tab; console_tab] [].


End Sample.

(** ** The rest of the class: platform, labels, lookups, first sign-in *)

(** [s.indexOf(pat)]: the place of the first occurrence, [-1] without
    one. *)
Definition indexOf (s pat : string) : Z :=
  match String.index 0 pat s with
  | Some n => Z.of_nat n
  | None => (-1)%Z
  end.

(** [checkPlatform] (lines 96-108), on the user agent the browser
    reports. *)
Definition checkPlatform (userAgent : string) : platform_t :=
  if negb (indexOf userAgent "Firefox" =? -1)%Z then Firefox
  else if negb (indexOf userAgent "Chrome" =? -1)%Z then Chrome
  else if negb (indexOf userAgent "Safari" =? -1)%Z then Safari
  else Chrome.

(** [pat] occurs in [s]. *)
Definition occurs (pat s : string) : Prop :=
  ∃ pre post, s = pre +:+ pat +:+ post.

Fixpoint string_drop (n : nat) (s : string) : string :=
  match n, s with
  | S n', String _ s' => string_drop n' s'
  | _, _ => s
  end.

(** What [replaceAll] writes for one match of a search string: the
    replacement text, in which [$$] stands for a dollar sign, [$&] for the
    match, [$`] for the text before it and [$'] for the text after it.
    A search string has no groups, so every other [$] stands for itself. *)
Fixpoint get_substitution (matched before after template : string) : string :=
  match template with
  | EmptyString => ""
  | String c rest =>
      if Ascii.eqb c "$" then
        match rest with
        | String d rest' =>
            if Ascii.eqb d "$" then
              String "$" (get_substitution matched before after rest')
            else if Ascii.eqb d "&" then
              matched +:+ get_substitution matched before after rest'
            else if Ascii.eqb d "`" then
              before +:+ get_substitution matched before after rest'
            else if Ascii.eqb d "'" then
              after +:+ get_substitution matched before after rest'
            else String "$" (get_substitution matched before after rest)
        | EmptyString => "$"
        end
      else String c (get_substitution matched before after rest)
  end.

(** [s.replaceAll(pat, rep)] for strings: the occurrences of [pat] are
    taken from left to right without overlap.  [skip] counts the
    characters of a match that are still to be passed over, [before] is
    the text already read. *)
Fixpoint replaceAll_scan (pat rep : string) (skip : nat) (before rest : string)
    : string :=
  match rest with
  | EmptyString =>
      match pat with
      | EmptyString => get_substitution pat before "" rep
      | _ => ""
      end
  | String c rest' =>
      match skip with
      | S k => replaceAll_scan pat rep k (before +:+ String c "") rest'
      | O =>
          if String.prefix pat rest then
            get_substitution pat before (string_drop (String.length pat) rest) rep
            +:+ match pat with
                | EmptyString =>
                    String c (replaceAll_scan pat rep 0 (before +:+ String c "") rest')
                | _ =>
                    replaceAll_scan pat rep (String.length pat - 1)
                      (before +:+ String c "") rest'
                end
          else String c (replaceAll_scan pat rep 0 (before +:+ String c "") rest')
      end
  end.

Definition replaceAll (s pat rep : string) : string :=
  replaceAll_scan pat rep 0 "" s.

(** [label.replaceAll(pat, x)] on values: only a string has the method;
    the replacement is converted to a string. *)
Definition replaceAll_val (label : option value) (pat : string)
    (x : option value) : res (option value) :=
  match label with
  | Some (Str l) => Ok (Some (Str (replaceAll l pat (to_string x))))
  | _ => Throw TypeError
  end.

(** [buildLabel] (lines 110-135). *)
Definition buildLabel (s user profile role account accountName accounts
    : option value) : res (option value) :=
  let label := s in
  label ← (if truthy user then replaceAll_val label "{{user}}" user
           else Ok label);
  label ← (if truthy role then replaceAll_val label "{{role}}" role
           else Ok label);
  label ← (if truthy profile then replaceAll_val label "{{profile}}" profile
           else Ok label);
  label ← (if truthy account then replaceAll_val label "{{account}}" account
           else Ok label);
  if truthy accountName then
    entry ← lookup accounts (to_string account);
    accountLabel ← (if slot_defined entry then
                      l ← slot_get entry "label";
                      Ok (if truthy l then l else accountName)
                    else Ok accountName);
    replaceAll_val label "{{accountName}}" accountLabel
  else Ok label.

(** [sessionLabelSso] (lines 669-682). *)
Definition sessionLabelSso (profile user : option value) : res (option value) :=
  applicationName ← get profile "applicationName";
  isAccount ← strict_eq applicationName (Some (Str "AWS Account"));
  if negb isAccount then
    p ← get profile "profile";
    custom ← get p "custom";
    label ← get custom "label";
    if truthy label then Ok label
    else p ← get profile "profile"; get p "name"
  else
    custom ← get user "custom";
    template ← get custom "sessionLabelSso";
    displayName ← get custom "displayName";
    userName ← (if truthy displayName then Ok displayName
                else get user "subject");
    p ← get profile "profile";
    profileCustom ← get p "custom";
    label ← get profileCustom "label";
    profileName ← (if truthy label then Ok label else get p "name");
    searchMetadata ← get profile "searchMetadata";
    accountId ← get searchMetadata "AccountId";
    accountName ← get searchMetadata "AccountName";
    accounts ← get custom "accounts";
    buildLabel template userName profileName (Some Null) accountId accountName
      accounts.

(** The name [navSelectedProfile] asks the browser's containers for
    (line 631).  A query is by name only when the name is a string. *)
Definition container_label (profile user : option value) : res string :=
  label ← sessionLabelSso profile user;
  match label with
  | Some (Str s) => Ok s
  | _ => Throw Unmodelled
  end.

(** [data.users.length === 1 ? data.users[0].userId :
    data.settings.lastUserId] (lines 508 and 552-554). *)
Definition active_user_id (data : ExtensionData) : res (option value) :=
  match d_users data with
  | [u] => get (Some u) "userId"
  | _ => get (Some (d_settings data)) "lastUserId"
  end.

(** [findUser] (lines 549-556). *)
Definition findUser (data : ExtensionData) : res (option value) :=
  activeUserId ← active_user_id data;
  l ← filter_res
    (λ u, userId ← get (Some u) "userId"; strict_eq userId activeUserId)
    (d_users data);
  Ok (head l).

(** [findAppProfileById] (lines 542-547). *)
Definition findAppProfileById (profileId : option value)
    (appProfiles : list value) : res (option value) :=
  l ← filter_res
    (λ ap, p ← get (Some ap) "profile";
           id ← get p "id";
           strict_eq id profileId)
    appProfiles;
  Ok (head l).

(** [findAppProfileByRole] (lines 528-540). *)
Definition findAppProfileByRole (iamRole user : option value)
    (data : ExtensionData) : res (option value) :=
  appProfiles ← filter_res
    (λ ap, p ← get (Some ap) "profile";
           id ← get p "id";
           profileId ← get_opt iamRole "profileId";
           strict_eq id profileId)
    (d_appProfiles data);
  customized ← customizeProfiles user appProfiles;
  Ok (head customized).

(** The test of lines 512-517 on one application profile. *)
Definition is_sso_profile (ssoRoleName accountId : option value) (ap : value)
    : res bool :=
  applicationName ← get (Some ap) "applicationName";
  isAccount ← strict_eq applicationName (Some (Str "AWS Account"));
  if isAccount : bool then
    p ← get (Some ap) "profile";
    name ← get p "name";
    sameRole ← strict_eq name ssoRoleName;
    if sameRole : bool then
      searchMetadata ← get (Some ap) "searchMetadata";
      id ← get_opt searchMetadata "AccountId";
      strict_eq id accountId
    else Ok false
  else Ok false.

(** [findAppProfile] (lines 501-526).  [customizeProfiles] changes the
    profile it is given in place and returns that same object, so the
    list built by the two loops holds references into
    [data.appProfiles].  The state of the loops is the content of
    [data.appProfiles] and the places that were pushed; the result is the
    object at the first place pushed, as the loops leave it. *)
Definition findAppProfile_visit (ssoRoleName accountId : option value)
    (user : value) (acc : res (list value * list nat)) (i : nat)
    : res (list value * list nat) :=
  st ← acc;
  match st.1 !! i with
  | Some ap =>
      found ← is_sso_profile ssoRoleName accountId ap;
      if found : bool then
        customized ← customizeProfiles (Some user) [ap];
        match customized with
        | ap' :: _ => Ok (<[i := ap']> st.1, (st.2 ++ [i])%list)
        | [] => Ok (st.1, st.2)
        end
      else Ok st
  | None => Ok st
  end.

Definition findAppProfile_user (ssoRoleName accountId activeUserId : option value)
    (acc : res (list value * list nat)) (user : value)
    : res (list value * list nat) :=
  st ← acc;
  userId ← get (Some user) "userId";
  active ← strict_eq userId activeUserId;
  if active : bool then
    foldl (findAppProfile_visit ssoRoleName accountId user) (Ok st)
      (seq 0 (length st.1))
  else Ok st.

Definition findAppProfile (ssoRoleName accountId : option value)
    (data : ExtensionData) : res (option value) :=
  activeUserId ← active_user_id data;
  st ← foldl (findAppProfile_user ssoRoleName accountId activeUserId)
         (Ok (d_appProfiles data, [])) (d_users data);
  Ok (i ← head st.2; st.1 !! i).

(** [parseAppProfiles] (lines 343-356), on the content of [this.apps].
    The field is set by the code that scrapes the portal; the methods
    here only read it, and take it as an argument. *)
Definition parseAppProfiles (apps : list value) : res (list value) :=
  perApp ← map_res
    (λ app,
       profiles ← get (Some app) "profiles";
       match profiles with
       | None | Some Null => Ok ([] : list value)
       | Some (Arr ps) =>
           Ok (map (λ profile,
                      Obj (delete "profiles"
                             (<["profile" := profile]> (spread (Some app)))))
                   ps)
       | Some _ => Throw TypeError
       end)
    apps;
  Ok (mjoin (perApp : list (list value))).

(** [ap.profile?.id] (lines 453 and 458). *)
Definition profile_id (ap : value) : res (option value) :=
  p ← get (Some ap) "profile";
  get_opt p "id".

(** An array literal of the program as a value; an array that holds
    [undefined] is outside the model. *)
Definition array_of (l : list (option value)) : res value :=
  match mapM id l with
  | Some l' => Ok (Arr l')
  | None => Throw Unmodelled
  end.

(** [saveAppProfiles] (lines 448-461).  No promise is awaited.
    [saveUser] gets an object literal, on which the part of it that runs
    before its [saveData] cannot throw. *)
Definition saveAppProfiles (apps : list value) (user enableSync : option value)
    : M unit :=
  appProfiles ← lift (parseAppProfiles apps);
  mapM_ (λ ap, id ← lift (profile_id ap);
               fire (saveData (to_string id) (Some ap) LocalArea))
        appProfiles;;
  ids ← lift (map_res profile_id appProfiles);
  appProfileIds ← lift (array_of ids);
  fire (saveUser (Some (Obj (<["appProfileIds" := appProfileIds]> (spread user))))
          enableSync).

(** [update] (lines 569-581). *)
Definition update (apps : list value) (user : option value) : M unit :=
  data ← loadData;
  userId ← lift (get user "userId");
  others ← lift (map_res (λ u, get (Some u) "userId") (d_users data));
  userIds ← lift (uniq (userId :: others));
  users ← lift (array_of userIds);
  name ← ask config_name;
  fire (saveData (name +:+ "-users") (Some (Obj {[ "users" := users ]}))
          SyncArea);;
  enableSync ← lift (get (Some (d_settings data)) "enableSync");
  saveAppProfiles apps user enableSync.

(** [switchRole] (lines 583-594): the address the window is sent to. *)
Definition switchRole (label role : option value) : M string :=
  roleName ← lift (get role "roleName");
  accountId ← lift (get role "accountId");
  let roleArgs :=
    join "&" [
      "displayName=" +:+ to_string label;
      "roleName=" +:+ to_string roleName;
      "account=" +:+ to_string accountId;
      "redirect_uri="
        +:+ encodeURIComponent "https://console.aws.amazon.com/console/home"
    ] in
  name ← ask config_name;
  mret ("https://signin.aws.amazon.com/switchrole?" +:+ roleArgs +:+ "#" +:+ name).

(** ** Label templates

    The vocabulary in which the label properties are stated: a template
    is a sequence of texts and of the five placeholders [buildLabel]
    knows; it is written out with some placeholders filled in. *)

Inductive placeholder := PUser | PRole | PProfile | PAccount | PAccountName.

Definition placeholder_text (h : placeholder) : string :=
  match h with
  | PUser => "{{user}}"
  | PRole => "{{role}}"
  | PProfile => "{{profile}}"
  | PAccount => "{{account}}"
  | PAccountName => "{{accountName}}"
  end.

Inductive piece :=
  | Text (s : string)
  | Hole (h : placeholder).

Definition piece_text (fill : placeholder → option string) (p : piece) : string :=
  match p with
  | Text s => s
  | Hole h => default (placeholder_text h) (fill h)
  end.

Definition render (fill : placeholder → option string) (t : list piece) : string :=
  concat (map (piece_text fill) t).

(** A text without an opening brace, and a name that in addition has no
    dollar sign (which [replaceAll] would read as a pattern). *)
Definition brace_free (s : string) : Prop :=
  all_chars (λ c, negb (Ascii.eqb c "{")) s.

Definition dollar_free (s : string) : Prop :=
  all_chars (λ c, negb (Ascii.eqb c "$")) s.

(** An argument of [buildLabel] as the properties take it: [undefined],
    [null] or a text without brace and dollar sign; and the text it puts
    in place of its placeholder, if any (an empty text is falsy and puts
    nothing). *)
Definition label_arg (x : option value) : Prop :=
  match x with
  | None | Some Null => True
  | Some (Str v) => brace_free v ∧ dollar_free v
  | Some _ => False
  end.

Definition text_of (x : option value) : option string :=
  match x with
  | Some (Str v) => if String.eqb v "" then None else Some v
  | _ => None
  end.

Definition plain_template (t : list piece) : Prop :=
  forallb (λ p, match p with
                | Text s =>
                    forallb (λ c, negb (Ascii.eqb c "{")) (list_ascii_of_string s)
                | Hole _ => true
                end) t = true.

(** The record of an account in [custom.accounts] is absent, or an
    object whose [label] is absent, [null] or a plain text. *)
Definition plain_account (accounts : gmap string value) (key : string) : Prop :=
  match accounts !! key with
  | None => True
  | Some (Obj e) =>
      match e !! "label" with
      | None | Some Null => True
      | Some (Str l) => brace_free l ∧ dollar_free l
      | Some _ => False
      end
  | Some _ => False
  end.

(** The text that stands for [{{accountName}}]: the label of the account
    when it has a non-empty one, the name given otherwise. *)
Definition account_label (accounts : gmap string value) (key : string)
    (accountName : option string) : option string :=
  n ← accountName;
  Some (match accounts !! key with
        | Some (Obj e) =>
            match e !! "label" with
            | Some (Str l) => if String.eqb l "" then n else l
            | _ => n
            end
        | _ => n
        end).

Definition no_fill : placeholder → option string := λ _, None.

Definition label_fill (user role profile account accountName : option string)
    : placeholder → option string :=
  λ h, match h with
       | PUser => user
       | PRole => role
       | PProfile => profile
       | PAccount => account
       | PAccountName => accountName
       end.

(** ** More sample data *)

Module Fixture.

(** The default template of [sessionLabelSso], and one that also names
    the account. *)
Definition sso_template : list piece :=
  [Hole PUser; Text "/"; Hole PProfile; Text " @ "; Hole PAccount].

Definition long_template : list piece :=
  [Hole PUser; Text "/"; Hole PProfile; Text " @ "; Hole PAccountName;
   Text " ("; Hole PAccount; Text ") as "; Hole PRole].

(** A signed-in user with the customization of [Sample.custom] on top of
    the defaults, and a profile of theirs as [customizeProfiles] leaves
    it. *)
Definition carol : gmap string value :=
  list_to_map [
    ("userId", Str "carol");
    ("subject", Str "carol@example.org");
    ("managedActiveDirectoryId", Str "d-1234567890");
    ("appProfileIds", Arr [Str "p-default"; Str "p-green"]);
    ("custom", Obj (Sample.custom ∪ defaultCustom_init))
  ].

Definition block : gmap string value :=
  list_to_map [
    ("favorite", Bool false); ("hide", Bool false); ("label", Null);
    ("iamRoles", Arr []); ("color", Str "ff0000")].

Definition customized (id role : string) : gmap string value :=
  <["profile" := Obj (list_to_map [
      ("id", Str id); ("name", Str role); ("custom", Obj block)])]>
    (Sample.account_profile id role).

End Fixture.

(** ** Vocabulary of the lookups *)

(** The [userId] of a user is, or can be read and is not, a given
    string; likewise for the [profile.id] of an application profile. *)
Definition user_id_is (uid : string) (u : value) : Prop :=
  get (Some u) "userId" = Ok (Some (Str uid)).

Definition user_id_is_not (uid : string) (u : value) : Prop :=
  ∃ x, get (Some u) "userId" = Ok x ∧ x ≠ Some (Str uid).

Definition profile_id_is (pid : string) (ap : value) : Prop :=
  ∃ p, get (Some ap) "profile" = Ok p ∧ get p "id" = Ok (Some (Str pid)).

Definition profile_id_is_not (pid : string) (ap : value) : Prop :=
  ∃ p x, get (Some ap) "profile" = Ok p ∧ get p "id" = Ok x
         ∧ x ≠ Some (Str pid).

Module Fixture2.

(** The aggregate of [Sample.stored_world] once [alice] was the last
    user to sign in. *)
Definition last_alice : gmap string value :=
  list_to_map [("defaultUser", Str "lastUserId"); ("lastUserId", Str "alice");
               ("enableSync", Bool true)].

Definition aggregate : ExtensionData :=
  {| d_updatedAt := Some (Num 1690000000004);
     d_appProfiles := [Obj (Sample.account_profile "p-bob" "Ops");
                       Obj (Sample.account_profile "p-green" "ReadOnly");
                       Obj (Sample.account_profile "p-default" "Admin")];
     d_settings := Obj last_alice;
     d_users := [Sample.bob_loaded; Sample.alice_loaded];
     d_iamLogins := Obj Sample.logins_doc |}.

End Fixture2.

Module FirefoxFixture.

(** A Firefox with one container, named after the session of [carol] in
    the role [Admin], that holds one tab; the active tab of the window is
    outside of it. *)
Definition settings : gmap string value :=
  list_to_map [
    ("firefoxContainers", Bool true);
    ("firefoxResumeContainer", Bool true);
    ("firefoxExpireMinsContainer", Num 480)].

Definition session : container :=
  {| container_name := "carol@example.org/Admin @ 111111111111";
     container_cookieStoreId := "firefox-container-1" |}.

Definition session_tab : tab :=
  {| tab_id := 11; tab_windowId := 2; tab_index := 3;
     tab_url := Some "https://eu-west-1.console.aws.amazon.com/s3/home";
     tab_cookieStoreId := "firefox-container-1";
     tab_active_current := false |}.

Definition front_tab : tab :=
  {| tab_id := 12; tab_windowId := 1; tab_index := 0;
     tab_url := Some "https://example.org/";
     tab_cookieStoreId := "firefox-default";
     tab_active_current := true |}.

Definition browser : world :=
  constructor "aws-sso-ext" Firefox ∅ ∅ (λ n, 1700000000000 + Z.of_nat n)%Z
    [session_tab; front_tab] [session].

End FirefoxFixture.

(** ** Vocabulary of the first sign-in *)

(** The profiles an application lists: none when [profiles] is absent or
    [null]; [None] when it is something [forEach] cannot be called on. *)
Definition profiles_of (app : gmap string value) : option (list value) :=
  match app !! "profiles" with
  | None | Some Null => Some []
  | Some (Arr ps) => Some ps
  | Some _ => None
  end.

(** The record of one profile of an application. *)
Definition app_profile (app : gmap string value) (profile : value) : value :=
  Obj (<["profile" := profile]> (delete "profiles" app)).

(** An application profile whose [profile.id] is the string [id]. *)
Definition has_profile_id (ap : gmap string value) (id : string) : Prop :=
  ∃ p, ap !! "profile" = Some (Obj p) ∧ p !! "id" = Some (Str id).

Module SignIn.

(** What the portal shows to [dave]: an AWS account with two roles and
    an application without profiles. *)
Definition account : gmap string value :=
  list_to_map [
    ("id", Str "ins-1");
    ("name", Str "AWS Account (prod)");
    ("applicationName", Str "AWS Account");
    ("searchMetadata", Obj (list_to_map [
       ("AccountId", Str "111111111111"); ("AccountName", Str "prod")]))].

Definition admin : value :=
  Obj (list_to_map [("id", Str "p-1"); ("name", Str "Admin")]).

Definition reader : value :=
  Obj (list_to_map [("id", Str "p-2"); ("name", Str "ReadOnly")]).

Definition apps : list value :=
  [Obj (<["profiles" := Arr [admin; reader]]> account);
   Obj (list_to_map [("id", Str "ins-2"); ("name", Str "Wiki")])].

(** A profile of an application that is not an AWS account. *)
Definition wiki_profile : gmap string value :=
  list_to_map [
    ("id", Str "ins-2"); ("name", Str "Wiki"); ("applicationName", Str "Wiki");
    ("profile", Obj (list_to_map [("id", Str "p-wiki"); ("name", Str "Default")]))].

Definition dave : gmap string value :=
  list_to_map [
    ("userId", Str "dave");
    ("subject", Str "dave@example.org");
    ("managedActiveDirectoryId", Str "d-1234567890")].

End SignIn.

(** ** Vocabulary of the remaining properties *)

(** A method that leaves the state as it found it. *)
Definition reads_only {A} (m : M A) : Prop := ∀ w, (m w).2 = w.

(** The object a storage cell holds, [d] when the cell is empty. *)
Definition obj_or (d : gmap string value) (cell : option value)
    : gmap string value :=
  match cell with
  | Some (Obj m) => m
  | _ => d
  end.

(** A cell that is empty or holds an object. *)
Definition obj_cell (cell : option value) : Prop :=
  match cell with
  | None | Some (Obj _) => True
  | Some _ => False
  end.

(** Reading one character back from the front of a percent-encoded text:
    the character itself, or the one or two escaped octets that stand
    for it.  The code has no decoder; this one serves to show that its
    encoders lose nothing. *)
Definition hex_value (c : ascii) : option nat :=
  if is_digit c then Some (code c - 48)
  else if in_range "A" "F" c then Some (code c - 55)
  else if in_range "a" "f" c then Some (code c - 87)
  else None.

Definition octet (s : string) : option (nat * string) :=
  match s with
  | String "%" (String h (String l r)) =>
      a ← hex_value h; b ← hex_value l; Some (16 * a + b, r)
  | _ => None
  end.

Definition unescape_head (s : string) : option (ascii * string) :=
  match s with
  | EmptyString => None
  | String c r =>
      if Ascii.eqb c "%" then
        '(v, r1) ← octet s;
        if (v <? 128)%nat then Some (ascii_of_nat v, r1)
        else '(v2, r2) ← octet r1;
             Some (ascii_of_nat ((v - 192) * 64 + (v2 - 128)), r2)
      else Some (c, r)
  end.

(** * Properties *)

(** ** Equations of the operations *)

Lemma get_obj (m : gmap string value) k :
  inherited k = false → get (Some (Obj m)) k = Ok (m !! k).
Proof. intros H. unfold get, lookup. by rewrite H. Qed.

(** An own property is read as it is, whatever its name. *)
Lemma get_own (m : gmap string value) k v :
  m !! k = Some v → get (Some (Obj m)) k = Ok (Some v).
Proof. intros H. unfold get, lookup. rewrite H. by destruct (inherited k). Qed.

Lemma has_in_obj (m : gmap string value) k :
  inherited k = false →
  has_in k (Some (Obj m)) = Ok (bool_decide (is_Some (m !! k))).
Proof. intros H. unfold has_in. by rewrite H. Qed.

Lemma has_in_own (m : gmap string value) k :
  is_Some (m !! k) → has_in k (Some (Obj m)) = Ok true.
Proof.
  intros H. unfold has_in. rewrite (bool_decide_eq_true_2 _ H).
  by rewrite orb_true_r.
Qed.

Lemma inherited_proto k :
  inherited k = false → String.eqb k "__proto__" = false.
Proof.
  intros H. destruct (String.eqb_spec k "__proto__") as [->|]; [|done].
  discriminate H.
Qed.

Lemma has_own_obj (m : gmap string value) k :
  has_own (Some (Obj m)) k = Ok (bool_decide (is_Some (m !! k))).
Proof. reflexivity. Qed.

Lemma set_prop_obj (m : gmap string value) k x :
  String.eqb k "__proto__" = false →
  set_prop (Some (Obj m)) k x = Ok (Obj (put k x m)).
Proof. intros H. unfold set_prop. by rewrite H. Qed.

Lemma lookup_put_eq k x (m : gmap string value) : put k x m !! k = x.
Proof.
  destruct x as [v|]; simpl.
  - apply lookup_insert_eq.
  - apply lookup_delete_eq.
Qed.

Lemma res_bind_ok {A B} (a : A) (f : A → res B) : (Ok a ≫= f) = f a.
Proof. reflexivity. Qed.

Lemma is_Some_true {A} (o : option A) :
  is_Some o → bool_decide (is_Some o) = true.
Proof. intros H. by apply bool_decide_eq_true_2. Qed.

Lemma is_Some_false {A} (o : option A) :
  o = None → bool_decide (is_Some o) = false.
Proof. intros ->. apply bool_decide_eq_false_2. by intros [? ?]. Qed.

(** Comparing with a string never leaves the model. *)
Lemma strict_eq_str x s : strict_eq x (Some (Str s)) = Ok (is_str s x).
Proof. by destruct x as [[| | |t| |]|]. Qed.

Lemma strict_eq_str_l x s : strict_eq (Some (Str s)) x = Ok (is_str s x).
Proof.
  destruct x as [[| | |t| |]|]; simpl; try done.
  by rewrite String.eqb_sym.
Qed.

Lemma is_str_true s x : is_str s x = true ↔ x = Some (Str s).
Proof.
  destruct x as [[| | |t| |]|]; simpl; try (split; discriminate).
  rewrite String.eqb_eq. split; [by intros ->|by intros [= ->]].
Qed.

Lemma is_str_false s x : x ≠ Some (Str s) → is_str s x = false.
Proof.
  intros H. destruct (is_str s x) eqn:E; [|done].
  by apply is_str_true in E.
Qed.

Create Rewrite HintDb js.
#[global] Hint Rewrite @res_bind_ok has_own_obj strict_eq_str : js.
#[global] Hint Rewrite get_obj has_in_obj set_prop_obj
  using (exact eq_refl || eassumption) : js.

(** Runs the pure part of a method: the equations above and the
    hypotheses that give the value of a lookup. *)
Ltac js_run :=
  repeat (progress (autorewrite with js;
    repeat match goal with
           | H : ?l = _ |- context [?l] => rewrite H
           end)).

#[global] Arguments get : simpl never.
#[global] Arguments get_opt : simpl never.
#[global] Arguments has_in : simpl never.
#[global] Arguments has_own : simpl never.
#[global] Arguments set_prop : simpl never.
#[global] Arguments to_string : simpl never.
#[global] Arguments strict_eq : simpl never.
#[global] Arguments truthy : simpl never.
#[global] Arguments is_str : simpl never.
#[global] Arguments put : simpl never.

(** ** The matcher computes the denotation *)

Lemma append_cons c (s t : string) : String c s +:+ t = String c (s +:+ t).
Proof. reflexivity. Qed.

Lemma append_nil_r (s : string) : s +:+ "" = s.
Proof.
  induction s as [|c s IH]; [done|]. by rewrite append_cons, IH.
Qed.

Lemma append_assoc (s1 s2 s3 : string) :
  (s1 +:+ s2) +:+ s3 = s1 +:+ (s2 +:+ s3).
Proof.
  induction s1 as [|c s1 IH]; [done|]. by rewrite !append_cons, IH.
Qed.

Lemma append_eq_nil (s1 s2 : string) : s1 +:+ s2 = "" → s1 = "" ∧ s2 = "".
Proof. destruct s1; [done|]. rewrite append_cons. discriminate. Qed.

Lemma append_eq_cons (s1 s2 s : string) c :
  s1 +:+ s2 = String c s →
  (s1 = "" ∧ s2 = String c s) ∨ (∃ s1', s1 = String c s1' ∧ s = s1' +:+ s2).
Proof.
  destruct s1 as [|c1 s1]; intros H.
  - by left.
  - rewrite append_cons in H. injection H as -> <-. right. by eexists.
Qed.

Lemma nullable_spec r : nullable r = true ↔ Matches r "".
Proof.
  induction r as [| |p|r1 IH1 r2 IH2|r1 IH1 r2 IH2|r IH]; simpl.
  - split; [done|]. inversion 1.
  - split; [constructor|done].
  - split; [done|]. inversion 1.
  - rewrite andb_true_iff, IH1, IH2. split.
    + intros [H1 H2]. change "" with ("" +:+ ""). by constructor.
    + inversion 1 as [| |? ? s1 s2 H1 H2 E| | | |]; subst.
      apply append_eq_nil in H3 as [-> ->]. done.
  - rewrite orb_true_iff, IH1, IH2. split.
    + intros [H|H]; [by apply MAltL|by apply MAltR].
    + inversion 1; subst; [by left|by right].
  - split; [constructor|done].
Qed.

Lemma deriv_spec r : ∀ c s, Matches (deriv c r) s ↔ Matches r (String c s).
Proof.
  induction r as [| |p|r1 IH1 r2 IH2|r1 IH1 r2 IH2|r IH]; intros c s; simpl.
  - split; inversion 1.
  - split; inversion 1.
  - destruct (p c) eqn:Hp; split.
    + inversion 1; subst. by constructor.
    + inversion 1; subst. constructor.
    + inversion 1.
    + inversion 1; subst. congruence.
  - assert (Hcat : Matches (Cat (deriv c r1) r2) s →
                   Matches (Cat r1 r2) (String c s)).
    { inversion 1 as [| |? ? s1 s2 H1 H2| | | |]; subst.
      apply IH1 in H1. change (String c (s1 +:+ s2)) with (String c s1 +:+ s2).
      by constructor. }
    assert (Hinv : Matches (Cat r1 r2) (String c s) →
                   (Matches (Cat (deriv c r1) r2) s) ∨
                   (Matches r1 "" ∧ Matches r2 (String c s))).
    { inversion 1 as [| |? ? s1 s2 H1 H2 E| | | |]; subst.
      apply append_eq_cons in H3 as [[-> ->]|(s1' & -> & ->)].
      - by right.
      - left. constructor; [by apply IH1|done]. }
    destruct (nullable r1) eqn:Hn; split.
    + inversion 1; subst; [by apply Hcat|].
      change (String c s) with ("" +:+ String c s).
      constructor; [by apply nullable_spec|by apply IH2].
    + intros H. destruct (Hinv H) as [H'|[_ H']].
      * by apply MAltL.
      * apply MAltR. by apply IH2.
    + apply Hcat.
    + intros H. destruct (Hinv H) as [H'|[H' _]]; [done|].
      apply nullable_spec in H'. congruence.
  - split.
    + inversion 1; subst; [apply MAltL; by apply IH1|apply MAltR; by apply IH2].
    + inversion 1; subst; [apply MAltL; by apply IH1|apply MAltR; by apply IH2].
  - split.
    + inversion 1 as [| |? ? s1 s2 H1 H2| | | |]; subst.
      apply IH in H1. change (String c (s1 +:+ s2)) with (String c s1 +:+ s2).
      by constructor.
    + inversion 1 as [| | | | | |? ? s1 s2 H1 H2]; subst.
      constructor; [by apply IH|done].
Qed.

Lemma matches_spec s : ∀ r, matches r s = true ↔ Matches r s.
Proof.
  induction s as [|c s IH]; intros r; simpl.
  - apply nullable_spec.
  - rewrite IH. apply deriv_spec.
Qed.

(** ** The profile resolver *)

Lemma map_res_lookup {A B} (f : A → res B) l out i x :
  map_res f l = Ok out → l !! i = Some x →
  ∃ y, out !! i = Some y ∧ f x = Ok y.
Proof.
  revert out i. induction l as [|a l IH]; intros out i Hm Hi; [done|].
  simpl in Hm. destruct (f a) as [b|e] eqn:Hf; [|done].
  simpl in Hm. destruct (map_res f l) as [bs|e] eqn:Hl; [|done].
  simpl in Hm. injection Hm as <-.
  destruct i as [|i]; simpl in *.
  - injection Hi as <-. eauto.
  - by apply IH.
Qed.

Lemma resolved_color_with_profile (ap q : gmap string value) c :
  resolved_color (Obj (<["profile" := Obj (put "custom" (Some c) q)]> ap))
  = get (Some c) "color".
Proof.
  unfold resolved_color.
  rewrite get_obj, lookup_insert_eq, res_bind_ok by exact eq_refl.
  by rewrite get_obj, lookup_put_eq, res_bind_ok by exact eq_refl.
Qed.

Lemma lookup_own (m : gmap string value) k v :
  m !! k = Some v → lookup (Some (Obj m)) k = Ok (Own (Some v)).
Proof. intros H. unfold lookup. rewrite H. by destruct (inherited k). Qed.

(** Lines 480-482: the block attached to a profile is the entry that
    [profiles] owns under the profile id, and the default block when
    there is none and the id names no member of [Object.prototype]. *)
Lemma attached_block (profiles : gmap string value) id (defaults own : value) :
  (profiles !! id = None → inherited id = false) →
  default defaults (profiles !! id) = own →
  ∃ known, has_in id (Some (Obj profiles)) = Ok known ∧
           (if known : bool then get (Some (Obj profiles)) id
            else Ok (Some defaults)) = Ok (Some own).
Proof.
  intros Hid <-. destruct (profiles !! id) as [c|] eqn:E.
  - exists true. rewrite has_in_own by eauto. split; [done|].
    by rewrite (get_own _ _ _ E).
  - exists false. rewrite has_in_obj by auto. by rewrite E, is_Some_false.
Qed.

(** The loop body on a profile of the AWS-account type whose account has
    an entry: the color is the account's when [accountsOverride] holds
    or the block attached to the profile carries the default color, and
    the color of that block otherwise. *)
Lemma customizeProfile_account
    (user custom profiles accounts ap prof : gmap string value)
    (defaults own account : value)
    (accountId ownColor accountColor : option value) (same : bool) :
  user !! "custom" = Some (Obj custom) →
  custom !! "profiles" = Some (Obj profiles) →
  custom !! "accounts" = Some (Obj accounts) →
  ap !! "profile" = Some (Obj prof) →
  ap !! "applicationName" = Some (Str "AWS Account") →
  get_opt (ap !! "searchMetadata") "AccountId" = Ok accountId →
  accounts !! to_string accountId = Some account →
  get (Some account) "color" = Ok accountColor →
  (profiles !! to_string (prof !! "id") = None →
   inherited (to_string (prof !! "id")) = false) →
  default defaults (profiles !! to_string (prof !! "id")) = own →
  get (Some own) "color" = Ok ownColor →
  strict_eq ownColor (custom !! "colorDefault") = Ok same →
  ∃ p, customizeProfile (Some (Obj user)) defaults (Obj ap) = Ok p ∧
       resolved_color p =
         Ok (if truthy (custom !! "accountsOverride") || same
             then accountColor else ownColor).
Proof.
  intros Hc Hp Ha Hprof Happ Hsm Hacc Hcol Hid Hown Hoc Hsame.
  destruct (attached_block profiles _ defaults own Hid Hown)
    as (known & Hk1 & Hk2).
  unfold customizeProfile. js_run. rewrite ?Hk1, ?res_bind_ok, ?Hk2.
  js_run. simpl with_profile. js_run.
  rewrite !lookup_insert_ne by done. js_run.
  change (is_str "AWS Account" (Some (Str "AWS Account"))) with true.
  cbv iota. js_run. rewrite has_in_own, res_bind_ok by eauto.
  destruct (truthy (custom !! "accountsOverride")); simpl orb; cbv iota.
  - js_run. rewrite (lookup_own _ _ _ Hacc), res_bind_ok. simpl slot_get.
    js_run. simpl with_profile. eexists; split; [done|].
    rewrite resolved_color_with_profile. js_run. by rewrite lookup_put_eq.
  - js_run. destruct same.
    + js_run. rewrite (lookup_own _ _ _ Hacc), res_bind_ok. simpl slot_get.
      js_run. simpl with_profile. eexists; split; [done|].
      rewrite resolved_color_with_profile. js_run. by rewrite lookup_put_eq.
    + eexists; split; [done|]. by rewrite resolved_color_with_profile.
Qed.

(** C1.  For a profile of the AWS-account type whose account id has an
    entry in [user.custom.accounts], [customizeProfiles] resolves the
    color to the account's color exactly when [accountsOverride] holds or
    the color of the block attached to the profile equals
    [user.custom.colorDefault], and keeps the profile's own color
    otherwise: on the profile alone the call returns, and in any list on
    which the call returns the profile's entry has that color.  The
    block attached is the entry of [user.custom.profiles] under the
    profile id, and the default block when there is none; a profile id
    without an entry is taken not to be the name of a member of
    [Object.prototype] (under such a name the [in] of line 480 finds the
    member, and the code attaches a function).  With
    default color [222f3e], no override and account color [ff0000], a
    profile of color [222f3e] resolves to [ff0000] and one of color
    [00ff00] stays [00ff00]. *)
Theorem customizeProfiles_account_color
    (user custom profiles accounts ap prof : gmap string value)
    (own account : value)
    (accountId ownColor accountColor : option value) (same : bool) :
  user !! "custom" = Some (Obj custom) →
  custom !! "profiles" = Some (Obj profiles) →
  custom !! "accounts" = Some (Obj accounts) →
  ap !! "profile" = Some (Obj prof) →
  ap !! "applicationName" = Some (Str "AWS Account") →
  get_opt (ap !! "searchMetadata") "AccountId" = Ok accountId →
  accounts !! to_string accountId = Some account →
  get (Some account) "color" = Ok accountColor →
  (profiles !! to_string (prof !! "id") = None →
   inherited (to_string (prof !! "id")) = false) →
  default (default_block (custom !! "colorDefault"))
    (profiles !! to_string (prof !! "id")) = own →
  get (Some own) "color" = Ok ownColor →
  strict_eq ownColor (custom !! "colorDefault") = Ok same →
  let resolved :=
    if truthy (custom !! "accountsOverride") || same
    then accountColor else ownColor in
  (∃ p, customizeProfiles (Some (Obj user)) [Obj ap] = Ok [p] ∧
        resolved_color p = Ok resolved) ∧
  (∀ aps out i,
     customizeProfiles (Some (Obj user)) aps = Ok out →
     aps !! i = Some (Obj ap) →
     ∃ p, out !! i = Some p ∧ resolved_color p = Ok resolved) ∧
  (∃ p1 p2,
     customizeProfiles (Some (Obj Sample.user))
       [Obj (Sample.account_profile "p-default" "Admin");
        Obj (Sample.account_profile "p-green" "Admin")] = Ok [p1; p2] ∧
     resolved_color p1 = Ok (Some (Str "ff0000")) ∧
     resolved_color p2 = Ok (Some (Str "00ff00"))).
Proof.
  intros Hc Hp Ha Hprof Happ Hsm Hacc Hcol Hid Hown Hoc Hsame resolved.
  destruct (customizeProfile_account user custom profiles accounts ap prof
              (default_block (custom !! "colorDefault")) own account
              accountId ownColor accountColor same) as (p & Hp1 & Hp2);
    try done.
  split; [|split].
  - exists p. split; [|done].
    unfold customizeProfiles. js_run. simpl. by rewrite Hp1.
  - intros aps out i Hrun Hi.
    unfold customizeProfiles in Hrun. revert Hrun. js_run. intros Hrun.
    destruct (map_res_lookup _ _ _ _ _ Hrun Hi) as (y & Hy & Hfy).
    exists y. split; [done|]. rewrite Hp1 in Hfy. by injection Hfy as <-.
  - eexists _, _. split; [vm_compute; reflexivity|].
    split; vm_compute; reflexivity.
Qed.

Lemma customizeProfiles_account_color_witness :
  ∃ p, customizeProfiles (Some (Obj Sample.user))
         [Obj (Sample.account_profile "p-green" "Admin")] = Ok [p] ∧
       resolved_color p = Ok (Some (Str "00ff00")).
Proof.
  refine (proj1 (customizeProfiles_account_color
    Sample.user Sample.custom _ _
    (Sample.account_profile "p-green" "Admin") _ _ _
    (Some (Str "111111111111")) (Some (Str "00ff00")) (Some (Str "ff0000"))
    false _ _ _ _ _ _ _ _ _ _ _ _));
    reflexivity.
Defined.

(** ** The user a navigation works with *)

(** After the loop of [findUserByProfileId] has passed a user who owns
    the profile, later users who do not own it leave the result alone. *)
Lemma findUserByProfileId_fold_after profileId after acc :
  Forall (λ v, owns_profile profileId (Some v) = Ok false) after →
  foldl (λ acc u,
           user ← acc;
           owns ← owns_profile profileId (Some u);
           Ok (if owns : bool then Some u else user))
        (Ok acc) after = Ok acc.
Proof.
  induction after as [|v after IH]; intros Hall; [done|].
  inversion Hall as [|? ? Hv Hrest]; subst. simpl.
  rewrite Hv. simpl. by apply IH.
Qed.

Lemma findUserByProfileId_fold_before profileId before acc :
  Forall (λ v, ∃ b, owns_profile profileId (Some v) = Ok b) before →
  ∃ acc', foldl (λ acc u,
                   user ← acc;
                   owns ← owns_profile profileId (Some u);
                   Ok (if owns : bool then Some u else user))
                (Ok acc) before = Ok acc'.
Proof.
  revert acc. induction before as [|v before IH]; intros acc Hall.
  - by exists acc.
  - inversion Hall as [|? ? [b Hv] Hrest]; subst. simpl.
    rewrite Hv. simpl. by apply IH.
Qed.

Lemma findUserByProfileId_last profileId before u after :
  Forall (λ v, ∃ b, owns_profile profileId (Some v) = Ok b) before →
  owns_profile profileId (Some u) = Ok true →
  Forall (λ v, owns_profile profileId (Some v) = Ok false) after →
  findUserByProfileId profileId (before ++ u :: after) = Ok (Some u).
Proof.
  intros Hb Hu Ha. unfold findUserByProfileId.
  rewrite foldl_app.
  destruct (findUserByProfileId_fold_before profileId before
              (head (before ++ u :: after)) Hb) as [acc' ->].
  simpl. rewrite Hu. simpl. by apply findUserByProfileId_fold_after.
Qed.

(** C2, as the code has it.  When [settings.showAllProfiles] holds and
    the user passed in does not own the chosen profile,
    [navSelectedProfile] goes on with the LAST user of the list whose
    [appProfileIds] contain the profile id: the loop of
    [findUserByProfileId] overwrites its result at every owner. *)
Theorem navSelectedProfile_resolves_last_owner
    (sessionLabelSso : option value → option value → res string)
    (profile user settings showAll prof id : option value)
    (before after : list value) (u : value) :
  get settings "showAllProfiles" = Ok showAll →
  truthy showAll = true →
  get profile "profile" = Ok prof →
  get prof "id" = Ok id →
  owns_profile id user = Ok false →
  Forall (λ v, ∃ b, owns_profile id (Some v) = Ok b) before →
  owns_profile id (Some u) = Ok true →
  Forall (λ v, owns_profile id (Some v) = Ok false) after →
  navSelectedProfile_user profile user (before ++ u :: after) settings
    = Ok (Some u) ∧
  ∀ w, navSelectedProfile sessionLabelSso profile user
         (before ++ u :: after) settings w
       = navSelectedProfile_rest sessionLabelSso profile (Some u) settings w.
Proof.
  intros Hs Ht Hp Hid Huser Hb Hu Ha.
  assert (Hres : navSelectedProfile_user profile user (before ++ u :: after)
                   settings = Ok (Some u)).
  { unfold navSelectedProfile_user. rewrite Hs, res_bind_ok, Ht.
    rewrite Hp, res_bind_ok, Hid, res_bind_ok, Huser, res_bind_ok.
    by apply findUserByProfileId_last. }
  split; [done|]. intros w. unfold navSelectedProfile.
  rewrite Hres. reflexivity.
Qed.

Lemma navSelectedProfile_resolves_last_owner_witness :
  navSelectedProfile_user (Some Sample.shared_profile) (Some Sample.stranger)
    ([Sample.stranger; Sample.owner "alice"] ++
       Sample.owner "bob" :: [Sample.stranger])
    (Some Sample.show_all)
  = Ok (Some (Sample.owner "bob")).
Proof.
  refine (proj1 (navSelectedProfile_resolves_last_owner
    (λ _ _, Ok "") (Some Sample.shared_profile) (Some Sample.stranger)
    (Some Sample.show_all) (Some (Bool true)) _ (Some (Str "p-shared"))
    [Sample.stranger; Sample.owner "alice"] [Sample.stranger]
    (Sample.owner "bob") _ _ _ _ _ _ _ _)).
  - reflexivity.
  - reflexivity.
  - reflexivity.
  - reflexivity.
  - reflexivity.
  - repeat constructor; eexists; reflexivity.
  - reflexivity.
  - repeat constructor.
Defined.

(** The claim as the specification words it, with the FIRST owner, fails:
    of two owners the second is taken. *)
Lemma navSelectedProfile_first_owner_counterexample :
  ¬ (∀ (profile user settings showAll prof id : option value)
       (before after : list value) (u : value),
       get settings "showAllProfiles" = Ok showAll →
       truthy showAll = true →
       get profile "profile" = Ok prof →
       get prof "id" = Ok id →
       owns_profile id user = Ok false →
       Forall (λ v, owns_profile id (Some v) = Ok false) before →
       owns_profile id (Some u) = Ok true →
       Forall (λ v, ∃ b, owns_profile id (Some v) = Ok b) after →
       navSelectedProfile_user profile user (before ++ u :: after) settings
       = Ok (Some u)).
Proof.
  intros H.
  specialize (H (Some Sample.shared_profile) (Some Sample.stranger)
                (Some Sample.show_all) (Some (Bool true))
                (Sample.shared_profile_inner) (Some (Str "p-shared"))
                [] [Sample.owner "bob"] (Sample.owner "alice")).
  assert (Hrun : navSelectedProfile_user (Some Sample.shared_profile)
            (Some Sample.stranger) [Sample.owner "alice"; Sample.owner "bob"]
            (Some Sample.show_all) = Ok (Some (Sample.owner "bob")))
    by reflexivity.
  simpl app in H. rewrite Hrun in H.
  assert (Heq : Ok (Some (Sample.owner "bob")) = Ok (Some (Sample.owner "alice"))).
  { apply H; try reflexivity.
    - constructor.
    - repeat constructor. eexists; reflexivity. }
  apply (f_equal (λ r, match r with
                       | Ok (Some (Obj m)) => m !! "userId"
                       | _ => None
                       end)) in Heq.
  vm_compute in Heq. discriminate.
Qed.

(** ** Running a method *)

Lemma bind_lift_ok {A B} (a : A) (f : A → M B) w :
  (lift (Ok a) ≫= f) w = f a w.
Proof. reflexivity. Qed.

Lemma bind_lift_throw {A B} e (f : A → M B) w :
  (lift (Throw e) ≫= f) w = (Throw e, w).
Proof. reflexivity. Qed.

Lemma bind_ret {A B} (a : A) (f : A → M B) w : (mret a ≫= f) w = f a w.
Proof. reflexivity. Qed.

Lemma bind_ask {A B} (g : world → A) (f : A → M B) w :
  (ask g ≫= f) w = f (g w) w.
Proof. reflexivity. Qed.

Lemma bind_modify {B} (g : world → world) (f : unit → M B) w :
  (modify g ≫= f) w = f tt (g w).
Proof. reflexivity. Qed.

Lemma bind_run {A B} (m : M A) (f : A → M B) w a w' :
  m w = (Ok a, w') → (m ≫= f) w = f a w'.
Proof. intros H. unfold mbind, M_bind. by rewrite H. Qed.

#[global] Hint Rewrite @bind_lift_ok @bind_ret @bind_ask @bind_modify : js.

(** ** The URL builder *)

Lemma list_ascii_of_string_app (s t : string) :
  list_ascii_of_string (s +:+ t)
  = (list_ascii_of_string s ++ list_ascii_of_string t)%list.
Proof.
  induction s as [|c s IH]; [done|]. rewrite append_cons. simpl. by f_equal.
Qed.

Lemma concat_app (l1 l2 : list string) :
  concat (l1 ++ l2)%list = concat l1 +:+ concat l2.
Proof.
  induction l1 as [|s l1 IH]; [done|]. simpl. by rewrite IH, append_assoc.
Qed.

Lemma flat_map_chars_app f (s t : string) :
  flat_map_chars f (s +:+ t) = flat_map_chars f s +:+ flat_map_chars f t.
Proof.
  unfold flat_map_chars.
  by rewrite list_ascii_of_string_app, map_app, concat_app.
Qed.

Lemma flat_map_chars_cons f c (s : string) :
  flat_map_chars f (String c s) = f c +:+ flat_map_chars f s.
Proof. reflexivity. Qed.

(** [encodeUriPlusParens] works character by character. *)
Lemma encodeUriPlusParens_chars (s : string) :
  encodeUriPlusParens s
  = flat_map_chars (λ c, encodeUriPlusParens (String c "")) s.
Proof.
  unfold encodeUriPlusParens, encodeURIComponent, replace_parens.
  induction s as [|c s IH]; [done|].
  rewrite !flat_map_chars_cons, flat_map_chars_app, IH.
  f_equal. unfold flat_map_chars at 3. simpl. by rewrite append_nil_r.
Qed.

(** Every character is treated as expected: the 256 cases are run. *)
Lemma encodeUriPlusParens_char (c : ascii) : escapes_char c = true.
Proof. destruct c as [[] [] [] [] [] [] [] []]; vm_compute; reflexivity. Qed.

Lemma encodeUriPlusParens_alphabet (s : string) :
  forallb uri_safe (list_ascii_of_string (encodeUriPlusParens s)) = true.
Proof.
  rewrite encodeUriPlusParens_chars. unfold flat_map_chars.
  induction (list_ascii_of_string s) as [|c l IH]; [done|].
  simpl. rewrite list_ascii_of_string_app, forallb_app, IH, andb_true_r.
  pose proof (encodeUriPlusParens_char c) as Hc. unfold escapes_char in Hc.
  destruct (rfc3986_unreserved c) eqn:Hu.
  - apply String.eqb_eq in Hc. rewrite Hc. simpl.
    unfold uri_safe. by rewrite Hu.
  - by apply andb_true_iff in Hc as [Hc _].
Qed.

(** C3.  For a profile whose [profile.name] is ["Default"],
    [createProfileUrl] returns the deep link into the SSO directory,
    [https://{managedActiveDirectoryId}.awsapps.com/start/#/saml/default/{name}/{id}],
    where [name] is the [name] of the application profile encoded by
    [encodeUriPlusParens] and [id] its [id]:
    a character that RFC 3986 calls unreserved stays, every other one,
    [! ' ( ) *] among them, becomes [%] escapes. *)
Theorem createProfileUrl_default (user ap prof : gmap string value) (w : world) :
  ap !! "profile" = Some (Obj prof) →
  prof !! "name" = Some (Str "Default") →
  createProfileUrl (Some (Obj user)) (Some (Obj ap)) w
  = (Ok ("https://" +:+ to_string (user !! "managedActiveDirectoryId")
         +:+ ".awsapps.com/start/#/saml/default/"
         +:+ encodeUriPlusParens (to_string (ap !! "name"))
         +:+ "/" +:+ to_string (ap !! "id")), w)
  ∧ (∀ s, encodeUriPlusParens s
          = flat_map_chars (λ c, encodeUriPlusParens (String c "")) s)
  ∧ (∀ c, escapes_char c = true)
  ∧ (∀ s, forallb uri_safe (list_ascii_of_string (encodeUriPlusParens s))
          = true)
  ∧ encodeUriPlusParens "!'()*" = "%21%27%28%29%2a".
Proof.
  intros Hprof Hname. split; [|split; [|split; [|split]]].
  - unfold createProfileUrl. js_run.
    change (is_str "Default" (Some (Str "Default"))) with true. cbv iota.
    js_run. unfold mret, M_ret. do 2 f_equal.
    by rewrite !append_assoc.
  - apply encodeUriPlusParens_chars.
  - apply encodeUriPlusParens_char.
  - apply encodeUriPlusParens_alphabet.
  - reflexivity.
Qed.

Lemma createProfileUrl_default_witness :
  fst (createProfileUrl (Some (Obj Sample.user))
         (Some (Obj (Sample.account_profile "p-default" "Default")))
         Sample.console_world)
  = Ok "https://d-1234567890.awsapps.com/start/#/saml/default/AWS%20Account%20%28prod%29/ins-0001".
Proof.
  rewrite (proj1 (createProfileUrl_default Sample.user
    (Sample.account_profile "p-default" "Default") _ Sample.console_world
    eq_refl eq_refl)).
  reflexivity.
Defined.

Lemma length_append (s t : string) :
  String.length (s +:+ t) = String.length s + String.length t.
Proof.
  induction s as [|c s IH]; [done|]. rewrite append_cons. simpl. by rewrite IH.
Qed.

Lemma append_fixpoint (s t : string) : s = s +:+ t → t = "".
Proof.
  intros H. apply (f_equal String.length) in H.
  rewrite length_append in H.
  destruct t; [done|]. simpl in H. lia.
Qed.

(** ** The console pattern, read as the specification words it *)

Lemma Matches_eps s : Matches Eps s ↔ s = "".
Proof. split; [by inversion 1|intros ->; constructor]. Qed.

Lemma Matches_class p s :
  Matches (Class p) s ↔ ∃ c, s = String c "" ∧ p c = true.
Proof.
  split.
  - inversion 1; subst. by eexists.
  - intros (c & -> & Hc). by constructor.
Qed.

Lemma Matches_cat r1 r2 s :
  Matches (Cat r1 r2) s ↔
  ∃ s1 s2, s = s1 +:+ s2 ∧ Matches r1 s1 ∧ Matches r2 s2.
Proof.
  split.
  - inversion 1; subst. by eexists _, _.
  - intros (s1 & s2 & -> & H1 & H2). by constructor.
Qed.

Lemma Matches_alt r1 r2 s :
  Matches (Alt r1 r2) s ↔ Matches r1 s ∨ Matches r2 s.
Proof.
  split.
  - inversion 1; subst; [by left|by right].
  - intros [H|H]; [by apply MAltL|by apply MAltR].
Qed.

Lemma Matches_opt r s : Matches (opt r) s ↔ Matches r s ∨ s = "".
Proof. unfold opt. by rewrite Matches_alt, Matches_eps. Qed.

Lemma Matches_lit t s : Matches (lit t) s ↔ s = t.
Proof.
  revert s. induction t as [|c t IH]; intros s; simpl.
  - apply Matches_eps.
  - rewrite Matches_cat. split.
    + intros (s1 & s2 & -> & H1 & H2).
      apply Matches_class in H1 as (c' & -> & Hc).
      apply Ascii.eqb_eq in Hc as ->. apply IH in H2 as ->. done.
    + intros ->. exists (String c ""), t. split; [done|]. split.
      * apply Matches_class. exists c. split; [done|]. apply Ascii.eqb_refl.
      * by apply IH.
Qed.

Lemma all_chars_nil p : all_chars p "".
Proof. reflexivity. Qed.

Lemma all_chars_cons p c s :
  all_chars p (String c s) ↔ p c = true ∧ all_chars p s.
Proof. unfold all_chars. simpl. apply andb_true_iff. Qed.

Lemma all_chars_app p s t :
  all_chars p (s +:+ t) ↔ all_chars p s ∧ all_chars p t.
Proof.
  unfold all_chars.
  rewrite list_ascii_of_string_app, forallb_app. apply andb_true_iff.
Qed.

Lemma Matches_star_class p s :
  Matches (Star (Class p)) s ↔ all_chars p s.
Proof.
  split.
  - intros H. remember (Star (Class p)) as r eqn:Hr.
    induction H as [| | | | | |r' c s1 s2 H1 _ H2 IH2]; try done.
    injection Hr as ->.
    apply Matches_class in H1 as (c' & [= <- ->] & Hc).
    change (String c "" +:+ s2) with (String c s2). apply all_chars_cons. auto.
  - induction s as [|c s IH]; [constructor|].
    intros [Hc Hs]%all_chars_cons.
    change (String c s) with (String c "" +:+ s).
    constructor; [by constructor|by apply IH].
Qed.

Lemma Matches_rep2_class p s :
  Matches (rep 2 (Class p)) s ↔ String.length s = 2 ∧ all_chars p s.
Proof.
  simpl. rewrite Matches_cat. split.
  - intros (s1 & s2 & -> & H1 & H2).
    apply Matches_class in H1 as (c1 & -> & Hc1).
    apply Matches_cat in H2 as (s3 & s4 & -> & H3 & H4).
    apply Matches_class in H3 as (c2 & -> & Hc2).
    apply Matches_eps in H4 as ->. split; [done|].
    apply all_chars_cons. split; [done|]. apply all_chars_cons. by split.
  - intros [Hlen Hall].
    destruct s as [|c1 [|c2 [|c3 s]]]; try done.
    apply all_chars_cons in Hall as [Hc1 Hall].
    apply all_chars_cons in Hall as [Hc2 _].
    exists (String c1 ""), (String c2 ""). split; [done|]. split.
    + apply Matches_class. by exists c1.
    + apply Matches_cat. exists (String c2 ""), "". split; [done|]. split.
      * apply Matches_class. by exists c2.
      * by apply Matches_eps.
Qed.

Lemma Matches_plus_class p s :
  Matches (plus (Class p)) s ↔ s ≠ "" ∧ all_chars p s.
Proof.
  unfold plus. rewrite Matches_cat. split.
  - intros (s1 & s2 & -> & H1 & H2).
    apply Matches_class in H1 as (c & -> & Hc).
    apply Matches_star_class in H2. split; [done|].
    apply all_chars_cons. by split.
  - intros [Hne Hall]. destruct s as [|c s]; [done|].
    apply all_chars_cons in Hall as [Hc Hall].
    exists (String c ""), s. split; [done|]. split.
    + apply Matches_class. by exists c.
    + by apply Matches_star_class.
Qed.

Lemma Matches_one_or_two p s :
  Matches (Cat (Class p) (opt (Class p))) s ↔
  (String.length s = 1 ∨ String.length s = 2) ∧ all_chars p s.
Proof.
  rewrite Matches_cat. split.
  - intros (s1 & s2 & -> & H1 & H2).
    apply Matches_class in H1 as (c & -> & Hc).
    apply Matches_opt in H2 as [H2| ->].
    + apply Matches_class in H2 as (c' & -> & Hc'). split; [by right|].
      apply all_chars_cons. split; [done|]. apply all_chars_cons. by split.
    + split; [by left|]. apply all_chars_cons. by split.
  - intros [Hlen Hall].
    destruct s as [|c1 [|c2 [|c3 s]]]; try (by destruct Hlen).
    + apply all_chars_cons in Hall as [Hc1 _].
      exists (String c1 ""), "". split; [done|]. split.
      * apply Matches_class. by exists c1.
      * apply Matches_opt. by right.
    + apply all_chars_cons in Hall as [Hc1 Hall].
      apply all_chars_cons in Hall as [Hc2 _].
      exists (String c1 ""), (String c2 ""). split; [done|]. split.
      * apply Matches_class. by exists c1.
      * apply Matches_opt. left. apply Matches_class. by exists c2.
Qed.

Lemma Matches_region s : Matches region_regex s ↔ region_name s.
Proof.
  unfold region_regex, region_name. rewrite Matches_cat. split.
  - intros (a & s1 & -> & Ha & H1).
    apply Matches_rep2_class in Ha as [Hlen Ha].
    apply Matches_cat in H1 as (d1 & s2 & -> & Hd1 & H2).
    apply Matches_lit in Hd1 as ->.
    apply Matches_cat in H2 as (b & s3 & -> & Hb & H3).
    apply Matches_plus_class in Hb as [Hne Hb].
    apply Matches_cat in H3 as (d2 & d & -> & Hd2 & Hd).
    apply Matches_lit in Hd2 as ->.
    apply Matches_one_or_two in Hd as [Hdl Hd].
    by exists a, b, d.
  - intros (a & b & d & -> & Hlen & Ha & Hne & Hb & Hdl & Hd).
    exists a, ("-" +:+ b +:+ "-" +:+ d). split; [done|]. split.
    { by apply Matches_rep2_class. }
    apply Matches_cat. exists "-", (b +:+ "-" +:+ d). split; [done|]. split.
    { by apply Matches_lit. }
    apply Matches_cat. exists b, ("-" +:+ d). split; [done|]. split.
    { by apply Matches_plus_class. }
    apply Matches_cat. exists "-", d. split; [done|]. split.
    { by apply Matches_lit. }
    by apply Matches_one_or_two.
Qed.

(** The pattern of the code and the wording of the specification agree. *)
Lemma Matches_console_url url : Matches consoleUrlRegex url ↔ console_url url.
Proof.
  unfold consoleUrlRegex, console_url. rewrite Matches_cat. split.
  - intros (s0 & s1 & -> & H0 & H1).
    apply Matches_lit in H0 as ->.
    apply Matches_cat in H1 as (host & s2 & -> & Hhost & H2).
    apply Matches_cat in H2 as (s3 & path & -> & H3 & Hpath).
    apply Matches_lit in H3 as ->.
    exists host, path. split; [done|]. split.
    + apply Matches_alt in Hhost as [Hh|Hh].
      * left. apply Matches_cat in Hh as (sub & s4 & -> & Hsub & H4).
        apply Matches_lit in H4 as ->. exists sub. split; [done|].
        apply Matches_alt in Hsub as [Hr|Hs]; [left; by apply Matches_region|].
        apply Matches_alt in Hs as [Hs|Hs];
          [right; left; by apply Matches_lit in Hs|].
        apply Matches_alt in Hs as [Hs|Hs];
          [right; right; left; by apply Matches_lit in Hs|].
        right; right; right. by apply Matches_lit in Hs.
      * right. by apply Matches_lit in Hh.
    + apply Matches_opt in Hpath as [Hp| ->]; [|apply all_chars_nil].
      by apply Matches_star_class.
  - intros (host & path & -> & Hhost & Hpath).
    exists "https://", (host +:+ ".com/" +:+ path). split; [done|]. split.
    { by apply Matches_lit. }
    apply Matches_cat. exists host, (".com/" +:+ path). split; [done|]. split.
    + apply Matches_alt. destruct Hhost as [(sub & -> & Hsub)| ->].
      * left. apply Matches_cat. exists sub, ".console.aws.amazon".
        split; [done|]. split; [|by apply Matches_lit].
        apply Matches_alt. destruct Hsub as [Hr|[->|[->| ->]]].
        -- left. by apply Matches_region.
        -- right. apply Matches_alt. left. by apply Matches_lit.
        -- right. apply Matches_alt. right. apply Matches_alt. left.
           by apply Matches_lit.
        -- right. apply Matches_alt. right. apply Matches_alt. right.
           by apply Matches_lit.
      * right. by apply Matches_lit.
    + apply Matches_cat. exists ".com/", path. split; [done|]. split.
      { by apply Matches_lit. }
      apply Matches_opt. left. by apply Matches_star_class.
Qed.

(** C4.  For a profile whose [profile.name] is not ["Default"], with an
    active tab in the current window, [createProfileUrl] returns the
    console federation link
    [https://{managedActiveDirectoryId}.awsapps.com/start/#/console?account_id={accountId}&role_name={roleName}],
    followed by [&destination=] and the percent-encoded URL of the tab
    exactly when that URL matches the console pattern: the code tests
    [consoleUrlRegex], and the destination is there if and only if the
    URL is a [console_url], the pattern as the specification words it. *)
Theorem createProfileUrl_console (user ap prof : gmap string value)
    (w : world) (currentTab : tab) (others : list tab) :
  ap !! "profile" = Some (Obj prof) →
  prof !! "name" ≠ Some (Str "Default") →
  filter (λ t, tab_active_current t = true) (tabs w) = currentTab :: others →
  ∃ accountId,
    get_opt (ap !! "searchMetadata") "AccountId" = Ok accountId ∧
    let consoleUrl :=
      "https://" +:+ to_string (user !! "managedActiveDirectoryId")
      +:+ ".awsapps.com/start/#/console?account_id=" +:+ to_string accountId
      +:+ "&role_name=" +:+ to_string (prof !! "name") in
    let destination url := "&destination=" +:+ encodeURIComponent url in
    createProfileUrl (Some (Obj user)) (Some (Obj ap)) w
    = (Ok (match tab_url currentTab with
           | Some url =>
               if matches consoleUrlRegex url
               then consoleUrl +:+ destination url
               else consoleUrl
           | None => consoleUrl
           end), w)
    ∧ (∀ url, tab_url currentTab = Some url →
         (fst (createProfileUrl (Some (Obj user)) (Some (Obj ap)) w)
          = Ok (consoleUrl +:+ destination url)
          ↔ console_url url)).
Proof.
  intros Hprof Hname Htabs.
  assert (Hacc : ∃ accountId,
            get_opt (ap !! "searchMetadata") "AccountId" = Ok accountId).
  { destruct (ap !! "searchMetadata") as [[| | | | |]|]; by eexists. }
  destruct Hacc as [accountId Hacc]. exists accountId. split; [done|].
  intros consoleUrl destination.
  assert (Hrun : createProfileUrl (Some (Obj user)) (Some (Obj ap)) w
    = (Ok (match tab_url currentTab with
           | Some url =>
               if matches consoleUrlRegex url
               then consoleUrl +:+ destination url
               else consoleUrl
           | None => consoleUrl
           end), w)).
  { unfold createProfileUrl. js_run.
    rewrite (is_str_false _ _ Hname). cbv iota. js_run.
    subst consoleUrl destination. cbv beta.
    destruct (tab_url currentTab) as [url|]; [|done].
    by destruct (matches consoleUrlRegex url). }
  split; [done|]. intros url Hurl. rewrite Hrun, Hurl. simpl fst.
  rewrite <- Matches_console_url, <- matches_spec.
  destruct (matches consoleUrlRegex url); split; try done.
  intros [= H]. by apply append_fixpoint in H.
Qed.

Lemma createProfileUrl_console_witness :
  fst (createProfileUrl (Some (Obj Sample.user))
         (Some (Obj (Sample.account_profile "p-default" "Admin")))
         Sample.console_world)
  = Ok "https://d-1234567890.awsapps.com/start/#/console?account_id=111111111111&role_name=Admin&destination=https%3A%2F%2Fus-east-1.console.aws.amazon.com%2Fec2%2Fhome%3Fregion%3Dus-east-1%23Instances%3A".
Proof.
  destruct (createProfileUrl_console Sample.user
              (Sample.account_profile "p-default" "Admin")
              (list_to_map [("id", Str "p-default"); ("name", Str "Admin")])
              Sample.console_world Sample.console_tab [])
    as (accountId & Hacc & Hrun & _).
  - reflexivity.
  - vm_compute. discriminate.
  - reflexivity.
  - vm_compute in Hacc. injection Hacc as <-.
    rewrite Hrun. reflexivity.
Defined.

(** ** Loading with defaults *)

Lemma bind_storage_get {B} a k (f : option value → M B) w :
  (storage_get a k ≫= f) w = f (area_of a w !! k) w.
Proof. reflexivity. Qed.

#[global] Hint Rewrite @bind_storage_get : js.

(** The two default records never own [__proto__]. *)
Lemma defaultCustom_no_proto w : defaultCustom w !! "__proto__" = None.
Proof. apply lookup_delete_eq. Qed.

Lemma defaultSettings_no_proto w : defaultSettings w !! "__proto__" = None.
Proof. apply lookup_delete_eq. Qed.

(** On an object the loop of [backfill] is a union that prefers the
    loaded record. *)
Lemma backfill_obj (defaults m : gmap string value) :
  defaults !! "__proto__" = None →
  backfill defaults (Obj m) = Ok (Obj (m ∪ defaults)).
Proof.
  unfold backfill.
  apply (map_fold_weak_ind
           (λ r d, d !! "__proto__" = None → r = Ok (Obj (m ∪ d)))).
  - intros _. by rewrite (right_id_L ∅ (∪)).
  - intros k d defaults' r Hk IH Hproto.
    assert (Hne : k ≠ "__proto__").
    { intros ->. by rewrite lookup_insert_eq in Hproto. }
    rewrite lookup_insert_ne in Hproto by done. rewrite (IH Hproto).
    unfold backfill_key.
    rewrite res_bind_ok, has_own_obj, res_bind_ok.
    destruct (m !! k) as [v|] eqn:Hm.
    + rewrite is_Some_true by (rewrite lookup_union_l'; eauto).
      do 2 f_equal. apply map_eq. intros j.
      rewrite !lookup_union. destruct (decide (j = k)) as [->|Hjk].
      * by rewrite Hm, lookup_insert_eq, Hk.
      * by rewrite lookup_insert_ne.
    + rewrite is_Some_false by (by rewrite lookup_union_r).
      rewrite set_prop_obj by (by apply String.eqb_neq).
      unfold put. by rewrite insert_union_r.
Qed.

Lemma lookup_backfilled (defaults m : gmap string value) k :
  (m ∪ defaults) !! k
  = match m !! k with Some v => Some v | None => defaults !! k end.
Proof.
  rewrite lookup_union. by destruct (m !! k), (defaults !! k).
Qed.

Lemma backfill_self (defaults : gmap string value) :
  defaults !! "__proto__" = None →
  backfill defaults (Obj defaults) = Ok (Obj defaults).
Proof. intros H. by rewrite backfill_obj, (idemp_L (∪)). Qed.

Lemma loadSettings_ref_run w (cell : option value) (stored : gmap string value) :
  sync w !! (config_name w +:+ "-settings") = cell →
  default (Obj (defaultSettings w)) cell = Obj stored →
  loadSettings_ref w
  = (Ok (Obj (stored ∪ defaultSettings w), bool_decide (cell = None)), w).
Proof.
  intros Hcell Hdoc. unfold loadSettings_ref. js_run. simpl area_of.
  rewrite Hcell, Hdoc, backfill_obj by apply defaultSettings_no_proto.
  by js_run.
Qed.

Lemma loadSettings_run w (cell : option value) (stored : gmap string value) :
  sync w !! (config_name w +:+ "-settings") = cell →
  default (Obj (defaultSettings w)) cell = Obj stored →
  loadSettings w = (Ok (Obj (stored ∪ defaultSettings w)), w).
Proof.
  intros Hcell Hdoc. unfold loadSettings.
  by rewrite (bind_run _ _ _ _ _ (loadSettings_ref_run w cell stored Hcell Hdoc)).
Qed.

Lemma loadUser_run w userId enableSync (userCell customCell : option value)
    (user stored : gmap string value) :
  area_of (storage_of enableSync) w
    !! (config_name w +:+ "-user-" +:+ userId) = userCell →
  area_of (storage_of enableSync) w
    !! (config_name w +:+ "-custom-" +:+ userId) = customCell →
  default (Obj ∅) userCell = Obj user →
  default (Obj (defaultCustom w)) customCell = Obj stored →
  loadUser userId enableSync w
  = (Ok (Obj (<["custom" := Obj (stored ∪ defaultCustom w)]> user)), w).
Proof.
  intros Hu Hc Hud Hcd. unfold loadUser. js_run.
  rewrite backfill_obj by apply defaultCustom_no_proto. by js_run.
Qed.

(** C5.  On an instance whose default records are the hard-coded ones (as
    the constructor leaves them): loading the settings, or the
    customization of a user, from a store without the record yields the
    hard-coded defaults exactly; loading a stored record yields the
    stored value under every key it has and the default under every
    other key. *)
Theorem load_backfills_defaults (w : world) :
  defaultSettings w = defaultSettings_init →
  defaultCustom w = defaultCustom_init →
  (sync w !! (config_name w +:+ "-settings") = None →
   loadSettings w = (Ok (Obj defaultSettings_init), w))
  ∧ (∀ stored,
       sync w !! (config_name w +:+ "-settings") = Some (Obj stored) →
       ∃ loaded,
         loadSettings w = (Ok (Obj loaded), w) ∧
         ∀ k, loaded !! k = match stored !! k with
                            | Some v => Some v
                            | None => defaultSettings_init !! k
                            end)
  ∧ (∀ userId enableSync user,
       default (Obj ∅)
         (area_of (storage_of enableSync) w
            !! (config_name w +:+ "-user-" +:+ userId)) = Obj user →
       (area_of (storage_of enableSync) w
          !! (config_name w +:+ "-custom-" +:+ userId) = None →
        ∃ loaded,
          loadUser userId enableSync w = (Ok (Obj loaded), w) ∧
          loaded !! "custom" = Some (Obj defaultCustom_init))
       ∧ (∀ stored,
            area_of (storage_of enableSync) w
              !! (config_name w +:+ "-custom-" +:+ userId)
            = Some (Obj stored) →
            ∃ loaded custom,
              loadUser userId enableSync w = (Ok (Obj loaded), w) ∧
              loaded !! "custom" = Some (Obj custom) ∧
              ∀ k, custom !! k = match stored !! k with
                                 | Some v => Some v
                                 | None => defaultCustom_init !! k
                                 end)).
Proof.
  intros Hds Hdc. split; [|split].
  - intros Hcell.
    rewrite (loadSettings_run w None (defaultSettings w)) by done.
    by rewrite (idemp_L (∪)), Hds.
  - intros stored Hcell. eexists. split.
    + by apply (loadSettings_run w (Some (Obj stored)) stored).
    + intros k. by rewrite lookup_backfilled, Hds.
  - intros userId enableSync user Huser. split.
    + intros Hcell. eexists. split.
      * by apply (loadUser_run w userId enableSync
                    (area_of (storage_of enableSync) w
                       !! (config_name w +:+ "-user-" +:+ userId))
                    None user (defaultCustom w)).
      * by rewrite lookup_insert_eq, (idemp_L (∪)), Hdc.
    + intros stored Hcell. eexists _, _. split; [|split].
      * by apply (loadUser_run w userId enableSync
                    (area_of (storage_of enableSync) w
                       !! (config_name w +:+ "-user-" +:+ userId))
                    (Some (Obj stored)) user stored).
      * by rewrite lookup_insert_eq.
      * intros k. by rewrite lookup_backfilled, Hdc.
Qed.

Lemma load_backfills_defaults_witness :
  ∃ loaded,
    loadSettings Sample.old_world = (Ok (Obj loaded), Sample.old_world) ∧
    loaded !! "iconColor" = Some (Str "blue") ∧
    loaded !! "showAllProfiles" = Some (Bool false).
Proof.
  destruct (proj1 (proj2 (load_backfills_defaults Sample.old_world
                            eq_refl eq_refl))
              (list_to_map [
                 ("enableSync", Bool true); ("lastUserId", Str "alice");
                 ("iconColor", Str "blue")]) eq_refl)
    as (loaded & Hrun & Hkeys).
  exists loaded. split; [exact Hrun|].
  rewrite (Hkeys "iconColor"), (Hkeys "showAllProfiles").
  split; reflexivity.
Defined.

(** ** Writing and reading back *)

Lemma area_of_write a k v w : area_of a (write a k v w) = <[k := v]> (area_of a w).
Proof. by destruct a. Qed.

Lemma area_of_write_ne a b k v w : a ≠ b → area_of a (write b k v w) = area_of a w.
Proof. by destruct a, b. Qed.

Lemma area_of_tick a w : area_of a (tick w) = area_of a w.
Proof. by destruct a. Qed.

Lemma area_of_erase a ks w : area_of a (erase a ks w) = foldr delete (area_of a w) ks.
Proof. by destruct a. Qed.

Lemma config_name_write a k v w : config_name (write a k v w) = config_name w.
Proof. by destruct a. Qed.

Lemma config_name_erase a ks w : config_name (erase a ks w) = config_name w.
Proof. by destruct a. Qed.

Lemma config_name_tick w : config_name (tick w) = config_name w.
Proof. reflexivity. Qed.

Lemma defaultCustom_write a k v w : defaultCustom (write a k v w) = defaultCustom w.
Proof. by destruct a. Qed.

Lemma defaultCustom_tick w : defaultCustom (tick w) = defaultCustom w.
Proof. reflexivity. Qed.

Lemma defaultSettings_write a k v w :
  defaultSettings (write a k v w) = defaultSettings w.
Proof. by destruct a. Qed.

Lemma defaultSettings_erase a ks w :
  defaultSettings (erase a ks w) = defaultSettings w.
Proof. by destruct a. Qed.

Lemma defaultSettings_tick w : defaultSettings (tick w) = defaultSettings w.
Proof. reflexivity. Qed.

Lemma now_write a k v w : now (write a k v w) = now w.
Proof. by destruct a. Qed.

Lemma now_erase a ks w : now (erase a ks w) = now w.
Proof. by destruct a. Qed.

Create Rewrite HintDb world.
#[global] Hint Rewrite area_of_write area_of_tick area_of_erase
  config_name_write config_name_erase config_name_tick
  defaultCustom_write defaultCustom_tick
  defaultSettings_write defaultSettings_erase defaultSettings_tick
  now_write now_erase : world.

(** The storage keys of the class have a dash; [__proto__] has none. *)
Lemma dash_key (a b : string) :
  String.eqb (a +:+ String "-" b) "__proto__" = false.
Proof.
  apply String.eqb_neq. intros H.
  assert (Hin : In "-"%char (list_ascii_of_string (a +:+ String "-" b))).
  { rewrite list_ascii_of_string_app. apply in_or_app. right. by left. }
  rewrite H in Hin. simpl in Hin.
  repeat (destruct Hin as [Hin|Hin]; [discriminate Hin|]). destruct Hin.
Qed.

Lemma dash_key2 (a b c : string) :
  String.eqb (a +:+ String "-" b +:+ c) "__proto__" = false.
Proof. apply (dash_key a (b +:+ c)). Qed.

(** [saveData] on an object: the document is the object with its stamp. *)
Lemma saveData_obj k (m : gmap string value) db w :
  String.eqb k "__proto__" = false →
  saveData k (Some (Obj m)) db w
  = (Ok tt, write db k (Obj (<["updatedAt" := Num (now w)]> m)) (tick w)).
Proof. intros H. unfold saveData. simpl. by rewrite H. Qed.

(** Under the key [__proto__] the clock is read and nothing is stored. *)
Lemma saveData_proto (m : gmap string value) db w :
  saveData "__proto__" (Some (Obj m)) db w = (Ok tt, tick w).
Proof. reflexivity. Qed.

Lemma fire_ok (m : M unit) w w' : m w = (Ok tt, w') → fire m w = (Ok tt, w').
Proof. intros H. unfold fire, try_catch. by rewrite H. Qed.

Lemma saveCustom_obj (c : gmap string value) userId enableSync w :
  saveCustom (Some (Obj c)) userId enableSync w
  = (Ok tt, write (storage_of enableSync)
              (config_name w +:+ "-custom-" +:+ userId)
              (Obj (<["updatedAt" := Num (now w)]> c)) (tick w)).
Proof.
  unfold saveCustom. js_run.
  by rewrite (fire_ok _ _ _ (saveData_obj _ _ _ _ (dash_key2 _ _ _))).
Qed.

Lemma append_inj_l (s a b : string) : s +:+ a = s +:+ b → a = b.
Proof.
  induction s as [|c s IH]; [done|]. rewrite !append_cons. intros [= H]. auto.
Qed.

Lemma user_key_ne_custom_key name userId userId' :
  name +:+ "-user-" +:+ userId ≠ name +:+ "-custom-" +:+ userId'.
Proof. intros H. apply append_inj_l in H. discriminate. Qed.

(** C7.  Saving a user whose [userId] is a string and whose [custom] is an
    object, then loading it by that id from the same area, returns the
    input except for two fields: [custom] is rebuilt from the
    customization record that was stored apart (the input's [custom] with
    its stamp, defaults filled in), while the persisted user record has
    [custom] cleared to the empty object; and [updatedAt] is the reading
    of the clock at the save. *)
Theorem saveUser_loadUser_roundtrip (w : world)
    (user custom : gmap string value) (userId : string)
    (enableSync : option value) :
  user !! "userId" = Some (Str userId) →
  user !! "custom" = Some (Obj custom) →
  let storage := storage_of enableSync in
  let t0 := clock w (ticks w) in
  let t := clock w (S (ticks w)) in
  let storedCustom := <["updatedAt" := Num t0]> custom in
  ∃ w' loaded,
    saveUser (Some (Obj user)) enableSync w = (Ok tt, w') ∧
    area_of storage w' !! (config_name w +:+ "-user-" +:+ userId)
      = Some (Obj (<["updatedAt" := Num t]> (<["custom" := Obj ∅]> user))) ∧
    area_of storage w' !! (config_name w +:+ "-custom-" +:+ userId)
      = Some (Obj storedCustom) ∧
    loadUser userId enableSync w' = (Ok (Obj loaded), w') ∧
    loaded !! "custom" = Some (Obj (storedCustom ∪ defaultCustom w)) ∧
    loaded !! "updatedAt" = Some (Num t) ∧
    (∀ k, k ≠ "custom" → k ≠ "updatedAt" → loaded !! k = user !! k).
Proof.
  intros Hid Hcustom storage t0 t storedCustom.
  set (ukey := config_name w +:+ "-user-" +:+ userId).
  set (ckey := config_name w +:+ "-custom-" +:+ userId).
  set (w1 := write storage ckey (Obj storedCustom) (tick w)).
  set (doc := <["updatedAt" := Num t]> (<["custom" := Obj ∅]> user)).
  set (w2 := write storage ukey (Obj doc) (tick w1)).
  assert (Hsave : saveUser (Some (Obj user)) enableSync w = (Ok tt, w2)).
  { unfold saveUser. js_run. rewrite is_Some_true by eauto. js_run.
    change (to_string (Some (Str userId))) with userId.
    erewrite bind_run by apply saveCustom_obj. js_run.
    rewrite saveData_obj by apply dash_key. autorewrite with world. reflexivity. }
  assert (Hu : area_of storage w2 !! ukey = Some (Obj doc)).
  { subst w2. by rewrite area_of_write, lookup_insert_eq. }
  assert (Hc : area_of storage w2 !! ckey = Some (Obj storedCustom)).
  { subst w2 w1. rewrite area_of_write, lookup_insert_ne
      by apply user_key_ne_custom_key.
    by rewrite area_of_tick, area_of_write, lookup_insert_eq. }
  assert (Hname : config_name w2 = config_name w).
  { subst w2 w1. by autorewrite with world. }
  assert (Hdc : defaultCustom w2 = defaultCustom w).
  { subst w2 w1. by autorewrite with world. }
  eexists w2, _. split; [done|]. split; [done|]. split; [done|].
  split; [|split; [|split]].
  - apply (loadUser_run w2 userId enableSync (Some (Obj doc))
             (Some (Obj storedCustom)) doc storedCustom);
      rewrite ?Hname; done.
  - by rewrite lookup_insert_eq, Hdc.
  - rewrite lookup_insert_ne by done. subst doc. by rewrite lookup_insert_eq.
  - intros k Hk1 Hk2. subst doc. by rewrite !lookup_insert_ne.
Qed.

Lemma saveUser_loadUser_roundtrip_witness :
  ∃ w' loaded,
    saveUser (Some (Obj Sample.user)) (Some (Bool true)) Sample.console_world
      = (Ok tt, w') ∧
    loadUser "alice" (Some (Bool true)) w' = (Ok (Obj loaded), w') ∧
    loaded !! "updatedAt" = Some (Num 1700000000001) ∧
    loaded !! "managedActiveDirectoryId" = Some (Str "d-1234567890").
Proof.
  destruct (saveUser_loadUser_roundtrip Sample.console_world Sample.user
              Sample.custom "alice" (Some (Bool true)) eq_refl eq_refl)
    as (w' & loaded & Hsave & _ & _ & Hload & _ & Hstamp & Hrest).
  exists w', loaded. split; [exact Hsave|]. split; [exact Hload|].
  split; [exact Hstamp|].
  rewrite (Hrest "managedActiveDirectoryId"); [reflexivity|discriminate..].
Defined.

(** ** Removing a user *)

Lemma bind_storage_remove {B} a ks (f : unit → M B) w :
  (storage_remove a ks ≫= f) w = f tt (erase a ks w).
Proof. reflexivity. Qed.

Lemma mapM_as_key_strs (l : list string) : mapM as_key (map Str l) = Some l.
Proof.
  induction l as [|s l IH]; [done|]. simpl. rewrite IH. reflexivity.
Qed.

Lemma lookup_foldr_delete (m : gmap string value) ks k :
  foldr delete m ks !! k = if bool_decide (k ∈ ks) then None else m !! k.
Proof.
  induction ks as [|a ks IH]; simpl.
  - done.
  - destruct (decide (a = k)) as [->|Hne].
    + rewrite lookup_delete_eq. rewrite bool_decide_eq_true_2; [done|]. by left.
    + rewrite lookup_delete_ne by done. rewrite IH.
      destruct (decide (k ∈ ks)).
      * rewrite !bool_decide_eq_true_2; [done|by right|done].
      * rewrite !bool_decide_eq_false_2; [done| |done].
        intros [?|?]%elem_of_cons; congruence.
Qed.

Lemma delete_logins_run (m : gmap string value) (pids : list string) :
  foldl (λ acc profileId,
           logins ← acc;
           delete_prop (Some logins) (to_string (Some profileId)))
        (Ok (Obj m)) (map Str pids)
  = Ok (Obj (foldl (λ acc p, delete p acc) m pids)).
Proof.
  revert m. induction pids as [|p pids IH]; intros m; [done|].
  simpl. apply IH.
Qed.

Lemma lookup_foldl_delete (m : gmap string value) ks k :
  foldl (λ acc p, delete p acc) m ks !! k
  = if bool_decide (k ∈ ks) then None else m !! k.
Proof.
  revert m. induction ks as [|a ks IH]; intros m; simpl.
  - done.
  - rewrite IH. destruct (decide (k ∈ ks)).
    + rewrite !bool_decide_eq_true_2; [done|by right|done].
    + rewrite (bool_decide_eq_false_2 (k ∈ ks)) by done.
      destruct (decide (a = k)) as [->|Hne].
      * rewrite lookup_delete_eq, bool_decide_eq_true_2; [done|by left].
      * rewrite lookup_delete_ne by done.
        rewrite bool_decide_eq_false_2; [done|].
        intros [?|?]%elem_of_cons; congruence.
Qed.

Lemma strict_ne_str x s :
  strict_ne x (Some (Str s)) = Ok (negb (is_str s x)).
Proof. unfold strict_ne. by rewrite strict_eq_str. Qed.

Lemma filter_res_cons {A} (f : A → res bool) x l :
  filter_res f (x :: l)
  = (b ← f x; ys ← filter_res f l; Ok (if b : bool then x :: ys else ys)).
Proof. reflexivity. Qed.

Lemma filter_users_run (userId : string) (uids : list string) :
  filter_res (λ id, strict_ne (Some id) (Some (Str userId))) (map Str uids)
  = Ok (map Str (filter (λ u, u ≠ userId) uids)).
Proof.
  induction uids as [|u uids IH]; [done|].
  rewrite map_cons, filter_res_cons, strict_ne_str, res_bind_ok, IH, res_bind_ok.
  destruct (decide (u = userId)) as [->|Hne].
  - rewrite (proj2 (is_str_true userId (Some (Str userId)))) by done.
    simpl. rewrite filter_cons_False; [done|]. by intros ?.
  - rewrite is_str_false by (by intros [= ?]).
    simpl. by rewrite filter_cons_True.
Qed.

Ltac key_ne :=
  let H := fresh in
  intros H; apply append_inj_l in H; discriminate.

Lemma erase_nil a w : erase a [] w = w.
Proof. by destruct a, w. Qed.

Lemma loadIamLogins_run w :
  loadIamLogins w
  = (Ok (default (Obj ∅) (local w !! (config_name w +:+ "-iam-logins"))), w).
Proof. reflexivity. Qed.

(** Lines 382-384 on a list of string ids. *)
Lemma remove_profiles_run (pids : list string) w :
  (len ← lift (get (Some (Arr (map Str pids))) "length");
   nonempty ← lift (gt len (Some (Num 0)));
   if nonempty : bool
   then storage_remove_keys LocalArea (Some (Arr (map Str pids)))
   else mret tt) w
  = (Ok tt, erase LocalArea pids w).
Proof.
  destruct pids as [|p pids].
  - by rewrite erase_nil.
  - change (get (Some (Arr (map Str (p :: pids)))) "length")
      with (Ok (Some (Num (Z.of_nat (length (map Str (p :: pids))))))
            : res (option value)).
    rewrite bind_lift_ok. unfold gt, to_number.
    assert (Hpos : (0 <? Z.of_nat (length (map Str (p :: pids))))%Z = true)
      by (apply Z.ltb_lt; simpl; lia).
    rewrite Hpos, bind_lift_ok.
    unfold storage_remove_keys. by rewrite mapM_as_key_strs.
Qed.

Lemma next_user (remaining : list string) :
  (if truthy (head (map Str remaining)) then head (map Str remaining)
   else Some (Str ""))
  = Some (Str (default "" (head remaining))).
Proof.
  destruct remaining as [|r remaining]; [done|]. simpl.
  unfold truthy. destruct (String.eqb_spec r "") as [->|]; done.
Qed.


(** C6.  Removing a stored user whose [appProfileIds] are strings (none
    of them the key of the login registry itself): the user and
    customization records and every profile record of the user are gone
    from storage; the login registry written back is the old one without
    the user's profile ids, under its write stamp; the id list written
    back is the old one without the user id; and when the loaded
    [defaultUser] or [lastUserId] was the user id, the settings written
    back have [lastUserId] set to the first remaining id, or to the empty
    string when none remains, and [defaultUser] set to ["lastUserId"]
    when it was the user id. *)
Theorem removeUser_cleans_up (w : world) (userId : string)
    (enableSync : option value)
    (user custom logins usersDoc stored : gmap string value)
    (pids uids : list string) :
  let storage := storage_of enableSync in
  let name := config_name w in
  area_of storage w !! (name +:+ "-user-" +:+ userId) = Some (Obj user) →
  user !! "appProfileIds" = Some (Arr (map Str pids)) →
  default (Obj (defaultCustom w))
    (area_of storage w !! (name +:+ "-custom-" +:+ userId)) = Obj custom →
  name +:+ "-iam-logins" ∉ pids →
  default (Obj ∅) (local w !! (name +:+ "-iam-logins")) = Obj logins →
  sync w !! (name +:+ "-users") = Some (Obj usersDoc) →
  usersDoc !! "users" = Some (Arr (map Str uids)) →
  default (Obj (defaultSettings w)) (sync w !! (name +:+ "-settings"))
    = Obj stored →
  let settings := stored ∪ defaultSettings w in
  let wasDefault := is_str userId (settings !! "defaultUser") in
  let wasLast := is_str userId (settings !! "lastUserId") in
  let remaining := filter (λ u, u ≠ userId) uids in
  let logins' := foldl (λ acc p, delete p acc) logins pids in
  ∃ w' t1 t2,
    removeUser userId enableSync w = (Ok tt, w') ∧
    config_name w' = name ∧
    area_of storage w' !! (name +:+ "-user-" +:+ userId) = None ∧
    area_of storage w' !! (name +:+ "-custom-" +:+ userId) = None ∧
    (∀ p, p ∈ pids → local w' !! p = None) ∧
    local w' !! (name +:+ "-iam-logins")
      = Some (Obj (<["updatedAt" := Num t1]> logins')) ∧
    (∀ p, p ∈ pids → logins' !! p = None) ∧
    sync w' !! (name +:+ "-users")
      = Some (Obj (<["updatedAt" := Num t2]>
                     {[ "users" := Arr (map Str remaining) ]})) ∧
    (userId ∉ remaining) ∧
    ((wasDefault || wasLast) = true →
     ∃ settings',
       loadSettings w' = (Ok (Obj settings'), w') ∧
       settings' !! "lastUserId" = Some (Str (default "" (head remaining))) ∧
       settings' !! "defaultUser"
         = if wasDefault then Some (Str "lastUserId")
           else settings !! "defaultUser").
Proof.
  intros storage name Huser Hids Hcustom Hiam Hlogins Husers Huids Hsettings
    settings wasDefault wasLast remaining logins'.
  assert (Hrun : ∃ w4 t1 t2,
    let cond := wasDefault || wasLast in
    let next := Str (default "" (head remaining)) in
    let s1 := <["lastUserId" := next]> settings in
    let s2 := if wasDefault then <["defaultUser" := Str "lastUserId"]> s1
              else s1 in
    let w5 := if bool_decide (sync w !! (name +:+ "-settings") = None)
              then with_defaultSettings s2 w4 else w4 in
    removeUser userId enableSync w
    = (Ok tt, if cond
              then write SyncArea (name +:+ "-settings")
                     (Obj (<["updatedAt" := Num (now w5)]> s2)) (tick w5)
              else w4) ∧
    config_name w4 = name ∧
    defaultSettings w4 = defaultSettings w ∧
    area_of storage w4 !! (name +:+ "-user-" +:+ userId) = None ∧
    area_of storage w4 !! (name +:+ "-custom-" +:+ userId) = None ∧
    (∀ p, p ∈ pids → local w4 !! p = None) ∧
    local w4 !! (name +:+ "-iam-logins")
      = Some (Obj (<["updatedAt" := Num t1]> logins')) ∧
    sync w4 !! (name +:+ "-users")
      = Some (Obj (<["updatedAt" := Num t2]>
                     {[ "users" := Arr (map Str remaining) ]}))).
  { 
    unfold removeUser.
    erewrite bind_run; cycle 1.
    { eapply (loadUser_run w userId enableSync _ _ user custom); try done. }
    js_run. rewrite bind_storage_remove.
    rewrite lookup_insert_ne by done. js_run.
    change (truthy (Some (Arr (map Str pids)))) with true. cbv iota.
    erewrite bind_run by apply remove_profiles_run.
    erewrite bind_run by apply loadIamLogins_run.
    fold storage name.
    set (w1 := erase storage _ w).
    set (w2 := erase LocalArea pids w1).
    assert (Hl2 : local w2 !! (config_name w2 +:+ "-iam-logins")
                  = local w !! (name +:+ "-iam-logins")).
    { subst w2 w1. rewrite !config_name_erase.
      change (local (erase LocalArea pids ?x)) with (area_of LocalArea (erase LocalArea pids x)).
      rewrite area_of_erase, lookup_foldr_delete.
      rewrite bool_decide_eq_false_2 by done.
      destruct storage; [done|].
      change (area_of LocalArea (erase LocalArea ?ks w)) with (foldr delete (local w) ks).
      rewrite lookup_foldr_delete. rewrite bool_decide_eq_false_2; [done|].
      intros [E|[E|E]%elem_of_cons]%elem_of_cons.
      - revert E. fold name. key_ne.
      - revert E. fold name. key_ne.
      - by apply elem_of_nil in E. }
    rewrite Hl2, Hlogins. clear Hl2.
    erewrite bind_run; cycle 1.
    { change (as_array (Some (Arr (map Str pids)))) with (Ok (map Str pids)).
      rewrite bind_lift_ok, delete_logins_run, bind_lift_ok.
      apply saveData_obj, dash_key. }
    fold logins'.
    set (w3 := write LocalArea _ _ (tick w2)).
    assert (Hsync3 : sync w3 = foldr delete (sync w)
              (match storage with
               | SyncArea => [name +:+ "-user-" +:+ userId;
                              name +:+ "-custom-" +:+ userId]
               | LocalArea => []
               end)).
    { subst w3 w2 w1. by destruct storage. }
    rewrite bind_storage_get.
    change (area_of SyncArea w3) with (sync w3). rewrite Hsync3.
    rewrite lookup_foldr_delete, bool_decide_eq_false_2; cycle 1.
    { destruct storage; [|by apply not_elem_of_nil].
      intros [E|[E|E]%elem_of_cons]%elem_of_cons.
      - revert E. key_ne.
      - revert E. key_ne.
      - by apply elem_of_nil in E. }
    rewrite Husers. js_run.
    change (as_array (Some (Arr (map Str uids)))) with (Ok (map Str uids)).
    rewrite bind_lift_ok, filter_users_run, bind_lift_ok.
    fold remaining.
    rewrite (bind_run _ _ _ _ _ (saveData_obj _ _ _ _ (dash_key _ _))).
    set (w4 := write SyncArea _ _ (tick w3)).
    assert (Hn3 : config_name w3 = name).
    { subst w3 w2 w1.
      by rewrite config_name_write, config_name_tick, !config_name_erase. }
    assert (Hset4 : sync w4 !! (config_name w4 +:+ "-settings")
                    = sync w !! (name +:+ "-settings")).
    { change (sync w4) with (area_of SyncArea w4). subst w4.
      rewrite config_name_write, config_name_tick, Hn3.
      rewrite area_of_write, area_of_tick, lookup_insert_ne by key_ne.
      change (area_of SyncArea w3) with (sync w3). rewrite Hsync3.
      rewrite lookup_foldr_delete, bool_decide_eq_false_2; [done|].
      destruct storage; [|by apply not_elem_of_nil].
      intros [E|[E|E]%elem_of_cons]%elem_of_cons.
      + revert E. key_ne.
      + revert E. key_ne.
      + by apply elem_of_nil in E. }
    assert (Hds4 : defaultSettings w4 = defaultSettings w).
    { subst w4 w3 w2 w1. by autorewrite with world. }
    erewrite bind_run; cycle 1.
    { apply (loadSettings_ref_run w4 (sync w !! (name +:+ "-settings")) stored).
      - done.
      - by rewrite Hds4. }
    assert (Hsync4 : sync w4
              = <[name +:+ "-users" :=
                    Obj (<["updatedAt" := Num (now w3)]>
                           {[ "users" := Arr (map Str remaining) ]})]>
                  (foldr delete (sync w)
                     (match storage with
                      | SyncArea => [name +:+ "-user-" +:+ userId;
                                     name +:+ "-custom-" +:+ userId]
                      | LocalArea => []
                      end))).
    { rewrite <- Hsync3. reflexivity. }
    assert (Hlocal4 : local w4
              = <[name +:+ "-iam-logins" :=
                    Obj (<["updatedAt" := Num (now w2)]> logins')]>
                  (foldr delete
                     (foldr delete (local w)
                        (match storage with
                         | SyncArea => []
                         | LocalArea => [name +:+ "-user-" +:+ userId;
                                         name +:+ "-custom-" +:+ userId]
                         end)) pids)).
    { subst w4 w3 w2 w1. by destruct storage. }
    rewrite Hds4. cbn [fst snd]. js_run. rewrite next_user.
    fold settings wasDefault wasLast.
    exists w4, (now w2), (now w3). cbv zeta.
    split; [|split; [|split; [|split; [|split; [|split; [|split]]]]]].
    - assert (Hn4 : config_name w4 = name).
      { subst w4. by rewrite config_name_write, config_name_tick. }
      clearbody wasDefault wasLast.
      destruct (wasDefault || wasLast); [|done].
      js_run. unfold put at 1.
      destruct wasDefault,
        (bool_decide (sync w !! (name +:+ "-settings") = None));
        js_run; unfold saveSettings; rewrite bind_ask, saveData_obj by apply dash_key;
        cbn [config_name with_defaultSettings]; rewrite Hn4; reflexivity.
    - subst w4. by rewrite config_name_write, config_name_tick.
    - exact Hds4.
    - destruct storage.
      + change (area_of SyncArea w4) with (sync w4). rewrite Hsync4.
        rewrite lookup_insert_ne by key_ne.
        rewrite lookup_foldr_delete, bool_decide_eq_true_2; [done|].
        by left.
      + change (area_of LocalArea w4) with (local w4). rewrite Hlocal4.
        rewrite lookup_insert_ne by key_ne.
        rewrite lookup_foldr_delete. case_bool_decide; [done|].
        rewrite lookup_foldr_delete, bool_decide_eq_true_2; [done|].
        by left.
    - destruct storage.
      + change (area_of SyncArea w4) with (sync w4). rewrite Hsync4.
        rewrite lookup_insert_ne by key_ne.
        rewrite lookup_foldr_delete, bool_decide_eq_true_2; [done|].
        right. by left.
      + change (area_of LocalArea w4) with (local w4). rewrite Hlocal4.
        rewrite lookup_insert_ne by key_ne.
        rewrite lookup_foldr_delete. case_bool_decide; [done|].
        rewrite lookup_foldr_delete, bool_decide_eq_true_2; [done|].
        right. by left.
    - intros p Hp. rewrite Hlocal4.
      rewrite lookup_insert_ne by (intros E; apply Hiam; by rewrite E).
      by rewrite lookup_foldr_delete, bool_decide_eq_true_2.
    - by rewrite Hlocal4, lookup_insert_eq.
    - by rewrite Hsync4, lookup_insert_eq. }
  destruct Hrun
    as (w4 & t1 & t2 & Hrun & Hn4 & Hds4 & Hu4 & Hc4 & Hp4 & Hi4 & Hs4).
  cbv zeta in Hrun.
  set (next := Str (default "" (head remaining))) in *.
  set (s1 := <["lastUserId" := next]> settings) in *.
  set (s2 := if wasDefault then <["defaultUser" := Str "lastUserId"]> s1
             else s1) in *.
  set (w5 := if bool_decide (sync w !! (name +:+ "-settings") = None)
             then with_defaultSettings s2 w4 else w4) in *.
  assert (Hw5 : sync w5 = sync w4 ∧ local w5 = local w4
                ∧ config_name w5 = name
                ∧ (defaultSettings w5 = s2
                   ∨ defaultSettings w5 = defaultSettings w4)).
  { subst w5. case_bool_decide as Hcell; [|cbn; auto].
    split; [reflexivity|]. split; [reflexivity|]. split; [exact Hn4|]. left.
    assert (Hproto : s2 !! "__proto__" = None).
    { rewrite Hcell in Hsettings. injection Hsettings as <-.
      subst s2 s1 settings.
      destruct wasDefault; rewrite ?lookup_insert_ne by done;
        by rewrite lookup_union, defaultSettings_no_proto. }
    unfold defaultSettings at 1. simpl. by apply delete_id. }
  destruct Hw5 as (Hsy5 & Hlo5 & Hn5 & Hds5).
  assert (Hlogins' : ∀ p, p ∈ pids → logins' !! p = None).
  { intros p Hp. subst logins'.
    by rewrite lookup_foldl_delete, bool_decide_eq_true_2. }
  assert (Hrem : userId ∉ remaining).
  { subst remaining. intros [H _]%list_elem_of_filter. by apply H. }
  eexists _, t1, t2. split; [exact Hrun|].
  destruct (wasDefault || wasLast) eqn:Hcond.
  - set (doc := <["updatedAt" := Num (now w5)]> s2).
    assert (Hsy : sync (write SyncArea (name +:+ "-settings") (Obj doc) (tick w5))
                  = <[name +:+ "-settings" := Obj doc]> (sync w4)).
    { cbn. by rewrite Hsy5. }
    assert (Hlo : local (write SyncArea (name +:+ "-settings") (Obj doc) (tick w5))
                  = local w4).
    { cbn. by rewrite Hlo5. }
    split; [by rewrite config_name_write, config_name_tick|].
    split; [|split; [|split; [|split; [|split; [|split; [|split]]]]]].
    + destruct storage.
      * change (area_of SyncArea ?x) with (sync x). rewrite Hsy.
        by rewrite lookup_insert_ne by key_ne.
      * change (area_of LocalArea ?x) with (local x). by rewrite Hlo.
    + destruct storage.
      * change (area_of SyncArea ?x) with (sync x). rewrite Hsy.
        by rewrite lookup_insert_ne by key_ne.
      * change (area_of LocalArea ?x) with (local x). by rewrite Hlo.
    + intros p Hp. rewrite Hlo. by apply Hp4.
    + by rewrite Hlo.
    + done.
    + rewrite Hsy. by rewrite lookup_insert_ne by key_ne.
    + done.
    + intros _.
      set (w' := write SyncArea (name +:+ "-settings") (Obj doc) (tick w5)).
      exists (doc ∪ defaultSettings w'). split; [|split].
      * apply (loadSettings_run w' (Some (Obj doc)) doc); [|done].
        subst w'. rewrite config_name_write, config_name_tick, Hn5.
        by rewrite Hsy, lookup_insert_eq.
      * rewrite lookup_union_l'; subst doc s2 s1.
        -- rewrite lookup_insert_ne by done.
           destruct wasDefault.
           ++ rewrite lookup_insert_ne by done. by rewrite lookup_insert_eq.
           ++ by rewrite lookup_insert_eq.
        -- rewrite lookup_insert_ne by done.
           destruct wasDefault.
           ++ rewrite lookup_insert_ne by done. by rewrite lookup_insert_eq.
           ++ by rewrite lookup_insert_eq.
      * destruct wasDefault.
        -- rewrite lookup_union_l'; subst doc s2 s1.
           ++ rewrite lookup_insert_ne by done. by rewrite lookup_insert_eq.
           ++ rewrite lookup_insert_ne by done. by rewrite lookup_insert_eq.
        -- assert (Hdoc : doc !! "defaultUser" = settings !! "defaultUser").
           { subst doc s2 s1. by rewrite !lookup_insert_ne. }
           rewrite lookup_union, Hdoc.
           destruct (settings !! "defaultUser") as [v|] eqn:Hdu.
           ++ by destruct (defaultSettings w' !! "defaultUser").
           ++ rewrite (left_id_L None (∪)).
              subst w'. rewrite defaultSettings_write, defaultSettings_tick.
              destruct Hds5 as [-> | ->].
              ** subst s2 s1. by rewrite lookup_insert_ne.
              ** rewrite Hds4. subst settings.
                 by apply lookup_union_None in Hdu as [_ ?].
  - split; [done|]. split; [done|]. split; [done|]. split; [done|].
    split; [done|]. split; [done|]. split; [done|]. split; [done|].
    discriminate.
Qed.

Lemma removeUser_cleans_up_witness :
  ∃ w' settings',
    removeUser "alice" (Some (Bool true)) Sample.stored_world = (Ok tt, w') ∧
    local w' !! "p-default" = None ∧
    local w' !! "p-green" = None ∧
    loadSettings w' = (Ok (Obj settings'), w') ∧
    settings' !! "lastUserId" = Some (Str "bob") ∧
    settings' !! "defaultUser" = Some (Str "lastUserId").
Proof.
  destruct (removeUser_cleans_up Sample.stored_world "alice"
              (Some (Bool true))
              Sample.alice Sample.custom Sample.logins_doc Sample.users_doc
              Sample.settings_doc
              ["p-default"; "p-green"; "p-gone"] ["alice"; "bob"])
    as (w' & t1 & t2 & Hrun & _ & _ & _ & Hprofiles & _ & _ & _ & _ & Hset).
  - reflexivity.
  - reflexivity.
  - reflexivity.
  - intros H. repeat (apply elem_of_cons in H as [H|H]; [discriminate|]).
    by apply elem_of_nil in H.
  - reflexivity.
  - reflexivity.
  - reflexivity.
  - reflexivity.
  - destruct (Hset eq_refl) as (settings' & Hload & Hlast & Hdef).
    exists w', settings'. split; [exact Hrun|].
    split; [apply Hprofiles; by left|].
    split; [apply Hprofiles; right; by left|].
    split; [exact Hload|]. split; [exact Hlast|exact Hdef].
Defined.

(** ** Importing a configuration *)

(** [saveData] never throws on a datum that is there. *)
Lemma saveData_some k v db w :
  String.eqb k "__proto__" = false →
  saveData k (Some v) db w
  = (Ok tt, write db k (document v (now w)) (after_stamp v w)).
Proof. intros H. unfold saveData. destruct v; simpl; by rewrite H. Qed.

Lemma saveSettings_some v w :
  saveSettings (Some v) w
  = (Ok tt, write SyncArea (config_name w +:+ "-settings")
              (document v (now w)) (after_stamp v w)).
Proof.
  unfold saveSettings. by rewrite bind_ask, saveData_some by apply dash_key.
Qed.

Lemma saveCustom_some v userId enableSync w :
  saveCustom (Some v) userId enableSync w
  = (Ok tt, write (storage_of enableSync)
              (config_name w +:+ "-custom-" +:+ userId)
              (document v (now w)) (after_stamp v w)).
Proof.
  unfold saveCustom. rewrite bind_ask.
  by rewrite (fire_ok _ _ _ (saveData_some _ _ _ _ (dash_key2 _ _ _))).
Qed.

Lemma try_catch_ok {A} (m h : M A) w a w' :
  m w = (Ok a, w') → try_catch m h w = (Ok a, w').
Proof. intros H. unfold try_catch. by rewrite H. Qed.

Lemma try_catch_TypeError {A} (m h : M A) w w' :
  m w = (Throw TypeError, w') → try_catch m h w = h w'.
Proof. intros H. unfold try_catch. by rewrite H. Qed.

(** [importUserConfig] on a configuration without one of the keys. *)
Lemma importUserConfig_missing userId (m : gmap string value) w :
  m !! "user" = None ∨ m !! "extension" = None →
  importUserConfig userId (Some (Obj m)) w = (Ok false, w).
Proof.
  intros Hmiss. unfold importUserConfig. apply try_catch_ok.
  js_run.
  destruct Hmiss as [H|H]; rewrite (is_Some_false _ H).
  - done.
  - by destruct (bool_decide _).
Qed.

Lemma importUserConfig_not_object userId cfg w :
  (∀ m, cfg ≠ Some (Obj m)) →
  importUserConfig userId cfg w = (Ok false, w).
Proof.
  intros Hno. unfold importUserConfig.
  destruct cfg as [[| | | |l|m]|]; try done.
  - by destruct (Hno m).
Qed.

Lemma importUserConfig_present userId (m : gmap string value) u e w :
  m !! "user" = Some u →
  m !! "extension" = Some e →
  let w1 := write SyncArea (config_name w +:+ "-settings")
              (document e (now w)) (after_stamp e w) in
  importUserConfig userId (Some (Obj m)) w
  = match get (Some e) "enableSync" with
    | Ok enableSync =>
        (Ok true,
         write (storage_of enableSync)
           (config_name w +:+ "-custom-" +:+ userId)
           (document u (now w1)) (after_stamp u w1))
    | Throw _ => (Ok false, w1)
    end.
Proof.
  intros Hu He w1. unfold importUserConfig.
  assert (Hn1 : config_name w1 = config_name w).
  { subst w1. rewrite config_name_write. unfold after_stamp.
    by destruct (typeof_object _). }
  destruct (get (Some e) "enableSync") as [es|err] eqn:Hes.
  - apply try_catch_ok. js_run. rewrite !is_Some_true by eauto.
    cbn [negb orb]. js_run.
    erewrite bind_run by (apply fire_ok, saveSettings_some).
    js_run. erewrite bind_run by apply saveCustom_some.
    fold w1. by rewrite Hn1.
  - assert (err = TypeError) as ->.
    { destruct e; unfold get in Hes; simpl in Hes; congruence. }
    erewrite try_catch_TypeError; [reflexivity|].
    js_run. rewrite !is_Some_true by eauto.
    cbn [negb orb]. js_run.
    erewrite bind_run by (apply fire_ok, saveSettings_some).
    js_run. by rewrite bind_lift_throw.
Qed.

Lemma area_of_after_stamp a v w : area_of a (after_stamp v w) = area_of a w.
Proof. unfold after_stamp. destruct (typeof_object _); [|done]. by destruct a. Qed.

(** A key that no prototype knows is read without an error from every
    value but [null] and [undefined]. *)
Lemma get_not_null e k :
  is_member array_members k = false →
  is_member string_members k = false →
  is_member number_members k = false →
  e ≠ Null → ∃ x, get (Some e) k = Ok x.
Proof.
  intros Ha Hs Hn H.
  assert (Ho : inherited k = false).
  { unfold is_member, number_members in Hn. rewrite existsb_app in Hn.
    by apply orb_false_iff in Hn as [? _]. }
  destruct e; [by destruct H|..]; unfold get, lookup;
    rewrite ?Ha, ?Hs, ?Hn, ?Ho; try destruct (String.eqb _ _); by eexists.
Qed.

(** C8, as the code has it.  [importUserConfig] returns [false] and
    leaves the store alone when the configuration is no object or lacks
    the key [user] or the key [extension]; when both keys are there and
    [cfg.extension] is not [null], it writes [cfg.extension] as the
    settings and [cfg.user] as the customization of the user, each as
    [saveData] stamps it, and returns [true]; and on every input it
    returns a boolean. *)
Theorem importUserConfig_validates (userId : string) (w : world) :
  (∀ cfg, (∀ m, cfg = Some (Obj m) →
                m !! "user" = None ∨ m !! "extension" = None) →
          importUserConfig userId cfg w = (Ok false, w))
  ∧ (∀ (m : gmap string value) u e,
       m !! "user" = Some u →
       m !! "extension" = Some e →
       e ≠ Null →
       ∃ enableSync w',
         get (Some e) "enableSync" = Ok enableSync ∧
         importUserConfig userId (Some (Obj m)) w = (Ok true, w') ∧
         sync w' !! (config_name w +:+ "-settings")
           = Some (document e (now w)) ∧
         area_of (storage_of enableSync) w'
           !! (config_name w +:+ "-custom-" +:+ userId)
           = Some (document u (now (after_stamp e w))))
  ∧ (∀ cfg, ∃ b w', importUserConfig userId cfg w = (Ok b, w')).
Proof.
  assert (Hmissing : ∀ cfg,
            (∀ m, cfg = Some (Obj m) →
                  m !! "user" = None ∨ m !! "extension" = None) →
            importUserConfig userId cfg w = (Ok false, w)).
  { intros cfg Hcfg. destruct cfg as [[| | | | |m]|];
      try (apply importUserConfig_not_object; by intros ?).
    apply importUserConfig_missing. by apply Hcfg. }
  split; [exact Hmissing|]. split.
  - intros m u e Hu He Hnull.
    destruct (get_not_null e "enableSync" eq_refl eq_refl eq_refl Hnull)
      as [es Hes].
    pose proof (importUserConfig_present userId m u e w Hu He) as Hrun.
    cbv zeta in Hrun. rewrite Hes in Hrun.
    eexists es, _. split; [done|]. split; [exact Hrun|]. split.
    + change (sync ?x) with (area_of SyncArea x).
      destruct (storage_of es).
      * rewrite area_of_write, lookup_insert_ne
          by (intros H; apply append_inj_l in H; discriminate).
        by rewrite area_of_after_stamp, area_of_write, lookup_insert_eq.
      * rewrite area_of_write_ne by done.
        by rewrite area_of_after_stamp, area_of_write, lookup_insert_eq.
    + by rewrite area_of_write, lookup_insert_eq, now_write.
  - intros cfg. destruct cfg as [[| | | | |m]|];
      try (eexists _, _; apply importUserConfig_not_object; by intros ?).
    destruct (m !! "user") as [u|] eqn:Hu;
      [|eexists _, _; apply importUserConfig_missing; by left].
    destruct (m !! "extension") as [e|] eqn:He;
      [|eexists _, _; apply importUserConfig_missing; by right].
    pose proof (importUserConfig_present userId m u e w Hu He) as Hrun.
    cbv zeta in Hrun. destruct (get (Some e) "enableSync"); by eexists _, _.
Qed.

Lemma importUserConfig_validates_witness :
  ∃ w',
    importUserConfig "alice"
      (Some (Obj (list_to_map [
         ("user", Obj Sample.custom);
         ("extension", Obj Sample.settings_doc)])))
      Sample.old_world = (Ok true, w') ∧
    sync w' !! "aws-sso-ext-settings"
      = Some (document (Obj Sample.settings_doc) 1700000000000) ∧
    sync w' !! "aws-sso-ext-custom-alice"
      = Some (document (Obj Sample.custom) 1700000000001).
Proof.
  destruct (proj1 (proj2 (importUserConfig_validates "alice" Sample.old_world))
              (list_to_map [
                 ("user", Obj Sample.custom);
                 ("extension", Obj Sample.settings_doc)])
              (Obj Sample.custom) (Obj Sample.settings_doc))
    as (es & w' & Hes & Hrun & Hsettings & Hcustom).
  - reflexivity.
  - reflexivity.
  - discriminate.
  - vm_compute in Hes. injection Hes as <-.
    exists w'. split; [exact Hrun|]. split; [exact Hsettings|exact Hcustom].
Defined.

(** The claim as the specification words it fails when [cfg.extension]
    is [null]: both keys are there, the settings are overwritten with a
    bare stamp, reading [enableSync] throws, and the answer is [false]. *)
Lemma importUserConfig_null_extension_counterexample :
  ¬ (∀ userId (m : gmap string value) u e w,
       m !! "user" = Some u →
       m !! "extension" = Some e →
       fst (importUserConfig userId (Some (Obj m)) w) = Ok true).
Proof.
  intros H.
  specialize (H "alice"
                (list_to_map [("user", Obj ∅); ("extension", Null)])
                (Obj ∅) Null Sample.old_world).
  assert (Hrun : fst (importUserConfig "alice"
            (Some (Obj (list_to_map [("user", Obj ∅); ("extension", Null)])))
            Sample.old_world) = Ok false) by reflexivity.
  rewrite Hrun in H. by discriminate H.
Qed.

(** ** The aggregate *)

Lemma bind_inv {A B} (m : M A) (f : A → M B) w b w' :
  (m ≫= f) w = (Ok b, w') →
  ∃ a w1, m w = (Ok a, w1) ∧ f a w1 = (Ok b, w').
Proof.
  unfold mbind, M_bind. destruct (m w) as [[a|e] w1]; [eauto|done].
Qed.

Lemma uniq_aux_strs (seen l : list string) :
  uniq_aux (map (λ s, Some (Str s)) seen) (map (λ s, Some (Str s)) l)
  = Ok (map (λ s, Some (Str s)) (nub_aux seen l)).
Proof.
  revert seen. induction l as [|x l IH]; intros seen; [done|].
  rewrite map_cons. cbn [uniq_aux nub_aux].
  assert (Hex : exists_res (strict_eq (Some (Str x)))
                  (map (λ s, Some (Str s)) seen)
                = Ok (bool_decide (x ∈ seen))).
  { clear. induction seen as [|y seen IH]; [done|].
    rewrite map_cons. cbn [exists_res].
    rewrite strict_eq_str_l, res_bind_ok.
    destruct (decide (x = y)) as [->|Hne].
    - rewrite (proj2 (is_str_true y (Some (Str y)))) by done.
      rewrite bool_decide_eq_true_2; [done|by left].
    - rewrite is_str_false by (intros [= ?]; done).
      rewrite IH. f_equal. apply bool_decide_ext. split; [by right|].
      by intros [?|?]%elem_of_cons. }
  rewrite Hex, res_bind_ok. case_bool_decide.
  - apply IH.
  - change (Some (Str x) :: map (λ s, Some (Str s)) seen)
      with (map (λ s, Some (Str s)) (x :: seen)).
    by rewrite IH.
Qed.

Lemma uniq_strs (l : list string) :
  uniq (map (λ s, Some (Str s)) l) = Ok (map (λ s, Some (Str s)) (nub l)).
Proof. apply (uniq_aux_strs []). Qed.

Lemma nub_aux_spec (seen l : list string) x :
  x ∈ nub_aux seen l ↔ x ∈ l ∧ x ∉ seen.
Proof.
  revert seen. induction l as [|y l IH]; intros seen; simpl.
  - split; [by intros ?%elem_of_nil|by intros [?%elem_of_nil _]].
  - case_bool_decide as Hy.
    + rewrite IH. split.
      * intros [Hx Hn]. split; [by right|done].
      * intros [Hx Hn]. apply elem_of_cons in Hx as [->|Hx]; [done|by split].
    + rewrite elem_of_cons, IH. split.
      * intros [->|[Hx Hn]].
        -- split; [by left|done].
        -- split; [by right|]. intros ?. apply Hn. by right.
      * intros [Hx Hn]. apply elem_of_cons in Hx as [->|Hx]; [by left|].
        destruct (decide (x = y)) as [->|Hne]; [by left|].
        right. split; [done|]. by intros [?|?]%elem_of_cons.
Qed.

Lemma NoDup_nub_aux (seen l : list string) : NoDup (nub_aux seen l).
Proof.
  revert seen. induction l as [|y l IH]; intros seen; simpl; [constructor|].
  case_bool_decide; [apply IH|].
  constructor; [|apply IH].
  rewrite nub_aux_spec. intros [_ Hn]. apply Hn. by left.
Qed.




Lemma load_profiles_run (ids : list string) w :
  mapM' (storage_get_keys LocalArea) (map (λ s, Some (Str s)) ids) w
  = (Ok (map (λ id, match local w !! id with
                    | Some v => {[ id := v ]}
                    | None => ∅
                    end) ids), w).
Proof.
  induction ids as [|id ids IH]; [done|].
  simpl. rewrite bind_ask.
  erewrite bind_run by exact IH. reflexivity.
Qed.

Lemma omap_cons {A B} (f : A → option B) x l :
  omap f (x :: l)
  = match f x with Some y => y :: omap f l | None => omap f l end.
Proof. reflexivity. Qed.

Lemma first_values (ids : list string) (store : gmap string value) :
  omap first_value
    (map (λ id, match store !! id with
                | Some v => {[ id := v ]}
                | None => ∅
                end) ids)
  = omap (λ id, store !! id) ids.
Proof.
  induction ids as [|id ids IH]; [done|].
  rewrite map_cons, !omap_cons, IH. destruct (store !! id) as [v|].
  - unfold first_value. by rewrite map_to_list_singleton.
  - unfold first_value. by rewrite map_to_list_empty.
Qed.




(** ** The default user *)

Lemma find_res_none {A} (f : A → res bool) l :
  Forall (λ x, f x = Ok false) l → find_res f l = Ok None.
Proof.
  induction 1 as [|x l Hx _ IH]; [done|]. simpl. by rewrite Hx.
Qed.

Lemma filter_res_none {A} (f : A → res bool) l :
  Forall (λ x, f x = Ok false) l → filter_res f l = Ok [].
Proof.
  induction 1 as [|x l Hx _ IH]; [done|]. simpl. by rewrite Hx, res_bind_ok, IH.
Qed.

(** The comparator on two stamped records. *)
Lemma by_updatedAt_stamped a b ta tb :
  stamp_of a = Some ta → stamp_of b = Some tb →
  by_updatedAt a b = Ok (if (tb <? ta)%Z then (-1)%Z else 1%Z).
Proof.
  unfold stamp_of, by_updatedAt. intros Ha Hb.
  destruct a as [| | | | |ma]; try done.
  destruct b as [| | | | |mb]; try done.
  rewrite !get_obj by exact eq_refl.
  destruct (ma !! "updatedAt") as [[]|]; try done.
  destruct (mb !! "updatedAt") as [[]|]; try done.
  by injection Ha as ->; injection Hb as ->.
Qed.

Lemma insert_by_perm {A} (cmp : A → A → res Z) x l r :
  insert_by cmp x l = Ok r → r ≡ₚ x :: l.
Proof.
  revert r. induction l as [|y l IH]; intros r; simpl.
  - by intros [= <-].
  - destruct (cmp x y) as [c|]; [|done]. simpl.
    destruct (c <? 0)%Z.
    + by intros [= <-].
    + destruct (insert_by cmp x l) as [r'|]; [|done]. simpl.
      intros [= <-]. rewrite (IH r' eq_refl). apply Permutation_swap.
Qed.

Lemma sort_by_fold_perm {A} (cmp : A → A → res Z) l acc r :
  foldl (λ acc x, sorted ← acc; insert_by cmp x sorted) (Ok acc) l = Ok r →
  r ≡ₚ acc ++ l.
Proof.
  revert acc. induction l as [|x l IH]; intros acc; simpl.
  - intros [= <-]. by rewrite app_nil_r.
  - destruct (insert_by cmp x acc) as [acc'|] eqn:Hins.
    + intros H. rewrite (IH _ H), (insert_by_perm _ _ _ _ Hins).
      simpl. apply Permutation_middle.
    + intros H. exfalso. clear -H.
      induction l as [|y l IH]; [done|]. by apply IH.
Qed.

(** Where the sort returns, its result is that of the insertions. *)
Lemma sort_by_fold {A} (cmp : A → A → res Z) l r :
  sort_by cmp l = Ok r →
  foldl (λ acc x, sorted ← acc; insert_by cmp x sorted) (Ok []) l = Ok r.
Proof.
  unfold sort_by. destruct l as [|x [|y l]]; [done..|].
  by destruct (weak_order cmp (x :: y :: l)).
Qed.

Lemma sort_by_perm {A} (cmp : A → A → res Z) l r :
  sort_by cmp l = Ok r → r ≡ₚ l.
Proof. intros H. by apply sort_by_fold, sort_by_fold_perm in H. Qed.

Lemma insert_by_sorted x l r :
  is_Some (stamp_of x) → Forall (λ u, is_Some (stamp_of u)) l →
  StronglySorted not_older l →
  insert_by by_updatedAt x l = Ok r →
  StronglySorted not_older r.
Proof.
  intros [tx Hx] Hl Hs. revert r.
  induction Hs as [|y l Hs IH Hy]; intros r; simpl.
  - intros [= <-]. repeat constructor.
  - inversion Hl as [|? ? [ty Hty] Hl']; subst.
    rewrite (by_updatedAt_stamped x y tx ty Hx Hty). simpl.
    destruct (Z.ltb_spec ty tx) as [Hlt|Hge]; simpl.
    + intros [= <-]. constructor; [by constructor|].
      constructor.
      * exists tx, ty. repeat split; [done..|lia].
      * eapply Forall_impl; [exact Hy|].
        intros z (ty' & tz & Hty' & Htz & Hle).
        exists tx, tz. repeat split; [done..|].
        rewrite Hty in Hty'. injection Hty' as <-. lia.
    + destruct (insert_by by_updatedAt x l) as [r'|] eqn:Hins; [|done].
      simpl. intros [= <-]. constructor; [by apply IH|].
      rewrite (insert_by_perm _ _ _ _ Hins). constructor; [|done].
      exists ty, tx. repeat split; [done..|lia].
Qed.

Lemma insert_by_stamped_ok x l :
  is_Some (stamp_of x) → Forall (λ u, is_Some (stamp_of u)) l →
  ∃ r, insert_by by_updatedAt x l = Ok r.
Proof.
  intros [tx Hx]. induction 1 as [|y l [ty Hy] _ [r IH]]; simpl.
  - by eexists.
  - rewrite (by_updatedAt_stamped x y tx ty Hx Hy). simpl.
    destruct (_ <? _)%Z; simpl; [by eexists|]. rewrite IH. by eexists.
Qed.

Lemma sort_by_fold_sorted l acc r :
  Forall (λ u, is_Some (stamp_of u)) acc →
  Forall (λ u, is_Some (stamp_of u)) l →
  StronglySorted not_older acc →
  foldl (λ acc x, sorted ← acc; insert_by by_updatedAt x sorted) (Ok acc) l
    = Ok r →
  StronglySorted not_older r.
Proof.
  intros Hacc Hl. revert acc Hacc.
  induction Hl as [|x l Hx Hl IH]; intros acc Hacc Hs; simpl.
  - by intros [= <-].
  - destruct (insert_by_stamped_ok x acc Hx Hacc) as [acc' Hins].
    rewrite Hins. apply IH.
    + rewrite (insert_by_perm _ _ _ _ Hins). by constructor.
    + by eapply insert_by_sorted.
Qed.

Lemma sort_by_sorted l r :
  Forall (λ u, is_Some (stamp_of u)) l →
  sort_by by_updatedAt l = Ok r →
  StronglySorted not_older r.
Proof.
  intros Hl H. apply sort_by_fold in H. revert H.
  apply sort_by_fold_sorted; [constructor|done|constructor].
Qed.

Lemma lift_inv {A} (r : res A) w a w' :
  lift r w = (Ok a, w') → r = Ok a ∧ w' = w.
Proof. unfold lift. by intros [= -> ->]. Qed.

(** The users of an aggregate are the loaded users, sorted. *)
Lemma loadData_users w data w' :
  loadData w = (Ok data, w') →
  ∃ users, sort_by by_updatedAt users = Ok (d_users data).
Proof.
  unfold loadData. intros H.
  apply bind_inv in H as (iamLogins & w1 & _ & H).
  apply bind_inv in H as (settings & w2 & _ & H).
  apply bind_inv in H as (enableSync & w3 & _ & H).
  apply bind_inv in H as (users & w4 & _ & H).
  apply bind_inv in H as (sorted & w5 & Hsort & H).
  apply lift_inv in Hsort as [Hsort _].
  apply bind_inv in H as (ids & w6 & _ & H).
  apply bind_inv in H as (uniqIds & w7 & _ & H).
  apply bind_inv in H as (aps & w8 & _ & H).
  apply bind_inv in H as (updatedAt & w9 & _ & H).
  injection H as <- _. by exists users.
Qed.

(** C10.  Under the policy ["lastUserId"], when no user has the id
    [settings.lastUserId], [getDefaultUser] returns the first user of the
    list; under the policy of a given user id that no user has, it
    returns [undefined]; and the first user of the list [loadData] builds
    is at least as recent as every other one, when all carry a stamp. *)
Theorem getDefaultUser_fallbacks :
  (∀ data (m : gmap string value),
     d_settings data = Obj m →
     m !! "defaultUser" = Some (Str "lastUserId") →
     Forall (λ u, ∃ userId, get (Some u) "userId" = Ok userId ∧
                            strict_eq userId (m !! "lastUserId") = Ok false)
       (d_users data) →
     getDefaultUser data = Ok (head (d_users data)))
  ∧ (∀ data (m : gmap string value) id,
       d_settings data = Obj m →
       m !! "defaultUser" = Some (Str id) →
       id ≠ "lastUserId" →
       Forall (λ u, ∃ userId, get (Some u) "userId" = Ok userId ∧
                              userId ≠ Some (Str id))
         (d_users data) →
       getDefaultUser data = Ok None)
  ∧ (∀ w data w',
       loadData w = (Ok data, w') →
       Forall (λ u, is_Some (stamp_of u)) (d_users data) →
       StronglySorted not_older (d_users data) ∧
       ∀ first u, head (d_users data) = Some first → u ∈ d_users data →
                  not_older first u).
Proof.
  split; [|split].
  - intros data m Hs Hpolicy Hnone. unfold getDefaultUser. cbv zeta.
    rewrite Hs, !get_obj, Hpolicy, res_bind_ok, strict_eq_str, res_bind_ok
      by exact eq_refl.
    change (is_str "lastUserId" (Some (Str "lastUserId"))) with true.
    cbv iota. rewrite find_res_none; [done|].
    eapply Forall_impl; [exact Hnone|].
    intros u (userId & Hid & Hne). cbv beta.
    by rewrite Hid, !res_bind_ok.
  - intros data m id Hs Hpolicy Hid Hnone. unfold getDefaultUser. cbv zeta.
    rewrite Hs, !get_obj, Hpolicy, res_bind_ok, strict_eq_str, res_bind_ok
      by exact eq_refl.
    rewrite is_str_false by (intros [= ?]; done).
    rewrite filter_res_none; [done|].
    eapply Forall_impl; [exact Hnone|].
    intros u (userId & Hu & Hne). cbv beta.
    rewrite Hu, !res_bind_ok, strict_eq_str.
    by rewrite is_str_false.
  - intros w data w' Hrun Hstamped.
    destruct (loadData_users w data w' Hrun) as [users Hsort].
    assert (Hsorted : StronglySorted not_older (d_users data)).
    { eapply sort_by_sorted; [|exact Hsort].
      by rewrite <- (sort_by_perm _ _ _ Hsort). }
    split; [done|]. intros first u Hhead Hu.
    destruct (d_users data) as [|x l]; [done|].
    injection Hhead as ->.
    inversion Hsorted as [|? ? _ Hall]; subst.
    apply elem_of_cons in Hu as [->|Hu].
    + inversion Hstamped as [|? ? [t Ht] _]; subst.
      exists t, t. repeat split; [done..|lia].
    + rewrite Forall_forall in Hall. by apply Hall.
Qed.

Lemma getDefaultUser_fallbacks_witness :
  getDefaultUser Sample.aggregate = Ok (Some Sample.bob_loaded).
Proof.
  refine (proj1 getDefaultUser_fallbacks Sample.aggregate
            Sample.stale_settings _ _ _).
  - reflexivity.
  - reflexivity.
  - repeat constructor; eexists; split; reflexivity.
Defined.

(** ** The platform *)

Lemma prefix_spec (pat s : string) :
  String.prefix pat s = true ↔ ∃ post, s = pat +:+ post.
Proof.
  revert s. induction pat as [|c pat IH]; intros s.
  - split; [by exists s|by destruct s].
  - destruct s as [|d s]; simpl; [split; [done|by intros [? ?]]|].
    destruct (ascii_dec c d) as [->|Hne].
    + rewrite IH. split.
      * intros [post ->]. by exists post.
      * intros [post H]. rewrite append_cons in H. injection H as ->.
        by exists post.
    + split; [done|]. intros [post H]. rewrite append_cons in H. congruence.
Qed.

Lemma index_occurs (pat s : string) :
  String.index 0 pat s ≠ None ↔ occurs pat s.
Proof.
  induction s as [|b s IH].
  - destruct pat as [|c pat]; simpl.
    + split; [|done]. intros _. by exists "", "".
    + split; [done|]. intros (pre & post & H). symmetry in H.
      apply append_eq_nil in H as [_ H]. by rewrite append_cons in H.
  - change (String.index 0 pat (String b s))
      with (if String.prefix pat (String b s) then Some 0
            else match String.index 0 pat s with
                 | Some n => Some (S n)
                 | None => None
                 end).
    destruct (String.prefix pat (String b s)) eqn:Hp.
    + split; [|done]. intros _. apply prefix_spec in Hp as [post ->].
      by exists "", post.
    + split.
      * intros H. destruct (String.index 0 pat s) eqn:Hi; [|done].
        destruct IH as [IH _]. destruct IH as (pre & post & ->); [done|].
        by exists (String b pre), post.
      * intros (pre & post & H). destruct pre as [|b' pre].
        -- assert (String.prefix pat (String b s) = true); [|congruence].
           apply prefix_spec. by exists post.
        -- rewrite append_cons in H. injection H as -> ->.
           destruct IH as [_ IH].
           destruct (String.index 0 pat (pre +:+ pat +:+ post)); [done|].
           exfalso. apply IH; [|done]. by exists pre, post.
Qed.

Lemma indexOf_occurs (s pat : string) :
  (indexOf s pat =? -1)%Z = false ↔ occurs pat s.
Proof.
  rewrite <- index_occurs. unfold indexOf.
  destruct (String.index 0 pat s) as [n|].
  - split; [done|]. intros _. apply Z.eqb_neq. lia.
  - split; [done|]. by intros [].
Qed.

(** X1.  [checkPlatform] answers Firefox exactly for a user agent that
    contains [Firefox]; Safari exactly for one that contains [Safari] and
    neither [Firefox] nor [Chrome]; and Chrome for every other one: those
    that contain [Chrome] (even beside [Safari], as the user agents of
    Chrome do) and those that name none of the three. *)
Theorem checkPlatform_precedence (userAgent : string) :
  (checkPlatform userAgent = Firefox ↔ occurs "Firefox" userAgent)
  ∧ (checkPlatform userAgent = Safari ↔
       occurs "Safari" userAgent ∧ ¬ occurs "Firefox" userAgent
       ∧ ¬ occurs "Chrome" userAgent)
  ∧ (checkPlatform userAgent = Chrome ↔
       ¬ occurs "Firefox" userAgent
       ∧ (occurs "Chrome" userAgent ∨ ¬ occurs "Safari" userAgent)).
Proof.
  unfold checkPlatform.
  pose proof (indexOf_occurs userAgent "Firefox") as Hf.
  pose proof (indexOf_occurs userAgent "Chrome") as Hc.
  pose proof (indexOf_occurs userAgent "Safari") as Hs.
  destruct (indexOf userAgent "Firefox" =? -1)%Z;
    destruct (indexOf userAgent "Chrome" =? -1)%Z;
    destruct (indexOf userAgent "Safari" =? -1)%Z; simpl;
    repeat split; try done; try tauto;
    try (intros; exfalso; intuition congruence);
    intuition (try congruence; try discriminate).
Qed.

(** ** Labels *)

Lemma get_substitution_plain m b a rep :
  dollar_free rep → get_substitution m b a rep = rep.
Proof.
  induction rep as [|c rep IH]; [done|]. intros H.
  apply all_chars_cons in H as [Hc Hrest].
  apply negb_true_iff in Hc.
  change (get_substitution m b a (String c rep))
    with (if Ascii.eqb c "$" then
            match rep with
            | String d rest' =>
                if Ascii.eqb d "$" then String "$" (get_substitution m b a rest')
                else if Ascii.eqb d "&" then m +:+ get_substitution m b a rest'
                else if Ascii.eqb d "`" then b +:+ get_substitution m b a rest'
                else if Ascii.eqb d "'" then a +:+ get_substitution m b a rest'
                else String "$" (get_substitution m b a rep)
            | EmptyString => "$"
            end
          else String c (get_substitution m b a rep)).
  rewrite Hc. by rewrite IH.
Qed.

Lemma scan_nil p0 q rep k b : replaceAll_scan (String p0 q) rep k b "" = "".
Proof. reflexivity. Qed.

Lemma scan_skip_cons pat rep k b c r :
  replaceAll_scan pat rep (S k) b (String c r)
  = replaceAll_scan pat rep k (b +:+ String c "") r.
Proof. reflexivity. Qed.

Lemma scan_here p0 q rep b c r :
  replaceAll_scan (String p0 q) rep 0 b (String c r)
  = if String.prefix (String p0 q) (String c r)
    then get_substitution (String p0 q) b
           (string_drop (String.length (String p0 q)) (String c r)) rep
         +:+ replaceAll_scan (String p0 q) rep (String.length q)
               (b +:+ String c "") r
    else String c (replaceAll_scan (String p0 q) rep 0 (b +:+ String c "") r).
Proof.
  change (replaceAll_scan (String p0 q) rep 0 b (String c r))
    with (if String.prefix (String p0 q) (String c r)
          then get_substitution (String p0 q) b
                 (string_drop (String.length (String p0 q)) (String c r)) rep
               +:+ replaceAll_scan (String p0 q) rep
                     (String.length (String p0 q) - 1) (b +:+ String c "") r
          else String c
                 (replaceAll_scan (String p0 q) rep 0 (b +:+ String c "") r)).
  change (String.length (String p0 q) - 1) with (String.length q - 0).
  by rewrite Nat.sub_0_r.
Qed.

(** With a replacement that has no dollar sign the text before a match
    plays no part. *)
Lemma scan_before p0 q rep :
  dollar_free rep →
  ∀ rest k b b',
    replaceAll_scan (String p0 q) rep k b rest
    = replaceAll_scan (String p0 q) rep k b' rest.
Proof.
  intros Hrep. induction rest as [|c rest IH]; intros k b b'; [done|].
  destruct k as [|k].
  - rewrite !scan_here, !get_substitution_plain by done.
    destruct (String.prefix (String p0 q) (String c rest)).
    + f_equal. apply IH.
    + f_equal. apply IH.
  - rewrite !scan_skip_cons. apply IH.
Qed.

Lemma scan_skip pat rep x : ∀ b r,
  replaceAll_scan pat rep (String.length x) b (x +:+ r)
  = replaceAll_scan pat rep 0 (b +:+ x) r.
Proof.
  induction x as [|c x IH]; intros b r.
  - by rewrite append_nil_r.
  - rewrite append_cons. simpl String.length. rewrite scan_skip_cons, IH.
    by rewrite append_assoc.
Qed.

Lemma string_drop_app (x r : string) : string_drop (String.length x) (x +:+ r) = r.
Proof. induction x as [|c x IH]; [by destruct r|done]. Qed.

Lemma scan_match p0 q rep b r :
  replaceAll_scan (String p0 q) rep 0 b (String p0 q +:+ r)
  = get_substitution (String p0 q) b r rep
    +:+ replaceAll_scan (String p0 q) rep 0 (b +:+ String p0 q) r.
Proof.
  pose proof (scan_here p0 q rep b p0 (q +:+ r)) as H.
  change (String p0 (q +:+ r)) with (String p0 q +:+ r) in H.
  rewrite H, (proj2 (prefix_spec (String p0 q) (String p0 q +:+ r)))
    by by exists r.
  rewrite string_drop_app, scan_skip. by rewrite append_assoc.
Qed.

Lemma prefix_other p0 q c r : c ≠ p0 → String.prefix (String p0 q) (String c r) = false.
Proof. intros H. simpl. by destruct (ascii_dec p0 c) as [->|]. Qed.

Lemma scan_pass p0 q rep a : 
  all_chars (λ c, negb (Ascii.eqb c p0)) a →
  ∀ b r,
    replaceAll_scan (String p0 q) rep 0 b (a +:+ r)
    = a +:+ replaceAll_scan (String p0 q) rep 0 (b +:+ a) r.
Proof.
  induction a as [|c a IH]; intros Ha b r.
  - by rewrite append_nil_r.
  - apply all_chars_cons in Ha as [Hc Ha].
    apply negb_true_iff, Ascii.eqb_neq in Hc.
    rewrite !append_cons, scan_here, prefix_other by done.
    by rewrite IH, append_assoc.
Qed.

Lemma render_cons fill p t :
  render fill (p :: t) = piece_text fill p +:+ render fill t.
Proof. reflexivity. Qed.

Lemma render_ext f g t : (∀ h, f h = g h) → render f t = render g t.
Proof.
  intros H. induction t as [|p t IH]; [done|].
  rewrite !render_cons, IH. by destruct p as [s|h]; simpl; rewrite ?H.
Qed.

Lemma placeholder_eq_dec (h h' : placeholder) : {h = h'} + {h ≠ h'}.
Proof. decide equality. Qed.

Lemma placeholder_text_shape h : ∃ q, placeholder_text h = String "{" q.
Proof. destruct h; by eexists. Qed.

(** Reading on from a placeholder other than the one looked for. *)
Lemma scan_other h h' rep b r :
  dollar_free rep → h ≠ h' →
  replaceAll_scan (placeholder_text h) rep 0 b (placeholder_text h' +:+ r)
  = placeholder_text h' +:+ replaceAll_scan (placeholder_text h) rep 0 b r.
Proof.
  intros Hrep Hne.
  destruct h, h'; try done; cbv [placeholder_text];
    match goal with
    | |- context [String ?c1 (String ?c2 ?body) +:+ r] =>
        change (String c1 (String c2 body) +:+ r)
          with (String c1 (String c2 (body +:+ r)))
    end;
    do 2 (rewrite scan_here;
          match goal with
          | |- context [String.prefix ?x ?y] =>
              change (String.prefix x y) with false
          end; cbv iota);
    (rewrite scan_pass by reflexivity);
    match goal with
    | |- context [replaceAll_scan ?p rep 0 ?b' r] =>
        rewrite (scan_before _ _ rep Hrep r 0 b' b)
    end; reflexivity.
Qed.

Lemma plain_template_cons p t :
  plain_template (p :: t)
  ↔ match p with Text s => brace_free s | Hole _ => True end ∧ plain_template t.
Proof.
  unfold plain_template. simpl forallb. rewrite andb_true_iff.
  destruct p; [done|]. split; [by intros [_ ?]|by intros [_ ?]].
Qed.

(** One call of [replaceAll] fills one placeholder throughout. *)
Lemma fill_step h v (f g : placeholder → option string) t :
  plain_template t →
  (∀ h' u, f h' = Some u → brace_free u) →
  dollar_free v →
  f h = None → g h = Some v → (∀ h', h' ≠ h → g h' = f h') →
  replaceAll (render f t) (placeholder_text h) v = render g t.
Proof.
  intros Ht Hf Hv Hfh Hgh Hg. unfold replaceAll. generalize "" as b.
  induction t as [|p t IH]; intros b.
  - destruct (placeholder_text_shape h) as [q ->]. apply scan_nil.
  - apply plain_template_cons in Ht as [Hp Ht].
    specialize (IH Ht). rewrite !render_cons.
    assert (Hpass : ∀ u, brace_free u →
              replaceAll_scan (placeholder_text h) v 0 b (u +:+ render f t)
              = u +:+ render g t).
    { intros u Hu. destruct (placeholder_text_shape h) as [q Hq].
      rewrite Hq, scan_pass by exact Hu. rewrite <- Hq. by rewrite IH. }
    destruct p as [s|h']; simpl piece_text.
    + by apply Hpass.
    + destruct (placeholder_eq_dec h' h) as [->|Hne].
      * rewrite Hfh, Hgh. simpl default.
        destruct (placeholder_text_shape h) as [q Hq].
        rewrite Hq, scan_match, get_substitution_plain by done.
        rewrite <- Hq. by rewrite IH.
      * rewrite (Hg h' Hne). destruct (f h') as [u|] eqn:Hu; simpl default.
        -- apply Hpass. by apply (Hf h').
        -- rewrite scan_other by done. by rewrite IH.
Qed.

Lemma truthy_text x : label_arg x → truthy x = bool_decide (is_Some (text_of x)).
Proof.
  destruct x as [[| | |v| |]|]; try done. intros _.
  unfold truthy, text_of. destruct (String.eqb v ""); simpl negb; symmetry.
  - apply bool_decide_eq_false_2. by intros [? ?].
  - by apply bool_decide_eq_true_2.
Qed.

Lemma text_of_some x v :
  text_of x = Some v → x = Some (Str v) ∧ v ≠ "".
Proof.
  destruct x as [[| | |u| |]|]; try done. unfold text_of.
  destruct (String.eqb u "") eqn:E; [done|]. intros [= ->].
  by apply String.eqb_neq in E.
Qed.

Lemma text_of_plain x v :
  label_arg x → text_of x = Some v → brace_free v ∧ dollar_free v.
Proof. intros Hx Hv. apply text_of_some in Hv as [-> _]. exact Hx. Qed.

(** One statement of [buildLabel]: the placeholder is filled when the
    argument is truthy. *)
Lemma fill_arg h x (f g : placeholder → option string) t :
  plain_template t →
  (∀ h' u, f h' = Some u → brace_free u) →
  label_arg x →
  f h = None → g h = text_of x → (∀ h', h' ≠ h → g h' = f h') →
  (if truthy x
   then replaceAll_val (Some (Str (render f t))) (placeholder_text h) x
   else Ok (Some (Str (render f t))))
  = Ok (Some (Str (render g t))).
Proof.
  intros Ht Hf Hx Hfh Hgh Hg. rewrite truthy_text by done.
  destruct (text_of x) as [v|] eqn:Hv.
  - rewrite bool_decide_eq_true_2 by eauto.
    destruct (text_of_plain x v Hx Hv) as [_ Hd].
    apply text_of_some in Hv as [-> _].
    unfold replaceAll_val. change (to_string (Some (Str v))) with v.
    do 3 f_equal. by apply fill_step.
  - rewrite bool_decide_eq_false_2 by (by intros [? ?]).
    do 3 f_equal. apply render_ext. intros h'.
    destruct (placeholder_eq_dec h' h) as [->|Hne]; [congruence|].
    symmetry. by apply Hg.
Qed.

Lemma label_fill_brace_free user role profile account accountName h u :
  label_arg user → label_arg role → label_arg profile → label_arg account →
  label_fill (text_of user) (text_of role) (text_of profile) (text_of account)
    accountName h = Some u →
  h ≠ PAccountName →
  brace_free u.
Proof.
  intros Hu Hr Hp Ha H Hne.
  destruct h; simpl in H; try done;
    eapply text_of_plain in H; try eassumption; tauto.
Qed.

(** Lines 127-131 for an account id without a record in [accounts]:
    what the read finds is [undefined], or a member of the prototype,
    which has no label; the account name stands. *)
Lemma account_entry_absent {B} (accounts : gmap string value) k
    (name : option value) (f : option value → res B) :
  accounts !! k = None →
  (entry ← lookup (Some (Obj accounts)) k;
   accountLabel ← (if slot_defined entry then
                     l ← slot_get entry "label";
                     Ok (if truthy l then l else name)
                   else Ok name);
   f accountLabel) = f name.
Proof. intros H. unfold lookup. rewrite H. by destruct (inherited k). Qed.

(** [buildLabel] on a template: the placeholders are filled one after
    the other. *)
Lemma buildLabel_run (t : list piece)
    (user profile role account accountName : option value)
    (accounts : gmap string value) :
  plain_template t →
  label_arg user → label_arg profile → label_arg role →
  label_arg account → label_arg accountName →
  (text_of accountName ≠ None → plain_account accounts (to_string account)) →
  buildLabel (Some (Str (render no_fill t))) user profile role account
    accountName (Some (Obj accounts))
  = Ok (Some (Str (render
         (label_fill (text_of user) (text_of role) (text_of profile)
            (text_of account)
            (account_label accounts (to_string account) (text_of accountName)))
         t))).
Proof.
  intros Ht Hu Hp Hr Ha Hn Hacc. unfold buildLabel. cbv zeta.
  set (f1 := label_fill (text_of user) None None None None).
  set (f2 := label_fill (text_of user) (text_of role) None None None).
  set (f3 := label_fill (text_of user) (text_of role) (text_of profile)
               None None).
  set (f4 := label_fill (text_of user) (text_of role) (text_of profile)
               (text_of account) None).
  assert (Hb : ∀ a b c d h u,
            label_fill (if a : bool then text_of user else None)
              (if b : bool then text_of role else None)
              (if c : bool then text_of profile else None)
              (if d : bool then text_of account else None) None h = Some u →
            brace_free u).
  { intros a b c d h u H.
    destruct h; simpl in H; try done;
      [destruct a|destruct b|destruct c|destruct d]; try done;
      eapply text_of_plain in H; try eassumption; tauto. }
  change "{{user}}" with (placeholder_text PUser).
  change "{{role}}" with (placeholder_text PRole).
  change "{{profile}}" with (placeholder_text PProfile).
  change "{{account}}" with (placeholder_text PAccount).
  change "{{accountName}}" with (placeholder_text PAccountName).
  rewrite (fill_arg PUser user no_fill f1 t); try done;
    [|by intros [] ?].
  rewrite res_bind_ok.
  rewrite (fill_arg PRole role f1 f2 t); try done;
    [|apply (Hb true false false false)|by intros [] ?].
  rewrite res_bind_ok.
  rewrite (fill_arg PProfile profile f2 f3 t); try done;
    [|apply (Hb true true false false)|by intros [] ?].
  rewrite res_bind_ok.
  rewrite (fill_arg PAccount account f3 f4 t); try done;
    [|apply (Hb true true true false)|by intros [] ?].
  rewrite res_bind_ok.
  rewrite truthy_text by done.
  destruct (text_of accountName) as [n|] eqn:Hname.
  - rewrite bool_decide_eq_true_2 by eauto.
    destruct (text_of_plain _ _ Hn Hname) as [Hnb Hnd].
    pose proof (text_of_some _ _ Hname) as [-> Hne].
    specialize (Hacc ltac:(done)).
    unfold plain_account in Hacc. unfold account_label.
    change (Some n ≫= ?k) with (k n). cbv beta.
    assert (Hstep : ∀ z, brace_free z → dollar_free z →
              replaceAll_val (Some (Str (render f4 t)))
                (placeholder_text PAccountName) (Some (Str z))
              = Ok (Some (Str (render
                     (label_fill (text_of user) (text_of role)
                        (text_of profile) (text_of account) (Some z)) t)))).
    { intros z Hzb Hzd. unfold replaceAll_val.
      change (to_string (Some (Str z))) with z. do 3 f_equal.
      apply fill_step; try done; [apply (Hb true true true true)|by intros [] ?]. }
    destruct (accounts !! to_string account) as [entry|] eqn:Hentry;
      [|by rewrite (account_entry_absent _ _ _ _ Hentry), Hstep].
    rewrite (lookup_own _ _ _ Hentry), res_bind_ok.
    cbn [slot_defined slot_get].
    destruct entry as [| | | | |e]; try (exfalso; exact Hacc).
    rewrite get_obj, res_bind_ok by exact eq_refl.
    destruct (e !! "label") as [lbl|];
      [|unfold truthy; by rewrite res_bind_ok, Hstep].
    destruct lbl as [| | |l| |]; try (exfalso; exact Hacc).
    + unfold truthy. by rewrite res_bind_ok, Hstep.
    + destruct Hacc as [Hlb Hld]. unfold truthy.
      destruct (String.eqb l ""); simpl negb; cbv iota;
        by rewrite res_bind_ok, Hstep.
  - rewrite bool_decide_eq_false_2 by (by intros [? ?]).
    do 3 f_equal.
Qed.

(** X2.  On a template made of brace-free texts and placeholders, with
    arguments that are [undefined], [null] or texts without brace and
    dollar sign, [buildLabel] returns the template with every placeholder
    filled whose argument is a non-empty text, and the other placeholders
    left as they are.  [{{accountName}}] is filled by the label of the
    account's record in [accounts] when that record has a non-empty one,
    and by the account name otherwise. *)
Theorem buildLabel_fills (t : list piece)
    (user profile role account accountName : option value)
    (accounts : gmap string value) :
  plain_template t →
  label_arg user → label_arg profile → label_arg role →
  label_arg account → label_arg accountName →
  (text_of accountName ≠ None → plain_account accounts (to_string account)) →
  buildLabel (Some (Str (render no_fill t))) user profile role account
    accountName (Some (Obj accounts))
  = Ok (Some (Str (render
         (label_fill (text_of user) (text_of role) (text_of profile)
            (text_of account)
            (account_label accounts (to_string account) (text_of accountName)))
         t))).
Proof. apply buildLabel_run. Qed.

Lemma buildLabel_fills_witness :
  buildLabel
    (Some (Str "{{user}}/{{profile}} @ {{accountName}} ({{account}}) as {{role}}"))
    (Some (Str "carol")) (Some (Str "Admin")) (Some Null)
    (Some (Str "111111111111")) (Some (Str "production"))
    (Sample.custom !! "accounts")
  = Ok (Some (Str "carol/Admin @ prod (111111111111) as {{role}}")).
Proof.
  apply (buildLabel_fills Fixture.long_template
           (Some (Str "carol")) (Some (Str "Admin")) (Some Null)
           (Some (Str "111111111111")) (Some (Str "production"))).
  - reflexivity.
  - split; reflexivity.
  - split; reflexivity.
  - exact I.
  - split; reflexivity.
  - split; reflexivity.
  - intros _. split; reflexivity.
Defined.

Lemma or_text a b :
  label_arg a → label_arg b →
  label_arg (if truthy a then a else b)
  ∧ text_of (if truthy a then a else b)
    = match text_of a with Some d => Some d | None => text_of b end.
Proof.
  intros Ha Hb. rewrite truthy_text by done.
  destruct (text_of a) as [d|] eqn:Hd.
  - by rewrite bool_decide_eq_true_2 by eauto.
  - by rewrite bool_decide_eq_false_2 by (by intros [? ?]).
Qed.

(** X3.  [sessionLabelSso] names a profile of another application by its
    custom label, or by its profile name when it has none, whatever the
    template.  For a profile of an AWS account it fills the template of
    the user: [{{user}}] with the display name or else the subject,
    [{{profile}}] with the custom label or else the profile name,
    [{{account}}] with the account id, [{{accountName}}] with the label
    the user gave the account or else the account name; [{{role}}] is
    never filled. *)
Theorem sessionLabelSso_fills :
  (∀ (pm inner pc : gmap string value) user,
     pm !! "applicationName" ≠ Some (Str "AWS Account") →
     pm !! "profile" = Some (Obj inner) →
     inner !! "custom" = Some (Obj pc) →
     sessionLabelSso (Some (Obj pm)) user
     = Ok (if truthy (pc !! "label") then pc !! "label" else inner !! "name"))
  ∧ (∀ (pm inner pc sm um uc accounts : gmap string value) (t : list piece),
       pm !! "applicationName" = Some (Str "AWS Account") →
       pm !! "profile" = Some (Obj inner) →
       inner !! "custom" = Some (Obj pc) →
       pm !! "searchMetadata" = Some (Obj sm) →
       um !! "custom" = Some (Obj uc) →
       uc !! "sessionLabelSso" = Some (Str (render no_fill t)) →
       uc !! "accounts" = Some (Obj accounts) →
       plain_template t →
       label_arg (uc !! "displayName") → label_arg (um !! "subject") →
       label_arg (pc !! "label") → label_arg (inner !! "name") →
       label_arg (sm !! "AccountId") → label_arg (sm !! "AccountName") →
       (text_of (sm !! "AccountName") ≠ None →
        plain_account accounts (to_string (sm !! "AccountId"))) →
       sessionLabelSso (Some (Obj pm)) (Some (Obj um))
       = Ok (Some (Str (render
           (label_fill
              (match text_of (uc !! "displayName") with
               | Some d => Some d
               | None => text_of (um !! "subject")
               end)
              None
              (match text_of (pc !! "label") with
               | Some l => Some l
               | None => text_of (inner !! "name")
               end)
              (text_of (sm !! "AccountId"))
              (account_label accounts (to_string (sm !! "AccountId"))
                 (text_of (sm !! "AccountName"))))
           t)))).
Proof.
  split.
  - intros pm inner pc user Happ Hp Hc. unfold sessionLabelSso. js_run.
    rewrite (is_str_false _ _ Happ). simpl negb. cbv iota. js_run.
    destruct (truthy (pc !! "label")); [done|]. by js_run.
  - intros pm inner pc sm um uc accounts t Happ Hp Hc Hsm Hu Ht Hacc Hpl
      Hdn Hsub Hlbl Hname Hid Han Hpa.
    unfold sessionLabelSso. js_run.
    rewrite (proj2 (is_str_true "AWS Account" _) eq_refl).
    simpl negb. cbv iota. js_run.
    destruct (or_text _ _ Hdn Hsub) as [Hua Hut].
    destruct (or_text _ _ Hlbl Hname) as [Hpa' Hpt].
    assert (Huser : (if truthy (uc !! "displayName")
                     then Ok (uc !! "displayName")
                     else Ok (um !! "subject"))
                    = Ok (if truthy (uc !! "displayName")
                          then uc !! "displayName" else um !! "subject")).
    { by destruct (truthy (uc !! "displayName")). }
    assert (Hprofile : (if truthy (pc !! "label")
                        then Ok (pc !! "label")
                        else Ok (inner !! "name"))
                       = Ok (if truthy (pc !! "label")
                             then pc !! "label" else inner !! "name")).
    { by destruct (truthy (pc !! "label")). }
    rewrite Huser, res_bind_ok. js_run.
    rewrite buildLabel_run; try done.
    by rewrite Hut, Hpt.
Qed.

Lemma sessionLabelSso_fills_witness :
  sessionLabelSso (Some (Obj (Fixture.customized "p-default" "Admin")))
    (Some (Obj Fixture.carol))
  = Ok (Some (Str "carol@example.org/Admin @ 111111111111")).
Proof.
  etrans.
  { apply (proj2 sessionLabelSso_fills
           (Fixture.customized "p-default" "Admin")
           (list_to_map [("id", Str "p-default"); ("name", Str "Admin");
                         ("custom", Obj Fixture.block)])
           Fixture.block
           (list_to_map [("AccountId", Str "111111111111");
                         ("AccountName", Str "prod")])
           Fixture.carol (Sample.custom ∪ defaultCustom_init)
           (list_to_map [("111111111111", Obj (list_to_map [
               ("label", Str "prod"); ("color", Str "ff0000")]))])
           Fixture.sso_template).
    - reflexivity.
    - reflexivity.
    - reflexivity.
    - reflexivity.
    - reflexivity.
    - reflexivity.
    - reflexivity.
    - reflexivity.
    - split; reflexivity.
    - split; reflexivity.
    - exact I.
    - split; reflexivity.
    - split; reflexivity.
    - split; reflexivity.
    - intros _. split; reflexivity. }
  reflexivity.
Defined.

(** ** The registry of IAM logins *)

Lemma local_write_local k v w : local (write LocalArea k v w) = <[k := v]> (local w).
Proof. reflexivity. Qed.

Lemma sync_write_local k v w : sync (write LocalArea k v w) = sync w.
Proof. reflexivity. Qed.

Lemma local_write_sync k v w : local (write SyncArea k v w) = local w.
Proof. reflexivity. Qed.

Lemma sync_write_sync k v w : sync (write SyncArea k v w) = <[k := v]> (sync w).
Proof. reflexivity. Qed.

(** X4.  [queueIamLogin] files the role under its [profileId] (as a
    property key, which is not [__proto__]) in the registry of logins,
    keeps every other entry and stamps the registry; a later
    [loadIamLogins] returns exactly that.  Nothing else in storage
    changes.  The stamp is written last, under [updatedAt]: a role whose
    [profileId] is [updatedAt] is lost to it. *)
Theorem queueIamLogin_registers (w : world) (role logins : gmap string value) :
  default (Obj ∅) (local w !! (config_name w +:+ "-iam-logins")) = Obj logins →
  let key := to_string (role !! "profileId") in
  key ≠ "__proto__" →
  let registry := <["updatedAt" := Num (now w)]> (<[key := Obj role]> logins) in
  ∃ w',
    queueIamLogin (Some (Obj role)) w = (Ok tt, w') ∧
    loadIamLogins w' = (Ok (Obj registry), w') ∧
    (key ≠ "updatedAt" → registry !! key = Some (Obj role)) ∧
    (key = "updatedAt" → registry !! key = Some (Num (now w))) ∧
    (∀ k, k ≠ key → k ≠ "updatedAt" → registry !! k = logins !! k) ∧
    sync w' = sync w ∧
    (∀ k, k ≠ config_name w +:+ "-iam-logins" → local w' !! k = local w !! k).
Proof.
  intros Hdoc key Hproto registry.
  set (cell := config_name w +:+ "-iam-logins").
  exists (write LocalArea cell (Obj registry) (tick w)).
  split; [|split; [|split; [|split; [|split; [|split]]]]].
  - unfold queueIamLogin.
    rewrite (bind_run _ _ _ _ _ (loadIamLogins_run w)).
    apply String.eqb_neq in Hproto.
    rewrite Hdoc. js_run. unfold put.
    by rewrite (fire_ok _ _ _ (saveData_obj _ _ _ _ (dash_key _ _))).
  - rewrite loadIamLogins_run. rewrite config_name_write, config_name_tick.
    fold cell. by rewrite local_write_local, lookup_insert_eq.
  - intros Hne. subst registry. by rewrite lookup_insert_ne, lookup_insert_eq.
  - intros Heq. subst registry. by rewrite Heq, lookup_insert_eq.
  - intros k Hk Hs. subst registry. by rewrite !lookup_insert_ne.
  - reflexivity.
  - intros k Hk. by rewrite local_write_local, lookup_insert_ne.
Qed.

Lemma queueIamLogin_registers_witness :
  ∃ w' registry,
    queueIamLogin
      (Some (Obj (list_to_map [
         ("profileId", Str "p-green"); ("roleName", Str "Deploy");
         ("accountId", Str "444444444444")])))
      Sample.stored_world = (Ok tt, w') ∧
    loadIamLogins w' = (Ok (Obj registry), w') ∧
    registry !! "p-green"
      = Some (Obj (list_to_map [
          ("profileId", Str "p-green"); ("roleName", Str "Deploy");
          ("accountId", Str "444444444444")])) ∧
    registry !! "p-bob" = Sample.logins_doc !! "p-bob".
Proof.
  destruct (queueIamLogin_registers Sample.stored_world
              (list_to_map [
                 ("profileId", Str "p-green"); ("roleName", Str "Deploy");
                 ("accountId", Str "444444444444")])
              Sample.logins_doc eq_refl)
    as (w' & Hq & Hl & Hkey & _ & Hrest & _).
  - discriminate.
  - eexists w', _. split; [exact Hq|]. split; [exact Hl|]. split.
    + apply Hkey. discriminate.
    + apply Hrest; discriminate.
Defined.

(** X5.  [removeIamLogin] takes the entry of a profile id out of the
    registry, keeps the other entries and stamps the registry anew; for
    an id that has no entry only the stamp changes.  Nothing else in
    storage changes. *)
Theorem removeIamLogin_forgets (w : world) (profileId : string)
    (logins : gmap string value) :
  default (Obj ∅) (local w !! (config_name w +:+ "-iam-logins")) = Obj logins →
  let registry := <["updatedAt" := Num (now w)]> (delete profileId logins) in
  ∃ w',
    removeIamLogin profileId w = (Ok tt, w') ∧
    loadIamLogins w' = (Ok (Obj registry), w') ∧
    (profileId ≠ "updatedAt" → registry !! profileId = None) ∧
    (∀ k, k ≠ profileId → k ≠ "updatedAt" → registry !! k = logins !! k) ∧
    (logins !! profileId = None →
     registry = <["updatedAt" := Num (now w)]> logins) ∧
    sync w' = sync w ∧
    (∀ k, k ≠ config_name w +:+ "-iam-logins" → local w' !! k = local w !! k).
Proof.
  intros Hdoc registry.
  set (cell := config_name w +:+ "-iam-logins").
  exists (write LocalArea cell (Obj registry) (tick w)).
  split; [|split; [|split; [|split; [|split; [|split]]]]].
  - unfold removeIamLogin.
    rewrite (bind_run _ _ _ _ _ (loadIamLogins_run w)).
    rewrite Hdoc. unfold delete_prop. js_run.
    by rewrite saveData_obj by apply dash_key.
  - rewrite loadIamLogins_run. rewrite config_name_write, config_name_tick.
    fold cell. by rewrite local_write_local, lookup_insert_eq.
  - intros Hne. subst registry. by rewrite lookup_insert_ne, lookup_delete_eq.
  - intros k Hk Hs. subst registry.
    by rewrite lookup_insert_ne, lookup_delete_ne.
  - intros Hnone. subst registry. by rewrite delete_id.
  - reflexivity.
  - intros k Hk. by rewrite local_write_local, lookup_insert_ne.
Qed.

Lemma removeIamLogin_forgets_witness :
  ∃ w' registry,
    removeIamLogin "p-default" Sample.stored_world = (Ok tt, w') ∧
    loadIamLogins w' = (Ok (Obj registry), w') ∧
    registry !! "p-default" = None ∧
    registry !! "p-bob" = Sample.logins_doc !! "p-bob".
Proof.
  destruct (removeIamLogin_forgets Sample.stored_world "p-default"
              Sample.logins_doc eq_refl)
    as (w' & Hq & Hl & Hkey & Hrest & _).
  eexists w', _. split; [exact Hq|]. split; [exact Hl|]. split.
  - apply Hkey. discriminate.
  - apply Hrest; discriminate.
Defined.

(** ** Settings: saving, importing, resetting *)

(** X6.  [saveSettings] of an object followed by [loadSettings] returns
    the object with the stamp of the save under [updatedAt] and the
    default under every key the object lacks. *)
Theorem saveSettings_loadSettings (w : world) (settings : gmap string value) :
  ∃ w' loaded,
    saveSettings (Some (Obj settings)) w = (Ok tt, w') ∧
    loadSettings w' = (Ok (Obj loaded), w') ∧
    loaded !! "updatedAt" = Some (Num (now w)) ∧
    (∀ k, k ≠ "updatedAt" →
          loaded !! k = match settings !! k with
                        | Some v => Some v
                        | None => defaultSettings w !! k
                        end) ∧
    local w' = local w.
Proof.
  set (doc := <["updatedAt" := Num (now w)]> settings).
  set (w' := write SyncArea (config_name w +:+ "-settings") (Obj doc) (tick w)).
  exists w', (doc ∪ defaultSettings w). split; [|split; [|split; [|split]]].
  - by rewrite saveSettings_some.
  - apply (loadSettings_run w' (Some (Obj doc)) doc); [|done].
    subst w'. by rewrite sync_write_sync, lookup_insert_eq.
  - rewrite lookup_backfilled. subst doc. by rewrite lookup_insert_eq.
  - intros k Hk. rewrite lookup_backfilled. subst doc.
    by rewrite lookup_insert_ne.
  - reflexivity.
Qed.

Lemma bind_throw {A B} (m : M A) (f : A → M B) w e w' :
  m w = (Throw e, w') → (m ≫= f) w = (Throw e, w').
Proof. intros H. unfold mbind, M_bind. by rewrite H. Qed.

(** The loop that fills in defaults cannot write to a number, a boolean
    or a string. *)
Lemma backfill_throws (defaults : gmap string value) (v : value) :
  defaults ≠ ∅ →
  (∀ k, is_Some (defaults !! k) →
        has_own (Some v) k = Ok false
        ∧ ∀ d, set_prop (Some v) k (Some d) = Throw TypeError) →
  backfill defaults v = Throw TypeError.
Proof.
  intros Hne Hkey. unfold backfill.
  assert (H : (∀ k, is_Some (defaults !! k) →
                    has_own (Some v) k = Ok false
                    ∧ ∀ d, set_prop (Some v) k (Some d) = Throw TypeError) →
              (defaults = ∅ → map_fold backfill_key (Ok v) defaults = Ok v)
              ∧ (defaults ≠ ∅ →
                 map_fold backfill_key (Ok v) defaults = Throw TypeError)).
  { apply (map_fold_weak_ind
             (λ r d, (∀ k, is_Some (d !! k) →
                           has_own (Some v) k = Ok false
                           ∧ ∀ x, set_prop (Some v) k (Some x)
                                  = Throw TypeError) →
                     (d = ∅ → r = Ok v) ∧ (d ≠ ∅ → r = Throw TypeError))).
    - intros _. by split.
    - intros k d m r Hk IH Hm. split.
      { intros H. by apply insert_non_empty in H. }
      intros _. destruct IH as [IH0 IH1].
      { intros j Hj. apply Hm. destruct (decide (j = k)) as [->|Hjk].
        - rewrite lookup_insert_eq. eauto.
        - by rewrite lookup_insert_ne. }
      destruct (Hm k) as [Hown Hset]; [rewrite lookup_insert_eq; eauto|].
      destruct (decide (m = ∅)) as [Hm0|Hm1].
      + rewrite (IH0 Hm0). unfold backfill_key.
        by rewrite res_bind_ok, Hown, res_bind_ok, Hset.
      + by rewrite (IH1 Hm1). }
  by apply H.
Qed.

Lemma backfill_settings_primitive (e : value) :
  (∃ b, e = Bool b) ∨ (∃ n, e = Num n) ∨ (∃ s, e = Str s) →
  backfill defaultSettings_init e = Throw TypeError.
Proof.
  intros He. apply backfill_throws.
  - intros H. apply (f_equal (λ m : gmap string value, m !! "iconColor")) in H.
    discriminate.
  - intros k [x Hx].
    unfold defaultSettings_init in Hx. simpl list_to_map in Hx.
    repeat (rewrite lookup_insert in Hx;
            destruct (decide (_ = k)) as [<-|_];
            [by destruct He as [[b ->]|[[n ->]|[s ->]]]|]).
    by rewrite lookup_empty in Hx.
Qed.

(** X7.  [importUserConfig] does not look at what [cfg.extension] is:
    given a boolean, a number or a string it stores that value as the
    settings and returns [true]; from then on [loadSettings], and with
    it [loadData], fails with a [TypeError], since the defaults cannot be
    written into such a value. *)
Theorem importUserConfig_accepts_primitive (w : world) (userId : string)
    (cfg : gmap string value) (u e : value) :
  defaultSettings w = defaultSettings_init →
  cfg !! "user" = Some u →
  cfg !! "extension" = Some e →
  (∃ b, e = Bool b) ∨ (∃ n, e = Num n) ∨ (∃ s, e = Str s) →
  ∃ w',
    importUserConfig userId (Some (Obj cfg)) w = (Ok true, w') ∧
    sync w' !! (config_name w +:+ "-settings") = Some e ∧
    loadSettings w' = (Throw TypeError, w') ∧
    loadData w' = (Throw TypeError, w').
Proof.
  intros Hds Hu He Hprim.
  pose proof (importUserConfig_present userId cfg u e w Hu He) as Hrun.
  cbv zeta in Hrun.
  assert (Hget : get (Some e) "enableSync" = Ok None).
  { by destruct Hprim as [[b ->]|[[n ->]|[s ->]]]. }
  assert (Hdoc : document e (now w) = e).
  { by destruct Hprim as [[b ->]|[[n ->]|[s ->]]]. }
  assert (Hafter : after_stamp e w = w).
  { by destruct Hprim as [[b ->]|[[n ->]|[s ->]]]. }
  rewrite Hget, Hdoc, Hafter in Hrun.
  set (w1 := write SyncArea (config_name w +:+ "-settings") e w) in *.
  set (w' := write (storage_of None)
               (config_name w +:+ "-custom-" +:+ userId)
               (document u (now w1)) (after_stamp u w1)) in *.
  assert (Hsync : sync w' !! (config_name w +:+ "-settings") = Some e).
  { subst w'. change (storage_of None) with LocalArea.
    rewrite sync_write_local.
    change (sync (after_stamp u w1)) with (area_of SyncArea (after_stamp u w1)).
    rewrite area_of_after_stamp. subst w1.
    by rewrite area_of_write, lookup_insert_eq. }
  assert (Hname : config_name w' = config_name w).
  { subst w' w1. rewrite config_name_write.
    unfold after_stamp. destruct (typeof_object (Some u));
      by rewrite ?config_name_tick, config_name_write. }
  assert (Hds' : defaultSettings w' = defaultSettings_init).
  { subst w' w1. rewrite defaultSettings_write.
    unfold after_stamp. destruct (typeof_object (Some u));
      by rewrite ?defaultSettings_tick, defaultSettings_write. }
  assert (Hload : loadSettings w' = (Throw TypeError, w')).
  { unfold loadSettings. apply bind_throw.
    unfold loadSettings_ref. js_run.
    change (area_of SyncArea w') with (sync w').
    rewrite ?Hname, ?Hsync, ?Hds'. simpl default.
    by rewrite backfill_settings_primitive. }
  exists w'. split; [done|]. split; [done|]. split; [done|].
  unfold loadData. rewrite (bind_run _ _ _ _ _ (loadIamLogins_run w')).
  by apply bind_throw.
Qed.

Lemma importUserConfig_accepts_primitive_witness :
  ∃ w',
    importUserConfig "alice"
      (Some (Obj (list_to_map [
         ("user", Obj Sample.custom); ("extension", Num 5)])))
      Sample.old_world = (Ok true, w') ∧
    loadData w' = (Throw TypeError, w').
Proof.
  destruct (importUserConfig_accepts_primitive Sample.old_world "alice"
              (list_to_map [("user", Obj Sample.custom); ("extension", Num 5)])
              (Obj Sample.custom) (Num 5))
    as (w' & Hrun & _ & _ & Hload).
  - reflexivity.
  - reflexivity.
  - reflexivity.
  - right. left. by exists 5%Z.
  - exists w'. split; [exact Hrun|exact Hload].
Defined.

(** X8.  After [resetData] both storage areas are empty, and [loadData]
    returns the aggregate of a fresh installation: the default settings,
    no users, no application profiles, an empty registry of logins and
    the stamp [0]; on it [getDefaultUser] and [findUser] return
    [undefined]. *)
Theorem resetData_then_loadData (w : world) :
  let fresh := {| d_updatedAt := Some (Num 0);
                  d_appProfiles := [];
                  d_settings := Obj (defaultSettings w);
                  d_users := [];
                  d_iamLogins := Obj ∅ |} in
  ∃ w',
    resetData w = (Ok tt, w') ∧
    sync w' = ∅ ∧ local w' = ∅ ∧
    loadData w' = (Ok fresh, w') ∧
    getDefaultUser fresh = Ok None ∧
    findUser fresh = Ok None.
Proof.
  intros fresh. exists (with_area LocalArea ∅ (with_area SyncArea ∅ w)).
  split; [done|]. split; [done|]. split; [done|]. split; [|split].
  - set (w' := with_area LocalArea ∅ (with_area SyncArea ∅ w)).
    unfold loadData. rewrite (bind_run _ _ _ _ _ (loadIamLogins_run w')).
    rewrite (bind_run _ _ _ _ _
               (loadSettings_run w' None (defaultSettings w) eq_refl eq_refl)).
    rewrite (idemp_L (∪)). js_run. unfold loadUsers. js_run.
    reflexivity.
  - unfold getDefaultUser. cbv zeta. simpl d_settings. js_run.
    by destruct (is_str "lastUserId" (defaultSettings w !! "defaultUser")).
  - unfold findUser, active_user_id. simpl d_users. simpl d_settings.
    by js_run.
Qed.

(** ** Looking users and profiles up *)

Lemma find_res_first {A} (f : A → res bool) pre x post :
  Forall (λ y, f y = Ok false) pre → f x = Ok true →
  find_res f (pre ++ x :: post)%list = Ok (Some x).
Proof.
  intros Hpre Hx. induction Hpre as [|y pre Hy _ IH]; simpl.
  - by rewrite Hx.
  - by rewrite Hy.
Qed.

Lemma filter_res_total {A} (f : A → res bool) l :
  Forall (λ y, ∃ b, f y = Ok b) l → ∃ ys, filter_res f l = Ok ys.
Proof.
  induction 1 as [|y l [b Hy] _ [ys IH]]; [by exists []|].
  rewrite filter_res_cons, Hy, res_bind_ok, IH. by eexists.
Qed.

Lemma filter_res_first {A} (f : A → res bool) pre x post :
  Forall (λ y, f y = Ok false) pre → f x = Ok true →
  Forall (λ y, ∃ b, f y = Ok b) post →
  ∃ ys, filter_res f (pre ++ x :: post)%list = Ok (x :: ys).
Proof.
  intros Hpre Hx Hpost. destruct (filter_res_total f post Hpost) as [ys Hys].
  exists ys. induction Hpre as [|y pre Hy _ IH].
  - simpl app. by rewrite filter_res_cons, Hx, res_bind_ok, Hys.
  - simpl app. by rewrite filter_res_cons, Hy, res_bind_ok, IH.
Qed.

Lemma filter_res_throw {A} (f : A → res bool) pre x post e :
  Forall (λ y, ∃ b, f y = Ok b) pre → f x = Throw e →
  filter_res f (pre ++ x :: post)%list = Throw e.
Proof.
  intros Hpre Hx. induction Hpre as [|y pre [b Hy] _ IH]; simpl app.
  - by rewrite filter_res_cons, Hx.
  - by rewrite filter_res_cons, Hy, res_bind_ok, IH.
Qed.

Lemma user_id_test uid u :
  user_id_is uid u →
  (userId ← get (Some u) "userId"; strict_eq userId (Some (Str uid))) = Ok true.
Proof.
  unfold user_id_is. intros ->. rewrite res_bind_ok, strict_eq_str.
  by rewrite (proj2 (is_str_true uid _) eq_refl).
Qed.

Lemma user_id_test_not uid u :
  user_id_is_not uid u →
  (userId ← get (Some u) "userId"; strict_eq userId (Some (Str uid))) = Ok false.
Proof.
  intros (x & -> & Hx). by rewrite res_bind_ok, strict_eq_str, is_str_false.
Qed.

Lemma user_id_test_total uid u :
  u ≠ Null →
  ∃ b, (userId ← get (Some u) "userId"; strict_eq userId (Some (Str uid))) = Ok b.
Proof.
  intros Hu. destruct (get_not_null u "userId" eq_refl eq_refl eq_refl Hu) as [x ->].
  rewrite res_bind_ok, strict_eq_str. by eexists.
Qed.

(** X9.  When no user of the list owns the profile,
    [findUserByProfileId] returns the first user of the list, and
    [undefined] on the empty list.  [navSelectedProfile] then fails with
    a [TypeError] before it has asked anything of the browser: with
    [showAllProfiles] on, a profile its user does not own and an empty
    list of users, it reads a property of [undefined]. *)
Theorem findUserByProfileId_no_owner :
  (∀ profileId users,
     Forall (λ u, owns_profile profileId (Some u) = Ok false) users →
     findUserByProfileId profileId users = Ok (head users))
  ∧ (∀ label profile user settings showAll prof id w,
       get settings "showAllProfiles" = Ok showAll →
       truthy showAll = true →
       get profile "profile" = Ok prof →
       get prof "id" = Ok id →
       owns_profile id user = Ok false →
       navSelectedProfile label profile user [] settings w
       = (Throw TypeError, w)).
Proof.
  split.
  - intros profileId users Hall. unfold findUserByProfileId.
    by apply findUserByProfileId_fold_after.
  - intros label profile user settings showAll prof id w Hs Ht Hp Hid Hown.
    unfold navSelectedProfile, navSelectedProfile_user.
    rewrite Hs, res_bind_ok, Ht, Hp, res_bind_ok, Hid, res_bind_ok.
    rewrite Hown, res_bind_ok. reflexivity.
Qed.

Lemma findUserByProfileId_no_owner_witness :
  findUserByProfileId (Some (Str "p-unknown"))
    [Sample.owner "alice"; Sample.owner "bob"; Sample.stranger]
  = Ok (Some (Sample.owner "alice")).
Proof.
  apply (proj1 findUserByProfileId_no_owner (Some (Str "p-unknown"))
           [Sample.owner "alice"; Sample.owner "bob"; Sample.stranger]).
  repeat constructor.
Defined.

(** X10.  When a user has the id the settings ask for, [getDefaultUser]
    returns the first such user of the list: the user whose id is
    [lastUserId] when [defaultUser] is ['lastUserId'], and the user whose
    id is [defaultUser] otherwise, whatever [lastUserId] is. *)
Theorem getDefaultUser_finds :
  (∀ data (m : gmap string value) uid pre u post,
     d_settings data = Obj m →
     m !! "defaultUser" = Some (Str "lastUserId") →
     m !! "lastUserId" = Some (Str uid) →
     d_users data = (pre ++ Obj u :: post)%list →
     Forall (user_id_is_not uid) pre →
     user_id_is uid (Obj u) →
     getDefaultUser data = Ok (Some (Obj u)))
  ∧ (∀ data (m : gmap string value) id pre u post,
       d_settings data = Obj m →
       m !! "defaultUser" = Some (Str id) →
       id ≠ "lastUserId" →
       d_users data = (pre ++ u :: post)%list →
       Forall (user_id_is_not id) pre →
       user_id_is id u →
       Forall (λ v, v ≠ Null) post →
       getDefaultUser data = Ok (Some u)).
Proof.
  split.
  - intros data m uid pre u post Hs Hd Hl Hu Hpre Hid.
    unfold getDefaultUser. cbv zeta. rewrite Hs, Hu. js_run.
    rewrite (proj2 (is_str_true "lastUserId" _) eq_refl). cbv iota.
    assert (Htest : ∀ v x, get (Some v) "userId" = Ok x →
              (userId ← get (Some v) "userId";
               lastUserId ← Ok (Some (Str uid));
               strict_eq userId lastUserId) = Ok (is_str uid x)).
    { intros v x Hx. rewrite Hx, !res_bind_ok. apply strict_eq_str. }
    rewrite (find_res_first _ pre (Obj u) post).
    + by rewrite res_bind_ok.
    + eapply Forall_impl; [exact Hpre|]. intros v (x & Hx & Hne). cbv beta.
      by rewrite (Htest v x Hx), is_str_false.
    + cbv beta. rewrite (Htest _ _ Hid).
      by rewrite (proj2 (is_str_true uid _) eq_refl).
  - intros data m id pre u post Hs Hd Hne Hu Hpre Hid Hpost.
    unfold getDefaultUser. cbv zeta. rewrite Hs, Hu. js_run.
    rewrite is_str_false by (intros [= ?]; done). cbv iota.
    assert (Htest : ∀ v x, get (Some v) "userId" = Ok x →
              (userId ← get (Some v) "userId";
               defaultUser ← Ok (Some (Str id));
               strict_eq userId defaultUser) = Ok (is_str id x)).
    { intros v x Hx. rewrite Hx, !res_bind_ok. apply strict_eq_str. }
    destruct (filter_res_first
                (λ u0, userId ← get (Some u0) "userId";
                       defaultUser ← Ok (Some (Str id));
                       strict_eq userId defaultUser)
                pre u post) as [ys Hys].
    + eapply Forall_impl; [exact Hpre|]. intros v (x & Hx & Hx'). cbv beta.
      by rewrite (Htest v x Hx), is_str_false.
    + rewrite (Htest _ _ Hid). by rewrite (proj2 (is_str_true id _) eq_refl).
    + eapply Forall_impl; [exact Hpost|]. intros v Hv. cbv beta.
      destruct (get_not_null v "userId" eq_refl eq_refl eq_refl Hv) as [x Hx].
      rewrite (Htest v x Hx). by eexists.
    + by rewrite Hys, res_bind_ok.
Qed.

Lemma getDefaultUser_finds_witness :
  getDefaultUser Fixture2.aggregate = Ok (Some Sample.alice_loaded).
Proof.
  apply (proj1 getDefaultUser_finds Fixture2.aggregate Fixture2.last_alice
           "alice" [Sample.bob_loaded]
           (<["custom" := Obj (Sample.custom ∪ defaultCustom_init)]> Sample.alice)
           []).
  - reflexivity.
  - reflexivity.
  - reflexivity.
  - reflexivity.
  - constructor; [|constructor]. eexists. split; [reflexivity|discriminate].
  - reflexivity.
Defined.

(** X11.  [findUser] returns the only user there is, whatever
    [lastUserId] says; with several users (or none) it returns the first
    one whose id is [lastUserId], and [undefined] when no user has that
    id. *)
Theorem findUser_active :
  (∀ data u uid,
     d_users data = [u] → user_id_is uid u →
     findUser data = Ok (Some u))
  ∧ (∀ data (m : gmap string value) uid pre u post,
       d_settings data = Obj m →
       m !! "lastUserId" = Some (Str uid) →
       d_users data = (pre ++ u :: post)%list →
       length (pre ++ u :: post)%list ≠ 1 →
       Forall (user_id_is_not uid) pre →
       user_id_is uid u →
       Forall (λ v, v ≠ Null) post →
       findUser data = Ok (Some u))
  ∧ (∀ data (m : gmap string value) uid,
       d_settings data = Obj m →
       m !! "lastUserId" = Some (Str uid) →
       length (d_users data) ≠ 1 →
       Forall (user_id_is_not uid) (d_users data) →
       findUser data = Ok None).
Proof.
  assert (Hactive : ∀ data (m : gmap string value),
            d_settings data = Obj m → length (d_users data) ≠ 1 →
            active_user_id data = Ok (m !! "lastUserId")).
  { intros data m Hs Hlen. unfold active_user_id. rewrite Hs.
    by destruct (d_users data) as [|? [|? ?]]. }
  split; [|split].
  - intros data u uid Hu Hid. unfold findUser, active_user_id. rewrite Hu.
    rewrite Hid, res_bind_ok.
    rewrite filter_res_cons, (user_id_test _ _ Hid), res_bind_ok.
    reflexivity.
  - intros data m uid pre u post Hs Hl Hu Hlen Hpre Hid Hpost.
    unfold findUser. rewrite (Hactive data m Hs) by (by rewrite Hu).
    rewrite Hl, res_bind_ok, Hu.
    destruct (filter_res_first
                (λ u0, userId ← get (Some u0) "userId";
                       strict_eq userId (Some (Str uid)))
                pre u post) as [ys Hys].
    + eapply Forall_impl; [exact Hpre|]. intros v Hv.
      by apply user_id_test_not.
    + by apply user_id_test.
    + eapply Forall_impl; [exact Hpost|]. intros v Hv.
      by apply user_id_test_total.
    + by rewrite Hys, res_bind_ok.
  - intros data m uid Hs Hl Hlen Hall.
    unfold findUser. rewrite (Hactive data m Hs Hlen), Hl, res_bind_ok.
    rewrite filter_res_none; [done|].
    eapply Forall_impl; [exact Hall|]. intros v Hv.
    by apply user_id_test_not.
Qed.

Lemma findUser_active_witness :
  findUser Fixture2.aggregate = Ok (Some Sample.alice_loaded).
Proof.
  apply (proj1 (proj2 findUser_active) Fixture2.aggregate Fixture2.last_alice
           "alice" [Sample.bob_loaded] Sample.alice_loaded []).
  - reflexivity.
  - reflexivity.
  - reflexivity.
  - discriminate.
  - constructor; [|constructor]. eexists. split; [reflexivity|discriminate].
  - reflexivity.
  - constructor.
Defined.

Lemma profile_id_test pid ap :
  profile_id_is pid ap →
  (p ← get (Some ap) "profile"; id ← get p "id";
   strict_eq id (Some (Str pid))) = Ok true.
Proof.
  intros (p & -> & Hid). rewrite res_bind_ok, Hid, res_bind_ok, strict_eq_str.
  by rewrite (proj2 (is_str_true pid _) eq_refl).
Qed.

Lemma profile_id_test_not pid ap :
  profile_id_is_not pid ap →
  (p ← get (Some ap) "profile"; id ← get p "id";
   strict_eq id (Some (Str pid))) = Ok false.
Proof.
  intros (p & x & -> & Hid & Hx).
  by rewrite res_bind_ok, Hid, res_bind_ok, strict_eq_str, is_str_false.
Qed.

Lemma profile_id_test_total pid ap :
  profile_id_is pid ap ∨ profile_id_is_not pid ap →
  ∃ b, (p ← get (Some ap) "profile"; id ← get p "id";
        strict_eq id (Some (Str pid))) = Ok b.
Proof.
  intros [H|H]; [rewrite (profile_id_test _ _ H)
                |rewrite (profile_id_test_not _ _ H)]; by eexists.
Qed.

Lemma findAppProfileById_run pid pre ap post :
  Forall (profile_id_is_not pid) pre →
  profile_id_is pid ap →
  Forall (λ x, profile_id_is pid x ∨ profile_id_is_not pid x) post →
  findAppProfileById (Some (Str pid)) (pre ++ ap :: post)%list = Ok (Some ap).
Proof.
  intros Hpre Hap Hpost. unfold findAppProfileById.
  destruct (filter_res_first
              (λ ap0, p ← get (Some ap0) "profile"; id ← get p "id";
                      strict_eq id (Some (Str pid)))
              pre ap post) as [ys Hys].
  - eapply Forall_impl; [exact Hpre|]. intros v Hv.
    by apply profile_id_test_not.
  - by apply profile_id_test.
  - eapply Forall_impl; [exact Hpost|]. intros v Hv.
    by apply profile_id_test_total.
  - by rewrite Hys, res_bind_ok.
Qed.

(** X12.  [findAppProfileById] returns the first application profile
    whose [profile.id] is the id asked for, and [undefined] when there is
    none; it fails with a [TypeError] when it meets an application
    profile that has no [profile], even if a profile with the id comes
    first. *)
Theorem findAppProfileById_first :
  (∀ pid pre ap post,
     Forall (profile_id_is_not pid) pre →
     profile_id_is pid ap →
     Forall (λ x, profile_id_is pid x ∨ profile_id_is_not pid x) post →
     findAppProfileById (Some (Str pid)) (pre ++ ap :: post)%list
     = Ok (Some ap))
  ∧ (∀ pid aps,
       Forall (profile_id_is_not pid) aps →
       findAppProfileById (Some (Str pid)) aps = Ok None)
  ∧ (∀ pid pre (ap : gmap string value) post,
       Forall (λ x, profile_id_is pid x ∨ profile_id_is_not pid x) pre →
       ap !! "profile" = None →
       findAppProfileById (Some (Str pid)) (pre ++ Obj ap :: post)%list
       = Throw TypeError).
Proof.
  split; [|split].
  - intros pid pre ap post Hpre Hap Hpost. by apply findAppProfileById_run.
  - intros pid aps Hall. unfold findAppProfileById.
    rewrite filter_res_none; [done|].
    eapply Forall_impl; [exact Hall|]. intros v Hv.
    by apply profile_id_test_not.
  - intros pid pre ap post Hpre Hap. unfold findAppProfileById.
    rewrite (filter_res_throw _ pre (Obj ap) post TypeError); [done| |].
    + eapply Forall_impl; [exact Hpre|]. intros v Hv.
      by apply profile_id_test_total.
    + by rewrite get_obj, Hap by exact eq_refl.
Qed.

Lemma findAppProfileById_first_witness :
  findAppProfileById (Some (Str "p-green")) (d_appProfiles Fixture2.aggregate)
  = Ok (Some (Obj (Sample.account_profile "p-green" "ReadOnly"))).
Proof.
  apply (proj1 findAppProfileById_first "p-green"
           [Obj (Sample.account_profile "p-bob" "Ops")]
           (Obj (Sample.account_profile "p-green" "ReadOnly"))
           [Obj (Sample.account_profile "p-default" "Admin")]).
  - constructor; [|constructor]. eexists _, _.
    split; [reflexivity|]. split; [reflexivity|discriminate].
  - eexists. split; reflexivity.
  - constructor; [|constructor]. right. eexists _, _.
    split; [reflexivity|]. split; [reflexivity|discriminate].
Defined.

Lemma get_opt_obj (m : gmap string value) k :
  inherited k = false → get_opt (Some (Obj m)) k = Ok (m !! k).
Proof. intros H. unfold get_opt. by apply get_obj. Qed.

(** X13.  When exactly one application profile has the [profileId] of
    the role, [findAppProfileByRole] returns that profile,
    which is the one [findAppProfileById] finds, as
    [customizeProfiles] customizes it for the user, and fails where that
    customization fails. *)
Theorem findAppProfileByRole_customizes (role : gmap string value)
    (user : option value) (data : ExtensionData) (pid : string)
    (pre post : list value) (ap : value) :
  role !! "profileId" = Some (Str pid) →
  d_appProfiles data = (pre ++ ap :: post)%list →
  Forall (profile_id_is_not pid) pre →
  profile_id_is pid ap →
  Forall (profile_id_is_not pid) post →
  findAppProfileById (Some (Str pid)) (d_appProfiles data) = Ok (Some ap)
  ∧ findAppProfileByRole (Some (Obj role)) user data
    = (customized ← customizeProfiles user [ap]; Ok (head customized)).
Proof.
  intros Hrole Hdata Hpre Hap Hpost. split.
  - rewrite Hdata. apply findAppProfileById_run; [done..|].
    eapply Forall_impl; [exact Hpost|]. intros v Hv. by right.
  - unfold findAppProfileByRole. rewrite Hdata, get_opt_obj, Hrole by exact eq_refl.
    assert (Hfilter : filter_res
              (λ ap0, p ← get (Some ap0) "profile"; id ← get p "id";
                      strict_eq id (Some (Str pid)))
              (pre ++ ap :: post) = Ok [ap]).
    { clear Hdata. induction Hpre as [|y pre Hy _ IH]; simpl app.
      - rewrite filter_res_cons.
        pose proof (profile_id_test _ _ Hap) as Ht.
        rewrite Ht, res_bind_ok.
        rewrite filter_res_none; [done|].
        eapply Forall_impl; [exact Hpost|]. intros v Hv.
        by apply profile_id_test_not.
      - rewrite filter_res_cons.
        pose proof (profile_id_test_not _ _ Hy) as Ht.
        by rewrite Ht, res_bind_ok, IH. }
    change (filter_res _ (pre ++ ap :: post))
      with (filter_res
              (λ ap0, p ← get (Some ap0) "profile"; id ← get p "id";
                      strict_eq id (Some (Str pid)))
              (pre ++ ap :: post)).
    by rewrite Hfilter, res_bind_ok.
Qed.

Lemma findAppProfileByRole_customizes_witness :
  ∃ found,
    findAppProfileByRole
      (Some (Obj (list_to_map [("profileId", Str "p-green");
                               ("roleName", Str "Deploy")])))
      (Some (Obj Sample.user)) Fixture2.aggregate = Ok (Some found) ∧
    resolved_color found = Ok (Some (Str "00ff00")).
Proof.
  destruct (findAppProfileByRole_customizes
              (list_to_map [("profileId", Str "p-green");
                            ("roleName", Str "Deploy")])
              (Some (Obj Sample.user)) Fixture2.aggregate "p-green"
              [Obj (Sample.account_profile "p-bob" "Ops")]
              [Obj (Sample.account_profile "p-default" "Admin")]
              (Obj (Sample.account_profile "p-green" "ReadOnly")))
    as [_ Hrun].
  - reflexivity.
  - reflexivity.
  - constructor; [|constructor]. eexists _, _.
    split; [reflexivity|]. split; [reflexivity|discriminate].
  - eexists. split; reflexivity.
  - constructor; [|constructor]. eexists _, _.
    split; [reflexivity|]. split; [reflexivity|discriminate].
  - rewrite Hrun. eexists. split; reflexivity.
Defined.

(** ** The profile of a console session *)

Lemma customizeProfiles_one user ap cs :
  customizeProfiles user [ap] = Ok cs → ∃ ap', cs = [ap'].
Proof.
  unfold customizeProfiles.
  destruct (get user "custom") as [custom|]; [|done]. rewrite res_bind_ok.
  destruct (get custom "colorDefault") as [c|]; [|done]. rewrite res_bind_ok.
  simpl map_res.
  destruct (customizeProfile user (default_block c) ap) as [ap'|]; [|done].
  rewrite !res_bind_ok. intros [= <-]. by eexists.
Qed.

Lemma foldl_step {A B} (f : A → B → A) a x l :
  foldl f a (x :: l) = foldl f (f a x) l.
Proof. reflexivity. Qed.

Lemma seq_step start n : seq start (S n) = start :: seq (S start) n.
Proof. reflexivity. Qed.

(** Places whose profile fails the test are left alone. *)
Lemma visit_no_match role acc u n : ∀ start l pushed,
  (∀ i x, start ≤ i < start + n → l !! i = Some x →
          is_sso_profile role acc x = Ok false) →
  foldl (findAppProfile_visit role acc u) (Ok (l, pushed)) (seq start n)
  = Ok (l, pushed).
Proof.
  induction n as [|n IH]; intros start l pushed Hall; [done|].
  rewrite seq_step, foldl_step.
  assert (Hstep : findAppProfile_visit role acc u (Ok (l, pushed)) start
                  = Ok (l, pushed)).
  { unfold findAppProfile_visit. rewrite res_bind_ok. simpl fst.
    destruct (l !! start) as [x|] eqn:Hx; [|done].
    by rewrite (Hall start x) by (done || lia). }
  rewrite Hstep. apply IH. intros i x Hi. apply Hall. lia.
Qed.

(** Where every profile met either fails the test or can be customized,
    the loop runs to its end and leaves the earlier places alone. *)
Lemma visit_rest role acc u n : ∀ start l pushed,
  (∀ i x, start ≤ i < start + n → l !! i = Some x →
          is_sso_profile role acc x = Ok false
          ∨ (is_sso_profile role acc x = Ok true
             ∧ ∃ x', customizeProfiles (Some u) [x] = Ok [x'])) →
  ∃ l' new,
    foldl (findAppProfile_visit role acc u) (Ok (l, pushed)) (seq start n)
    = Ok (l', (pushed ++ new)%list)
    ∧ length l' = length l
    ∧ ∀ j, j < start → l' !! j = l !! j.
Proof.
  induction n as [|n IH]; intros start l pushed Hall.
  - exists l, []. by rewrite app_nil_r.
  - rewrite seq_step, foldl_step.
    assert (Hstep : ∃ l1 new1,
              findAppProfile_visit role acc u (Ok (l, pushed)) start
              = Ok (l1, (pushed ++ new1)%list)
              ∧ length l1 = length l
              ∧ ∀ j, j ≠ start → l1 !! j = l !! j).
    { unfold findAppProfile_visit. rewrite res_bind_ok. simpl fst. simpl snd.
      destruct (l !! start) as [x|] eqn:Hx.
      - destruct (Hall start x) as [Hno|[Hyes [x' Hx']]]; [lia|done| |].
        + rewrite Hno, res_bind_ok. exists l, []. by rewrite app_nil_r.
        + rewrite Hyes, res_bind_ok, Hx', res_bind_ok.
          exists (<[start := x']> l), [start]. split; [done|].
          split; [by rewrite length_insert|].
          intros j Hj. by rewrite list_lookup_insert_ne.
      - exists l, []. by rewrite app_nil_r. }
    destruct Hstep as (l1 & new1 & -> & Hlen1 & Hl1).
    destruct (IH (S start) l1 (pushed ++ new1)%list) as (l' & new & -> & Hlen & Hl').
    { intros i x Hi Hx. apply (Hall i x); [lia|].
      rewrite <- Hl1; [done|lia]. }
    exists l', (new1 ++ new)%list. rewrite app_assoc. split; [done|].
    split; [congruence|].
    intros j Hj. rewrite Hl' by lia. apply Hl1. lia.
Qed.

(** X14.  [findAppProfile] returns the first application profile of an
    AWS account whose role name and account id are the ones asked for,
    customized for the user whose id is the active one; later profiles
    that pass the test are customized as well and do not change the
    result.  When no profile passes the test the result is
    [undefined]. *)
Theorem findAppProfile_first (role acc : option value) (data : ExtensionData)
    (uid : string) (upre upost : list value) (u : value) :
  active_user_id data = Ok (Some (Str uid)) →
  d_users data = (upre ++ u :: upost)%list →
  Forall (user_id_is_not uid) upre →
  user_id_is uid u →
  Forall (user_id_is_not uid) upost →
  (∀ pre ap ap' post,
     d_appProfiles data = (pre ++ ap :: post)%list →
     Forall (λ x, is_sso_profile role acc x = Ok false) pre →
     is_sso_profile role acc ap = Ok true →
     customizeProfiles (Some u) [ap] = Ok [ap'] →
     Forall (λ x, is_sso_profile role acc x = Ok false
                  ∨ (is_sso_profile role acc x = Ok true
                     ∧ ∃ x', customizeProfiles (Some u) [x] = Ok [x'])) post →
     findAppProfile role acc data = Ok (Some ap'))
  ∧ (Forall (λ x, is_sso_profile role acc x = Ok false) (d_appProfiles data) →
     findAppProfile role acc data = Ok None).
Proof.
  intros Hactive Husers Hupre Hu Hupost.
  assert (Hskip : ∀ us st,
            Forall (user_id_is_not uid) us →
            foldl (findAppProfile_user role acc (Some (Str uid))) (Ok st) us
            = Ok st).
  { intros us st Hus. induction Hus as [|v us Hv _ IH]; [done|].
    rewrite foldl_step. unfold findAppProfile_user at 2.
    rewrite res_bind_ok. destruct Hv as (x & Hx & Hne).
    rewrite Hx, res_bind_ok, strict_eq_str, is_str_false by done.
    by rewrite res_bind_ok. }
  assert (Hrun : ∀ st,
            foldl (findAppProfile_user role acc (Some (Str uid)))
              (Ok (d_appProfiles data, [])) (upre ++ u :: upost) = Ok st ↔
            foldl (findAppProfile_visit role acc u)
              (Ok (d_appProfiles data, []))
              (seq 0 (length (d_appProfiles data))) = Ok st).
  { intros st. rewrite foldl_app, Hskip by done. rewrite foldl_step.
    unfold findAppProfile_user at 2. rewrite res_bind_ok.
    unfold user_id_is in Hu.
    rewrite Hu, res_bind_ok, strict_eq_str.
    rewrite (proj2 (is_str_true uid _) eq_refl), res_bind_ok. simpl fst.
    destruct (foldl (findAppProfile_visit role acc u)
                (Ok (d_appProfiles data, []))
                (seq 0 (length (d_appProfiles data)))) as [st'|e].
    - by rewrite Hskip.
    - clear. split; [|done]. intros H. exfalso. revert H.
      induction upost as [|v upost IH]; [done|]. rewrite foldl_step. apply IH. }
  split.
  - intros pre ap ap' post Haps Hpre Hap Hcust Hpost.
    unfold findAppProfile. rewrite Hactive, res_bind_ok, Husers.
    set (l := d_appProfiles data) in *.
    assert (Hlen : length l = length pre + (1 + length post)).
    { subst l. rewrite Haps, length_app. reflexivity. }
    assert (Hvisit : ∃ l' new,
              foldl (findAppProfile_visit role acc u) (Ok (l, []))
                (seq 0 (length l))
              = Ok (l', length pre :: new) ∧ l' !! length pre = Some ap').
    { rewrite Hlen, !seq_app, !foldl_app.
      rewrite visit_no_match.
      2:{ intros i x Hi Hx. rewrite Haps in Hx.
          rewrite lookup_app_l in Hx by lia.
          eapply Forall_lookup_1 in Hpre; [exact Hpre|exact Hx]. }
      rewrite (seq_step (0 + length pre) 0), foldl_step.
      change (seq (S (0 + length pre)) 0) with (@nil nat).
      change (foldl ?f ?a []) with a.
      unfold findAppProfile_visit at 2. rewrite res_bind_ok. simpl fst.
      assert (Hlook : l !! (0 + length pre) = Some ap).
      { rewrite Haps. simpl plus. by rewrite list_lookup_middle. }
      rewrite Hlook, Hap, res_bind_ok, Hcust, res_bind_ok. simpl snd.
      destruct (visit_rest role acc u (length post) (0 + length pre + 1)
                  (<[0 + length pre := ap']> l) [0 + length pre])
        as (l' & new & Hfold & _ & Hkeep).
      { intros i x Hi Hx. rewrite list_lookup_insert_ne in Hx by lia.
        rewrite Haps in Hx.
        rewrite lookup_app_r in Hx by lia.
        replace (i - length pre) with (S (i - length pre - 1)) in Hx by lia.
        simpl in Hx.
        eapply Forall_lookup_1 in Hpost; [exact Hpost|exact Hx]. }
      exists l', new. split; [exact Hfold|].
      rewrite Hkeep by lia. simpl plus.
      apply list_lookup_insert_eq. rewrite Hlen. lia. }
    destruct Hvisit as (l' & new & Hfold & Hl').
    apply Hrun in Hfold. rewrite Hfold, res_bind_ok. simpl. by rewrite Hl'.
  - intros Hnone. unfold findAppProfile.
    rewrite Hactive, res_bind_ok, Husers.
    rewrite (proj2 (Hrun (d_appProfiles data, []))); [done|].
    apply visit_no_match. intros i x _ Hx.
    eapply Forall_lookup_1 in Hnone; [exact Hnone|exact Hx].
Qed.

Lemma findAppProfile_first_witness :
  ∃ found,
    findAppProfile (Some (Str "ReadOnly")) (Some (Str "111111111111"))
      Fixture2.aggregate = Ok (Some found) ∧
    resolved_color found = Ok (Some (Str "00ff00")).
Proof.
  destruct (findAppProfile_first (Some (Str "ReadOnly"))
              (Some (Str "111111111111")) Fixture2.aggregate "alice"
              [Sample.bob_loaded] [] Sample.alice_loaded) as [Hfirst _].
  - reflexivity.
  - reflexivity.
  - constructor; [|constructor]. eexists. split; [reflexivity|discriminate].
  - reflexivity.
  - constructor.
  - eexists. split.
    + apply (Hfirst [Obj (Sample.account_profile "p-bob" "Ops")]
               (Obj (Sample.account_profile "p-green" "ReadOnly")) _
               [Obj (Sample.account_profile "p-default" "Admin")]).
      * reflexivity.
      * constructor; [|constructor]. reflexivity.
      * reflexivity.
      * reflexivity.
      * constructor; [|constructor]. by left.
    + reflexivity.
Defined.

(** ** Opening a profile *)

Lemma lift_run {A} (r : res A) w : lift r w = (r, w).
Proof. reflexivity. Qed.

Lemma bind_lift {A B} (r : res A) (f : A → M B) w :
  (lift r ≫= f) w = match r with Ok a => f a w | Throw e => (Throw e, w) end.
Proof. by destruct r. Qed.

(** [createProfileUrl] reads the tabs and changes nothing. *)
Lemma createProfileUrl_world user profile w :
  (createProfileUrl user profile w).2 = w.
Proof.
  unfold createProfileUrl.
  repeat (rewrite bind_lift;
          match goal with
          | |- context [match ?r with Ok _ => _ | Throw _ => _ end] =>
              destruct r; [|done]
          end).
  match goal with
  | |- context [if ?b then _ else _] => destruct b
  end.
  - rewrite bind_lift. by destruct (get profile "id").
  - repeat (rewrite bind_lift;
            match goal with
            | |- context [match ?r with Ok _ => _ | Throw _ => _ end] =>
                destruct r; [|done]
            end).
    rewrite bind_ask.
    destruct (filter _ (tabs w)) as [|t ?]; [done|].
    destruct (tab_url t) as [url|]; [|done].
    by destruct (matches consoleUrlRegex url).
Qed.

Lemma createProfileUrl_run user profile w url :
  (createProfileUrl user profile w).1 = Ok url →
  createProfileUrl user profile w = (Ok url, w).
Proof.
  intros H. pose proof (createProfileUrl_world user profile w) as Hw.
  destruct (createProfileUrl user profile w) as [r w']. simpl in *. congruence.
Qed.

Lemma call_run a w : call a w = (Ok tt, with_calls (calls w ++ [a]) w).
Proof. reflexivity. Qed.

Lemma with_calls_twice l1 l2 w : with_calls l2 (with_calls l1 w) = with_calls l2 w.
Proof. reflexivity. Qed.

(** [navCurrentTab] changes nothing by itself; the job it leaves asks
    for the update of the tab that was active when the method ran. *)
Lemma navCurrentTab_run url w :
  ∃ job,
    navCurrentTab url w = (Ok job, w) ∧
    ∀ w1, job w1
          = (Ok tt,
             with_calls
               (calls w1
                ++ match filter (λ t, tab_active_current t = true) (tabs w) with
                   | t :: _ => [TabsUpdate (tab_id t) url]
                   | [] => []
                   end) w1).
Proof.
  unfold navCurrentTab. rewrite bind_ask. eexists. split; [reflexivity|].
  intros w1. unfold fire, try_catch.
  destruct (filter _ (tabs w)) as [|t ?].
  - simpl. rewrite app_nil_r. by destruct w1.
  - reflexivity.
Qed.

(** The last step of [navSelectedProfile]: the navigation and the
    closing of the popup, in the order in which the browser is asked. *)
Lemma navigate_run (s : gmap string value) url w :
  (navCurrentTabSetting ← lift (get (Some (Obj s)) "navCurrentTab");
   job ← (if truthy navCurrentTabSetting then navCurrentTab url
          else call (TabsCreate url);; mret (mret tt));
   call WindowClose;;
   job) w
  = (Ok tt,
     with_calls
       (calls w
        ++ (if truthy (s !! "navCurrentTab")
            then WindowClose
                 :: match filter (λ t, tab_active_current t = true) (tabs w) with
                    | t :: _ => [TabsUpdate (tab_id t) url]
                    | [] => []
                    end
            else [TabsCreate url; WindowClose])) w).
Proof.
  rewrite get_obj, bind_lift_ok by exact eq_refl.
  destruct (truthy (s !! "navCurrentTab")).
  - destruct (navCurrentTab_run url w) as (job & Hnav & Hjob).
    rewrite (bind_run _ _ _ _ _ Hnav).
    rewrite (bind_run _ _ _ _ _ (call_run _ w)).
    rewrite Hjob. simpl calls. rewrite with_calls_twice.
    by rewrite <- app_assoc.
  - erewrite bind_run.
    2:{ rewrite (bind_run _ _ _ _ _ (call_run _ w)). reflexivity. }
    rewrite (bind_run _ _ _ _ _ (call_run _ _)).
    unfold mret, M_ret. simpl calls. rewrite with_calls_twice.
    by rewrite <- app_assoc.
Qed.

(** X15.  Outside Firefox, and on Firefox with [firefoxContainers] off,
    [navSelectedProfile] (with [showAllProfiles] off) asks the browser
    for exactly one navigation to the profile's URL and closes the
    popup.  With [navCurrentTab] off the new tab is asked for first and
    the popup is closed after it.  With [navCurrentTab] on the popup is
    closed first: the update of the tab that was active in the current
    window is asked for by the callback of the query for that tab, which
    runs when the method has come to its end; when the window had no
    active tab the popup is closed and nothing is opened.  Storage is
    not touched. *)
Theorem navSelectedProfile_opens
    (label : option value → option value → res string)
    (profile user : option value) (users : list value)
    (s : gmap string value) (w : world) (url : string) :
  truthy (s !! "showAllProfiles") = false →
  platform w ≠ Firefox ∨ truthy (s !! "firefoxContainers") = false →
  (createProfileUrl user profile w).1 = Ok url →
  let asked :=
    if truthy (s !! "navCurrentTab")
    then WindowClose
         :: match filter (λ t, tab_active_current t = true) (tabs w) with
            | t :: _ => [TabsUpdate (tab_id t) url]
            | [] => []
            end
    else [TabsCreate url; WindowClose] in
  ∃ w',
    navSelectedProfile label profile user users (Some (Obj s)) w = (Ok tt, w') ∧
    calls w' = (calls w ++ asked)%list ∧
    sync w' = sync w ∧ local w' = local w.
Proof.
  intros Hshow Hpf Hurl asked.
  exists (with_calls (calls w ++ asked) w).
  split; [|done].
  unfold navSelectedProfile, navSelectedProfile_user.
  rewrite get_obj, res_bind_ok, Hshow by exact eq_refl. cbv iota.
  change (navSelectedProfile_rest label profile user (Some (Obj s)) w
          = (Ok tt, with_calls (calls w ++ asked) w)).
  unfold navSelectedProfile_rest.
  rewrite (bind_run _ _ _ _ _ (createProfileUrl_run _ _ _ _ Hurl)).
  rewrite bind_ask.
  destruct Hpf as [Hpf|Hff].
  - destruct (platform w); [|done|]; rewrite bind_ret; apply navigate_run.
  - destruct (platform w); [rewrite bind_ret; apply navigate_run| |
                            rewrite bind_ret; apply navigate_run].
    erewrite bind_run.
    2:{ by rewrite (get_obj s "firefoxContainers"), bind_lift_ok, Hff
          by exact eq_refl. }
    apply navigate_run.
Qed.

Lemma navSelectedProfile_opens_witness :
  ∃ w',
    navSelectedProfile container_label
      (Some (Obj (Sample.account_profile "p-default" "Default")))
      (Some (Obj Sample.user)) []
      (Some (Obj (<["navCurrentTab" := Bool true]> Sample.settings_doc)))
      Sample.console_world = (Ok tt, w') ∧
    calls w'
    = [WindowClose;
       TabsUpdate 7 "https://d-1234567890.awsapps.com/start/#/saml/default/AWS%20Account%20%28prod%29/ins-0001"].
Proof.
  destruct (navSelectedProfile_opens container_label
              (Some (Obj (Sample.account_profile "p-default" "Default")))
              (Some (Obj Sample.user)) []
              (<["navCurrentTab" := Bool true]> Sample.settings_doc)
              Sample.console_world
              "https://d-1234567890.awsapps.com/start/#/saml/default/AWS%20Account%20%28prod%29/ins-0001")
    as (w' & Hrun & Hcalls & _).
  - reflexivity.
  - left. discriminate.
  - reflexivity.
  - exists w'. split; [exact Hrun|exact Hcalls].
Defined.

(** What is asked of the browser for one tab of a container that is
    resumed. *)
Lemma resume_tabs_run (s : gmap string value) (store : string) (n : Z) ts :
  s !! "firefoxExpireMinsContainer" = Some (Num n) →
  ∀ w,
    mapM_ (λ t,
       call (TabsHighlight (tab_windowId t) (tab_index t));;
       call (WindowsFocus (tab_windowId t));;
       expire ← lift (get (Some (Obj s)) "firefoxExpireMinsContainer");
       positive ← lift (gt expire (Some (Num 0)));
       if positive : bool then call (SendExpireContainer store)
       else mret tt) ts w
    = (Ok tt,
       with_calls
         (calls w
          ++ flat_map (λ t,
               [TabsHighlight (tab_windowId t) (tab_index t);
                WindowsFocus (tab_windowId t)]
               ++ (if (0 <? n)%Z then [SendExpireContainer store] else []))
             ts)%list w).
Proof.
  intros Hn. induction ts as [|t ts IH]; intros w.
  - simpl. rewrite app_nil_r. by destruct w.
  - change (mapM_ ?f (t :: ts)) with (f t;; mapM_ f ts).
    assert (Hbody : ∀ b : bool, (0 <? n)%Z = b →
              (call (TabsHighlight (tab_windowId t) (tab_index t));;
               call (WindowsFocus (tab_windowId t));;
               expire ← lift (get (Some (Obj s)) "firefoxExpireMinsContainer");
               positive ← lift (gt expire (Some (Num 0)));
               if positive : bool then call (SendExpireContainer store)
               else mret tt) w
              = (Ok tt,
                 with_calls
                   (calls w
                    ++ [TabsHighlight (tab_windowId t) (tab_index t);
                        WindowsFocus (tab_windowId t)]
                    ++ (if b then [SendExpireContainer store] else []))%list w)).
    { intros b Hb.
      rewrite (bind_run _ _ _ _ _ (call_run _ w)).
      erewrite bind_run by apply call_run.
      rewrite get_obj, Hn, bind_lift_ok by exact eq_refl.
      change (gt (Some (Num n)) (Some (Num 0))) with (Ok (0 <? n)%Z).
      rewrite bind_lift_ok, Hb. destruct b.
      - rewrite call_run. simpl. by rewrite <- !app_assoc.
      - unfold mret, M_ret. simpl. by rewrite <- !app_assoc. }
    rewrite (bind_run _ _ _ _ _ (Hbody _ eq_refl)), IH.
    rewrite with_calls_twice. simpl. f_equal. f_equal.
    by rewrite <- !app_assoc.
Qed.

(** X16.  On Firefox with [firefoxContainers] and
    [firefoxResumeContainer] on, when a container bears the session
    label of the profile and holds tabs, [navSelectedProfile] (with
    [showAllProfiles] off) opens nothing and leaves the popup open: for
    each tab of the first such container it asks for the tab to be
    highlighted and its window focused, and, when
    [firefoxExpireMinsContainer] is positive, sends the expiry message of
    the container.  When the container holds no tab it navigates as if
    there were no container: a new tab and then the closing of the
    popup, or, with [navCurrentTab] on, the closing of the popup and
    then the update of the tab that was active.  Storage is not
    touched. *)
Theorem navSelectedProfile_resumes
    (profile user : option value) (users : list value)
    (s : gmap string value) (w : world) (url name : string) (n : Z)
    (c : container) (cs : list container) :
  truthy (s !! "showAllProfiles") = false →
  platform w = Firefox →
  truthy (s !! "firefoxContainers") = true →
  truthy (s !! "firefoxResumeContainer") = true →
  s !! "firefoxExpireMinsContainer" = Some (Num n) →
  (createProfileUrl user profile w).1 = Ok url →
  container_label profile user = Ok name →
  filter (λ c, container_name c = name) (containers w) = c :: cs →
  let store := container_cookieStoreId c in
  let ts := filter (λ t, tab_cookieStoreId t = store) (tabs w) in
  let asked :=
    if truthy (s !! "navCurrentTab")
    then WindowClose
         :: match filter (λ t, tab_active_current t = true) (tabs w) with
            | t :: _ => [TabsUpdate (tab_id t) url]
            | [] => []
            end
    else [TabsCreate url; WindowClose] in
  ∃ w',
    navSelectedProfile container_label profile user users (Some (Obj s)) w
    = (Ok tt, w') ∧
    calls w'
    = (calls w
       ++ match ts with
          | [] => asked
          | _ =>
              flat_map (λ t,
                [TabsHighlight (tab_windowId t) (tab_index t);
                 WindowsFocus (tab_windowId t)]
                ++ (if (0 <? n)%Z then [SendExpireContainer store] else []))
                ts
          end)%list ∧
    sync w' = sync w ∧ local w' = local w.
Proof.
  intros Hshow Hpf Hff Hres Hn Hurl Hlabel Hfound store ts asked.
  set (per_tab := λ t : tab,
         ([TabsHighlight (tab_windowId t) (tab_index t);
           WindowsFocus (tab_windowId t)]
          ++ (if (0 <? n)%Z then [SendExpireContainer store] else []))%list).
  exists (with_calls
            (calls w ++ match ts with
                        | [] => asked
                        | _ => flat_map per_tab ts
                        end) w).
  split; [|done].
  unfold navSelectedProfile, navSelectedProfile_user.
  rewrite (get_obj s "showAllProfiles"), res_bind_ok, Hshow by exact eq_refl.
  cbv iota.
  change (navSelectedProfile_rest container_label profile user (Some (Obj s)) w
          = (Ok tt, with_calls
                      (calls w ++ match ts with
                                  | [] => asked
                                  | _ => flat_map per_tab ts
                                  end) w)).
  unfold navSelectedProfile_rest.
  rewrite (bind_run _ _ _ _ _ (createProfileUrl_run _ _ _ _ Hurl)).
  rewrite bind_ask, Hpf.
  erewrite bind_run.
  2:{ rewrite (get_obj s "firefoxContainers"), bind_lift_ok, Hff
        by exact eq_refl.
      rewrite (get_obj s "firefoxResumeContainer"), bind_lift_ok, Hres
        by exact eq_refl.
      erewrite bind_run.
      2:{ rewrite Hlabel, bind_lift_ok. unfold ask. by rewrite Hfound. }
      cbv iota. rewrite bind_ask. fold store. fold ts.
      erewrite bind_run by apply (resume_tabs_run s store n ts Hn).
      reflexivity. }
  fold per_tab. destruct ts as [|t ts'] eqn:Hts.
  - simpl flat_map. rewrite app_nil_r.
    replace (with_calls (calls w) w) with w by (by destruct w).
    apply navigate_run.
  - reflexivity.
Qed.

Lemma navSelectedProfile_resumes_witness :
  ∃ w',
    navSelectedProfile container_label
      (Some (Obj (Fixture.customized "p-default" "Admin")))
      (Some (Obj Fixture.carol)) [] (Some (Obj FirefoxFixture.settings))
      FirefoxFixture.browser = (Ok tt, w') ∧
    calls w' = [TabsHighlight 2 3; WindowsFocus 2;
                SendExpireContainer "firefox-container-1"].
Proof.
  destruct (navSelectedProfile_resumes
              (Some (Obj (Fixture.customized "p-default" "Admin")))
              (Some (Obj Fixture.carol)) [] FirefoxFixture.settings
              FirefoxFixture.browser
              "https://d-1234567890.awsapps.com/start/#/console?account_id=111111111111&role_name=Admin"
              "carol@example.org/Admin @ 111111111111" 480
              FirefoxFixture.session [])
    as (w' & Hrun & Hcalls & _).
  - reflexivity.
  - reflexivity.
  - reflexivity.
  - reflexivity.
  - reflexivity.
  - reflexivity.
  - reflexivity.
  - reflexivity.
  - exists w'. split; [exact Hrun|exact Hcalls].
Defined.

(** ** The first sign-in *)

(** X17.  [parseAppProfiles] yields one record for each profile of each
    application, application by application and in the order of the
    profiles: the application without its list of profiles, with the
    profile under [profile].  An application that has no [profiles], or
    [null], contributes nothing.  When [profiles] of some application is
    anything else than an array the method fails with a [TypeError]. *)
Theorem parseAppProfiles_flattens (apps : list (gmap string value)) :
  (Forall (λ app, is_Some (profiles_of app)) apps →
   parseAppProfiles (map Obj apps)
   = Ok (flat_map (λ app, map (app_profile app) (default [] (profiles_of app)))
           apps))
  ∧ (Exists (λ app, profiles_of app = None) apps →
     parseAppProfiles (map Obj apps) = Throw TypeError).
Proof.
  unfold parseAppProfiles.
  set (f := λ app : value,
         profiles ← get (Some app) "profiles";
         match profiles with
         | None | Some Null => Ok ([] : list value)
         | Some (Arr ps) =>
             Ok (map (λ profile,
                        Obj (delete "profiles"
                               (<["profile" := profile]> (spread (Some app)))))
                     ps)
         | Some _ => Throw TypeError
         end).
  assert (Hone : ∀ app ps, profiles_of app = Some ps →
            f (Obj app) = Ok (map (app_profile app) ps)).
  { intros app ps Hps. unfold f, profiles_of in *. rewrite get_obj, res_bind_ok by exact eq_refl.
    destruct (app !! "profiles") as [[| | | |l|]|]; try done;
      injection Hps as <-; try done.
    f_equal. apply map_ext. intros p. unfold app_profile. f_equal.
    simpl spread. by rewrite delete_insert_ne. }
  assert (Hbad : ∀ app, profiles_of app = None → f (Obj app) = Throw TypeError).
  { intros app Hps. unfold f, profiles_of in *. rewrite get_obj, res_bind_ok by exact eq_refl.
    by destruct (app !! "profiles") as [[| | | |l|]|]. }
  assert (Hany : ∀ app, f (Obj app) = Throw TypeError
                        ∨ ∃ r, f (Obj app) = Ok r).
  { intros app. destruct (profiles_of app) as [ps|] eqn:Hps.
    - right. rewrite (Hone _ _ Hps). by eexists.
    - left. by apply Hbad. }
  split.
  - intros Hall.
    assert (Hmap : map_res f (map Obj apps)
              = Ok (map (λ app, map (app_profile app)
                                  (default [] (profiles_of app))) apps)).
    { induction Hall as [|app apps [ps Hps] _ IH]; [done|].
      simpl map_res. rewrite (Hone _ _ Hps), res_bind_ok, IH, res_bind_ok.
      simpl map. by rewrite Hps. }
    rewrite Hmap, res_bind_ok. f_equal.
    clear. induction apps as [|app apps IH]; [done|].
    simpl. by rewrite IH.
  - intros Hex.
    assert (Hmap : map_res f (map Obj apps) = Throw TypeError).
    { induction Hex as [app apps Hps|app apps _ IH].
      - simpl map_res. by rewrite (Hbad _ Hps).
      - simpl map_res. destruct (Hany app) as [->|[r ->]]; [done|].
        by rewrite res_bind_ok, IH. }
    by rewrite Hmap.
Qed.

Lemma parseAppProfiles_flattens_witness :
  parseAppProfiles
    [Obj (<["profiles" := Arr [Str "a"; Str "b"]]> {[ "id" := Str "ins-1" ]});
     Obj {[ "id" := Str "ins-2" ]}]
  = Ok [Obj (<["profile" := Str "a"]> {[ "id" := Str "ins-1" ]});
        Obj (<["profile" := Str "b"]> {[ "id" := Str "ins-1" ]})].
Proof.
  etrans.
  { apply (proj1 (parseAppProfiles_flattens
             [<["profiles" := Arr [Str "a"; Str "b"]]> {[ "id" := Str "ins-1" ]};
              {[ "id" := Str "ins-2" ]}])).
    constructor; [by eexists|]. constructor; [by eexists|]. constructor. }
  reflexivity.
Defined.

Lemma saveUser_run (user : gmap string value) uid enableSync w :
  user !! "userId" = Some (Str uid) →
  saveUser (Some (Obj user)) enableSync w
  = (Ok tt,
     let w1 := match user !! "custom" with
               | Some c =>
                   write (storage_of enableSync)
                     (config_name w +:+ "-custom-" +:+ uid)
                     (document c (now w)) (after_stamp c w)
               | None => w
               end in
     write (storage_of enableSync) (config_name w +:+ "-user-" +:+ uid)
       (Obj (<["updatedAt" := Num (now w1)]> (<["custom" := Obj ∅]> user)))
       (tick w1)).
Proof.
  intros Hid. unfold saveUser. js_run.
  change (to_string (Some (Str uid))) with uid.
  destruct (user !! "custom") as [c|] eqn:Hc.
  - rewrite is_Some_true by eauto. js_run.
    erewrite bind_run by apply saveCustom_some. js_run.
    rewrite saveData_obj, config_name_write by apply dash_key.
    unfold after_stamp. destruct (typeof_object (Some c));
      by rewrite ?config_name_tick.
  - rewrite is_Some_false by done. js_run.
    by rewrite saveData_obj by apply dash_key.
Qed.

Lemma profile_id_run (ap : gmap string value) id :
  has_profile_id ap id → profile_id (Obj ap) = Ok (Some (Str id)).
Proof.
  intros (p & Hp & Hid). unfold profile_id.
  by rewrite get_obj, Hp, res_bind_ok, get_opt_obj, Hid by exact eq_refl.
Qed.

Lemma profile_ids_run aps ids :
  Forall2 has_profile_id aps ids →
  map_res profile_id (map Obj aps) = Ok (map (λ id, Some (Str id)) ids).
Proof.
  induction 1 as [|ap id aps ids Hap _ IH]; [done|].
  simpl map_res. by rewrite (profile_id_run _ _ Hap), res_bind_ok, IH.
Qed.

Lemma array_of_strs (ids : list string) :
  array_of (map (λ id, Some (Str id)) ids) = Ok (Arr (map Str ids)).
Proof.
  unfold array_of.
  assert (H : mapM id (map (λ id, Some (Str id)) ids) = Some (map Str ids)).
  { induction ids as [|i ids IH]; [done|]. simpl. by rewrite IH. }
  by rewrite H.
Qed.

(** Saving the profiles one after the other, none of them under the
    key [__proto__]. *)
Lemma save_profiles_run aps ids :
  Forall2 has_profile_id aps ids →
  "__proto__" ∉ ids →
  ∀ w,
    mapM_ (λ ap, id ← lift (profile_id ap);
                 fire (saveData (to_string id) (Some ap) LocalArea))
          (map Obj aps) w
    = (Ok tt,
       foldl (λ w p, write LocalArea p.1
                       (Obj (<["updatedAt" := Num (now w)]> p.2)) (tick w))
             w (zip ids aps)).
Proof.
  induction 1 as [|ap id aps ids Hap _ IH]; intros Hproto w; [done|].
  apply not_elem_of_cons in Hproto as [Hid Hproto].
  simpl map. change (mapM_ ?f (?x :: ?l)) with (f x;; mapM_ f l).
  erewrite bind_run.
  2:{ rewrite (profile_id_run _ _ Hap), bind_lift_ok.
      change (to_string (Some (Str id))) with id.
      apply fire_ok, saveData_obj. apply String.eqb_neq. by intros ->. }
  by rewrite IH.
Qed.

(** What the store holds once the profiles are saved. *)
Lemma save_profiles_state (ids : list string) : ∀ aps w,
  length aps = length ids →
  NoDup ids →
  let w' := foldl (λ w p, write LocalArea p.1
                            (Obj (<["updatedAt" := Num (now w)]> p.2)) (tick w))
                  w (zip ids aps) in
  (∀ i ap id, aps !! i = Some ap → ids !! i = Some id →
     local w' !! id
     = Some (Obj (<["updatedAt" := Num (clock w (ticks w + i))]> ap)))
  ∧ (∀ k, k ∉ ids → local w' !! k = local w !! k)
  ∧ sync w' = sync w ∧ config_name w' = config_name w
  ∧ clock w' = clock w ∧ ticks w' = ticks w + length ids
  ∧ defaultCustom w' = defaultCustom w.
Proof.
  induction ids as [|id ids IH]; intros aps w Hlen Hnd.
  - destruct aps; [|done]. simpl. repeat split; first [done | lia].
  - destruct aps as [|ap aps]; [done|].
    injection Hlen as Hlen. apply NoDup_cons in Hnd as [Hid Hnd].
    set (w1 := write LocalArea id
                 (Obj (<["updatedAt" := Num (now w)]> ap)) (tick w)).
    destruct (IH aps w1 Hlen Hnd) as (Hput & Hkeep & Hsync & Hname & Hclock
                                      & Hticks & Hdc).
    cbv zeta in *.
    change (zip (id :: ids) (ap :: aps)) with ((id, ap) :: zip ids aps).
    rewrite foldl_step. change (write LocalArea (id, ap).1 _ (tick w)) with w1.
    split; [|split; [|split; [|split; [|split; [|split]]]]].
    + intros i ap' id' Hi Hi'. destruct i as [|i].
      * injection Hi as <-. injection Hi' as <-.
        rewrite Hkeep by done. subst w1.
        rewrite local_write_local, lookup_insert_eq.
        by rewrite Nat.add_0_r.
      * rewrite (Hput i ap' id' Hi Hi'). subst w1. do 4 f_equal.
        simpl. f_equal. lia.
    + intros k Hk. apply not_elem_of_cons in Hk as [Hk1 Hk2].
      rewrite Hkeep by done. subst w1.
      by rewrite local_write_local, lookup_insert_ne.
    + by rewrite Hsync.
    + by rewrite Hname.
    + by rewrite Hclock.
    + rewrite Hticks. subst w1. simpl. lia.
    + by rewrite Hdc.
Qed.

Lemma local_write_ne a k v w j :
  j ≠ k → local (write a k v w) !! j = local w !! j.
Proof.
  intros Hne. destruct a; [done|].
  by rewrite local_write_local, lookup_insert_ne.
Qed.

Lemma local_after_stamp v w : local (after_stamp v w) = local w.
Proof. unfold after_stamp. by destruct (typeof_object (Some v)). Qed.

(** X18.  [saveAppProfiles] stores every application profile parsed
    from [this.apps] in the local area under its [profile.id], stamped
    with the reading of the clock at its turn, and then saves the user
    with [appProfileIds] set to those ids, in order.  The profile ids are
    taken to be distinct strings, none of them [__proto__] (under which
    [saveData] stores nothing) and different from the keys of the user's
    own records; no other key of the local area changes. *)
Theorem saveAppProfiles_stores (w : world) (apps : list value)
    (aps : list (gmap string value)) (ids : list string)
    (um : gmap string value) (uid : string) (enableSync : option value) :
  parseAppProfiles apps = Ok (map Obj aps) →
  Forall2 has_profile_id aps ids →
  NoDup ids →
  "__proto__" ∉ ids →
  um !! "userId" = Some (Str uid) →
  let ukey := config_name w +:+ "-user-" +:+ uid in
  let ckey := config_name w +:+ "-custom-" +:+ uid in
  ukey ∉ ids → ckey ∉ ids →
  ∃ w' t,
    saveAppProfiles apps (Some (Obj um)) enableSync w = (Ok tt, w') ∧
    (∀ i ap id, aps !! i = Some ap → ids !! i = Some id →
       local w' !! id
       = Some (Obj (<["updatedAt" := Num (clock w (ticks w + i))]> ap))) ∧
    area_of (storage_of enableSync) w' !! ukey
      = Some (Obj (<["updatedAt" := Num t]>
                     (<["custom" := Obj ∅]>
                        (<["appProfileIds" := Arr (map Str ids)]> um)))) ∧
    (∀ k, k ∉ ids → k ≠ ukey → k ≠ ckey → local w' !! k = local w !! k).
Proof.
  intros Hparse Hids Hnd Hproto Huid ukey ckey Hukey Hckey.
  set (w2 := foldl (λ w p, write LocalArea p.1
                             (Obj (<["updatedAt" := Num (now w)]> p.2)) (tick w))
                   w (zip ids aps)).
  set (data := <["appProfileIds" := Arr (map Str ids)]> um).
  pose proof (save_profiles_state ids aps w
                (Forall2_length _ _ _ Hids) Hnd) as Hstate.
  cbv zeta in Hstate. fold w2 in Hstate.
  destruct Hstate as (Hput & Hkeep & _ & Hname & _ & _ & _).
  assert (Hdata : data !! "userId" = Some (Str uid)).
  { subst data. by rewrite lookup_insert_ne. }
  pose proof (saveUser_run data uid enableSync w2 Hdata) as Hsave.
  cbv zeta in Hsave. rewrite Hname in Hsave. fold ukey ckey in Hsave.
  set (w1 := match data !! "custom" with
             | Some c => write (storage_of enableSync) ckey
                           (document c (now w2)) (after_stamp c w2)
             | None => w2
             end) in *.
  assert (Hlocal1 : ∀ k, k ≠ ckey → local w1 !! k = local w2 !! k).
  { intros k Hk. subst w1. destruct (data !! "custom"); [|done].
    by rewrite local_write_ne, local_after_stamp. }
  eexists _, (now w1). split; [|split; [|split]].
  - unfold saveAppProfiles. rewrite Hparse, bind_lift_ok.
    rewrite (bind_run _ _ _ _ _ (save_profiles_run aps ids Hids Hproto w)).
    fold w2. rewrite (profile_ids_run _ _ Hids), bind_lift_ok.
    rewrite array_of_strs, bind_lift_ok.
    apply fire_ok. exact Hsave.
  - intros i ap id Hi Hi'.
    assert (Hin : id ∈ ids) by (by eapply list_elem_of_lookup_2).
    rewrite local_write_ne by (intros ->; done).
    change (local (tick w1)) with (local w1).
    rewrite Hlocal1 by (intros ->; done).
    by apply Hput.
  - by rewrite area_of_write, lookup_insert_eq.
  - intros k Hk Hu Hc.
    rewrite local_write_ne by done.
    change (local (tick w1)) with (local w1).
    rewrite Hlocal1 by done. by apply Hkeep.
Qed.

Lemma saveAppProfiles_stores_witness :
  ∃ w',
    saveAppProfiles SignIn.apps (Some (Obj SignIn.dave)) (Some (Bool true))
      Sample.console_world = (Ok tt, w') ∧
    local w' !! "p-2"
    = Some (Obj (<["updatedAt" := Num 1700000000001]>
                   (<["profile" := SignIn.reader]> SignIn.account))) ∧
    ∃ t, sync w' !! "aws-sso-ext-user-dave"
         = Some (Obj (<["updatedAt" := Num t]>
                        (<["custom" := Obj ∅]>
                           (<["appProfileIds" := Arr [Str "p-1"; Str "p-2"]]>
                              SignIn.dave)))).
Proof.
  destruct (saveAppProfiles_stores Sample.console_world SignIn.apps
              [<["profile" := SignIn.admin]> SignIn.account;
               <["profile" := SignIn.reader]> SignIn.account]
              ["p-1"; "p-2"] SignIn.dave "dave" (Some (Bool true)))
    as (w' & t & Hrun & Hput & Huser & _).
  - reflexivity.
  - constructor; [eexists; split; reflexivity|].
    constructor; [eexists; split; reflexivity|]. constructor.
  - apply NoDup_cons. split; [|apply NoDup_singleton].
    intros H. apply list_elem_of_singleton in H. discriminate.
  - intros H. apply elem_of_cons in H as [H|H]; [discriminate|].
    apply list_elem_of_singleton in H. discriminate.
  - reflexivity.
  - intros H. apply elem_of_cons in H as [H|H]; [discriminate|].
    apply list_elem_of_singleton in H. discriminate.
  - intros H. apply elem_of_cons in H as [H|H]; [discriminate|].
    apply list_elem_of_singleton in H. discriminate.
  - exists w'. split; [exact Hrun|]. split.
    + apply (Hput 1); reflexivity.
    + exists t. exact Huser.
Defined.

Lemma head_nub (x : string) l : head (nub (x :: l)) = Some x.
Proof. reflexivity. Qed.

Lemma user_ids_run users uids :
  Forall2 (λ u id, user_id_is id u) users uids →
  map_res (λ u, get (Some u) "userId") users
  = Ok (map (λ id, Some (Str id)) uids).
Proof.
  induction 1 as [|u id users uids Hu _ IH]; [done|].
  simpl map_res. unfold user_id_is in Hu. by rewrite Hu, res_bind_ok, IH.
Qed.

(** X19.  [update] first rewrites the list of users: the id of the user
    who signs in comes first, followed by the ids of the users
    [loadData] returned, in that order, each id once.  It then runs
    [saveAppProfiles] for the user with the [enableSync] of the loaded
    settings. *)
Theorem update_lists_user (w : world) (apps : list value)
    (um : gmap string value) (uid : string) (data : ExtensionData)
    (sm : gmap string value) (uids : list string) :
  loadData w = (Ok data, w) →
  d_settings data = Obj sm →
  Forall2 (λ u id, user_id_is id u) (d_users data) uids →
  um !! "userId" = Some (Str uid) →
  let listed := nub (uid :: uids) in
  let w1 := write SyncArea (config_name w +:+ "-users")
              (Obj (<["updatedAt" := Num (now w)]>
                      {[ "users" := Arr (map Str listed) ]}))
              (tick w) in
  update apps (Some (Obj um)) w
  = saveAppProfiles apps (Some (Obj um)) (sm !! "enableSync") w1
  ∧ head listed = Some uid
  ∧ NoDup listed
  ∧ (∀ id, id ∈ listed ↔ id = uid ∨ id ∈ uids).
Proof.
  intros Hload Hs Hu Huid listed w1. split; [|split; [|split]].
  - unfold update. rewrite (bind_run _ _ _ _ _ Hload).
    rewrite get_obj, Huid, bind_lift_ok by exact eq_refl.
    rewrite (user_ids_run _ _ Hu), bind_lift_ok.
    change (Some (Str uid) :: map (λ id, Some (Str id)) uids)
      with (map (λ id, Some (Str id)) (uid :: uids)).
    rewrite uniq_strs, bind_lift_ok. fold listed.
    rewrite array_of_strs, bind_lift_ok, bind_ask.
    erewrite bind_run by apply fire_ok, saveData_obj, dash_key.
    rewrite Hs, get_obj, bind_lift_ok by exact eq_refl. reflexivity.
  - apply head_nub.
  - apply NoDup_nub_aux.
  - intros id. unfold listed, nub. rewrite nub_aux_spec, elem_of_cons.
    split; [by intros [? _]|]. intros H. split; [done|]. apply not_elem_of_nil.
Qed.

Lemma update_lists_user_witness :
  ∃ w',
    update SignIn.apps (Some (Obj Sample.bob)) Sample.stored_world
      = (Ok tt, w') ∧
    sync w' !! "aws-sso-ext-users"
    = Some (Obj (list_to_map [("users", Arr [Str "bob"; Str "alice"]);
                              ("updatedAt", Num 1700000000000)])).
Proof.
  destruct (update_lists_user Sample.stored_world SignIn.apps Sample.bob
              "bob"
              {| d_updatedAt := Some (Num 1690000000004);
                 d_appProfiles :=
                   [Obj (Sample.account_profile "p-bob" "Ops");
                    Obj (Sample.account_profile "p-green" "ReadOnly");
                    Obj (Sample.account_profile "p-default" "Admin")];
                 d_settings := Obj (Sample.settings_doc ∪ defaultSettings_init);
                 d_users := [Sample.bob_loaded; Sample.alice_loaded];
                 d_iamLogins := Obj Sample.logins_doc |}
              (Sample.settings_doc ∪ defaultSettings_init) ["bob"; "alice"])
    as (Hrun & _).
  - reflexivity.
  - reflexivity.
  - constructor; [reflexivity|]. constructor; [reflexivity|]. constructor.
  - reflexivity.
  - rewrite Hrun. eexists. split; reflexivity.
Defined.

(** ** Edges of removing, building and customizing *)

Lemma with_area_same a w : with_area a (area_of a w) w = w.
Proof. by destruct a, w. Qed.

Lemma erase_absent a ks w :
  Forall (λ k, area_of a w !! k = None) ks → erase a ks w = w.
Proof.
  intros Hks. unfold erase.
  assert (H : foldr delete (area_of a w) ks = area_of a w).
  { induction Hks as [|k ks Hk _ IH]; [done|].
    simpl. rewrite IH. by apply delete_id. }
  rewrite H. apply with_area_same.
Qed.

(** X20.  [removeUser] for an id that has no record in storage and is
    not named by the settings removes nothing, yet writes the list of
    users back: the stored list without the id under a new stamp, and a
    record with the empty list when there was none.  No other cell of
    either area changes. *)
Theorem removeUser_unknown (w : world) (userId : string)
    (enableSync : option value) (uids : list string)
    (stored : gmap string value) :
  let storage := storage_of enableSync in
  let name := config_name w in
  area_of storage w !! (name +:+ "-user-" +:+ userId) = None →
  area_of storage w !! (name +:+ "-custom-" +:+ userId) = None →
  (sync w !! (name +:+ "-users") = None ∧ uids = [] ∨
   ∃ doc, sync w !! (name +:+ "-users") = Some (Obj doc)
          ∧ doc !! "users" = Some (Arr (map Str uids))) →
  default (Obj (defaultSettings w)) (sync w !! (name +:+ "-settings"))
    = Obj stored →
  is_str userId ((stored ∪ defaultSettings w) !! "defaultUser") = false →
  is_str userId ((stored ∪ defaultSettings w) !! "lastUserId") = false →
  removeUser userId enableSync w
  = (Ok tt,
     write SyncArea (name +:+ "-users")
       (Obj (<["updatedAt" := Num (now w)]>
               {[ "users" := Arr (map Str (filter (λ u, u ≠ userId) uids)) ]}))
       (tick w)).
Proof.
  intros storage name Huser Hcustom Husers Hsettings Hdef Hlast.
  unfold removeUser.
  erewrite bind_run; cycle 1.
  { eapply (loadUser_run w userId enableSync None None ∅ (defaultCustom w));
      done. }
  js_run. rewrite bind_storage_remove.
  rewrite erase_absent by (repeat constructor; done).
  rewrite lookup_insert_ne by done. rewrite lookup_empty. js_run.
  change (truthy None) with false. cbv iota. js_run.
  erewrite bind_run by apply loadIamLogins_run. js_run.
  change (area_of SyncArea w) with (sync w). fold name.
  assert (Hlist : (match sync w !! (name +:+ "-users") with
                   | Some doc => lift (get (Some doc) "users")
                   | None => mret (Some (Arr []))
                   end) w = (Ok (Some (Arr (map Str uids))), w)).
  { destruct Husers as [[-> ->]|(doc & -> & Hdoc)]; [done|].
    by rewrite get_obj, Hdoc by exact eq_refl. }
  rewrite (bind_run _ _ _ _ _ Hlist).
  change (as_array (Some (Arr (map Str uids)))) with (Ok (map Str uids)).
  rewrite bind_lift_ok, filter_users_run, bind_lift_ok.
  set (doc := <["updatedAt" := Num (now w)]>
                {[ "users" := Arr (map Str (filter (λ u, u ≠ userId) uids)) ]}).
  erewrite bind_run by apply saveData_obj, dash_key.
  fold doc. set (w' := write SyncArea (name +:+ "-users") (Obj doc) (tick w)).
  assert (Hcell : sync w' !! (config_name w' +:+ "-settings")
                  = sync w !! (name +:+ "-settings")).
  { subst w'. rewrite config_name_write, config_name_tick, sync_write_sync.
    rewrite lookup_insert_ne by key_ne. done. }
  erewrite bind_run; cycle 1.
  { apply (loadSettings_ref_run w' (sync w !! (name +:+ "-settings")) stored);
      [exact Hcell|exact Hsettings]. }
  cbv zeta. simpl fst. js_run.
  change (defaultSettings w') with (defaultSettings w).
  by rewrite ?Hdef, ?Hlast.
Qed.

Lemma removeUser_unknown_witness :
  ∃ w',
    removeUser "zoe" (Some (Bool true)) Sample.stored_world = (Ok tt, w') ∧
    sync w' !! "aws-sso-ext-users"
    = Some (Obj (list_to_map [("users", Arr [Str "alice"; Str "bob"]);
                              ("updatedAt", Num 1700000000000)])) ∧
    local w' = local Sample.stored_world.
Proof.
  eexists. split.
  - apply (removeUser_unknown Sample.stored_world "zoe" (Some (Bool true))
             ["alice"; "bob"] Sample.settings_doc).
    + reflexivity.
    + reflexivity.
    + right. exists Sample.users_doc. split; reflexivity.
    + reflexivity.
    + reflexivity.
    + reflexivity.
  - split; reflexivity.
Defined.

(** X21.  [createProfileUrl] only reads: whatever it returns, the state
    is as before.  It fails with a [TypeError] when the user is
    [undefined], and, for a profile other than [Default], when the
    current window has no active tab. *)
Theorem createProfileUrl_reads_only :
  (∀ user profile w, (createProfileUrl user profile w).2 = w)
  ∧ (∀ profile w, createProfileUrl None profile w = (Throw TypeError, w))
  ∧ (∀ (um ap prof : gmap string value) w,
       ap !! "profile" = Some (Obj prof) →
       prof !! "name" ≠ Some (Str "Default") →
       filter (λ t, tab_active_current t = true) (tabs w) = [] →
       createProfileUrl (Some (Obj um)) (Some (Obj ap)) w
       = (Throw TypeError, w)).
Proof.
  split; [exact createProfileUrl_world|]. split; [done|].
  intros um ap prof w Hprof Hname Htabs.
  unfold createProfileUrl. js_run.
  rewrite (is_str_false _ _ Hname). cbv iota. js_run.
  destruct (get_opt (ap !! "searchMetadata") "AccountId") as [x|] eqn:Hx.
  - by js_run.
  - by destruct (ap !! "searchMetadata") as [[| | | | |]|].
Qed.

Lemma createProfileUrl_reads_only_witness :
  createProfileUrl (Some (Obj Sample.user))
    (Some (Obj (Sample.account_profile "p-default" "Admin")))
    Sample.stored_world
  = (Throw TypeError, Sample.stored_world).
Proof.
  apply (proj2 (proj2 createProfileUrl_reads_only) Sample.user
           (Sample.account_profile "p-default" "Admin")
           (list_to_map [("id", Str "p-default"); ("name", Str "Admin")])
           Sample.stored_world).
  - reflexivity.
  - discriminate.
  - reflexivity.
Defined.

(** X22.  A profile for which the user has stored no customization, and
    whose id is not the name of a member of [Object.prototype], gets the
    default block: not a favorite, not hidden, no label, no IAM roles,
    and the user's default color.  This is the whole result for a
    profile of another application than an AWS account, and for a
    profile of an AWS account for which the user has stored no account
    record (the account id being no such name either); nothing else of
    the profile changes. *)
Theorem customizeProfiles_default_block
    (um uc profiles ap p : gmap string value) (id : string) :
  um !! "custom" = Some (Obj uc) →
  uc !! "profiles" = Some (Obj profiles) →
  ap !! "profile" = Some (Obj p) →
  p !! "id" = Some (Str id) →
  profiles !! id = None →
  inherited id = false →
  (ap !! "applicationName" ≠ Some (Str "AWS Account")
   ∨ ∃ accounts, uc !! "accounts" = Some (Obj accounts)
       ∧ ∃ accountId, get_opt (ap !! "searchMetadata") "AccountId" = Ok accountId
       ∧ accounts !! to_string accountId = None
       ∧ inherited (to_string accountId) = false) →
  customizeProfiles (Some (Obj um)) [Obj ap]
  = Ok [Obj (<["profile" :=
               Obj (<["custom" :=
                      Obj (put "color" (uc !! "colorDefault")
                             (list_to_map [
                                ("favorite", Bool false);
                                ("hide", Bool false);
                                ("label", Null);
                                ("iamRoles", Arr [])]))]> p)]> ap)].
Proof.
  intros Hcustom Hprofiles Hp Hid Hnone Hown Hcase.
  unfold customizeProfiles. js_run. simpl map_res.
  unfold customizeProfile. js_run.
  change (to_string (Some (Str id))) with id.
  rewrite ?has_in_obj, ?res_bind_ok by done.
  rewrite is_Some_false by done. js_run.
  unfold default_block at 1. unfold put at 2. simpl with_profile. js_run.
  rewrite lookup_insert_ne by done.
  destruct Hcase as [Happ|(accounts & Hacc & accountId & Hget & Hno & Hna)].
  - rewrite (is_str_false _ _ Happ). by js_run.
  - destruct (is_str "AWS Account" (ap !! "applicationName")); [|by js_run].
    js_run. rewrite lookup_insert_ne by done. js_run.
    rewrite ?has_in_obj, ?res_bind_ok by done.
    rewrite is_Some_false by done. by js_run.
Qed.

Lemma customizeProfiles_default_block_witness :
  ∃ customized,
    customizeProfiles (Some (Obj Sample.user)) [Obj SignIn.wiki_profile]
      = Ok [customized] ∧
    resolved_color customized = Ok (Some (Str "222f3e")).
Proof.
  eexists. split.
  - apply (customizeProfiles_default_block Sample.user Sample.custom
             (list_to_map [
                ("p-default", Obj (list_to_map [
                   ("favorite", Bool false); ("hide", Bool false);
                   ("label", Null); ("iamRoles", Arr []);
                   ("color", Str "222f3e")]));
                ("p-green", Obj (list_to_map [
                   ("favorite", Bool true); ("hide", Bool false);
                   ("label", Null); ("iamRoles", Arr []);
                   ("color", Str "00ff00")]))])
             SignIn.wiki_profile
             (list_to_map [("id", Str "p-wiki"); ("name", Str "Default")])
             "p-wiki").
    + reflexivity.
    + reflexivity.
    + reflexivity.
    + reflexivity.
    + reflexivity.
    + reflexivity.
    + left. discriminate.
  - reflexivity.
Defined.

(** ** The encoders lose nothing *)

Lemma unescape_encode_unit : ∀ c r,
  unescape_head (encode_unit c +:+ r) = Some (c, r).
Proof.
  intros [[] [] [] [] [] [] [] []] r; reflexivity.
Qed.

Lemma unescape_encodeUriPlusParens : ∀ c r,
  unescape_head (encodeUriPlusParens (String c "") +:+ r) = Some (c, r).
Proof.
  intros [[] [] [] [] [] [] [] []] r; reflexivity.
Qed.

Lemma flat_map_chars_inj (f : ascii → string) :
  (∀ c r, unescape_head (f c +:+ r) = Some (c, r)) →
  ∀ s t, flat_map_chars f s = flat_map_chars f t → s = t.
Proof.
  intros Hf. induction s as [|c s IH]; intros [|d t] H.
  - done.
  - rewrite flat_map_chars_cons in H. apply (f_equal unescape_head) in H.
    by rewrite Hf in H.
  - rewrite flat_map_chars_cons in H. apply (f_equal unescape_head) in H.
    by rewrite Hf in H.
  - rewrite !flat_map_chars_cons in H. apply (f_equal unescape_head) in H.
    rewrite !Hf in H. injection H as -> H. f_equal. by apply IH.
Qed.

Lemma append_inj_r (r : string) : ∀ s t, s +:+ r = t +:+ r → s = t.
Proof.
  induction s as [|c s IH]; intros [|d t] H.
  - done.
  - apply (f_equal String.length) in H. rewrite !length_append in H.
    simpl in H. lia.
  - apply (f_equal String.length) in H. rewrite !length_append in H.
    simpl in H. lia.
  - rewrite !append_cons in H. injection H as -> H. f_equal. by apply IH.
Qed.

(** The link of a [Default] profile (lines 327-329). *)
Lemma default_link (user ap prof : gmap string value) (w : world) :
  ap !! "profile" = Some (Obj prof) →
  prof !! "name" = Some (Str "Default") →
  createProfileUrl (Some (Obj user)) (Some (Obj ap)) w
  = (Ok ("https://" +:+ to_string (user !! "managedActiveDirectoryId")
         +:+ ".awsapps.com/start/#/saml/default/"
         +:+ encodeUriPlusParens (to_string (ap !! "name"))
         +:+ "/" +:+ to_string (ap !! "id")), w).
Proof.
  intros Hprof Hname. unfold createProfileUrl. js_run.
  change (is_str "Default" (Some (Str "Default"))) with true. cbv iota.
  js_run. unfold mret, M_ret. do 2 f_equal.
  by rewrite !append_assoc.
Qed.

(** X23.  [encodeURIComponent] and [encodeUriPlusParens] are injective:
    two texts have the same encoding only when they are the same text.
    So the links that [createProfileUrl] returns for two [Default]
    profiles of one user with the same [id] are the same only when the
    names of the applications are the same.  (The console link of
    another profile does not hold the name of the application.) *)
Theorem encoders_injective (s t : string) :
  (encodeURIComponent s = encodeURIComponent t ↔ s = t)
  ∧ (encodeUriPlusParens s = encodeUriPlusParens t ↔ s = t)
  ∧ (∀ (user ap1 ap2 prof1 prof2 : gmap string value) (w : world),
       ap1 !! "profile" = Some (Obj prof1) →
       prof1 !! "name" = Some (Str "Default") →
       ap2 !! "profile" = Some (Obj prof2) →
       prof2 !! "name" = Some (Str "Default") →
       ap1 !! "name" = Some (Str s) →
       ap2 !! "name" = Some (Str t) →
       ap1 !! "id" = ap2 !! "id" →
       createProfileUrl (Some (Obj user)) (Some (Obj ap1)) w
       = createProfileUrl (Some (Obj user)) (Some (Obj ap2)) w →
       s = t).
Proof.
  assert (Hinj : encodeUriPlusParens s = encodeUriPlusParens t → s = t).
  { rewrite (encodeUriPlusParens_chars s), (encodeUriPlusParens_chars t).
    apply flat_map_chars_inj, unescape_encodeUriPlusParens. }
  split; [|split].
  - split; [|by intros ->].
    apply flat_map_chars_inj, unescape_encode_unit.
  - split; [exact Hinj|by intros ->].
  - intros user ap1 ap2 prof1 prof2 w Hp1 Hd1 Hp2 Hd2 Hn1 Hn2 Hid Heq.
    rewrite (default_link user ap1 prof1 w Hp1 Hd1) in Heq.
    rewrite (default_link user ap2 prof2 w Hp2 Hd2) in Heq.
    rewrite Hn1, Hn2, Hid in Heq. injection Heq as Heq.
    do 3 apply append_inj_l in Heq.
    apply append_inj_r in Heq. by apply Hinj.
Qed.

Lemma encoders_injective_witness :
  createProfileUrl (Some (Obj Sample.user))
    (Some (Obj (Sample.account_profile "p-default" "Default")))
    Sample.console_world
  ≠ createProfileUrl (Some (Obj Sample.user))
      (Some (Obj (<["name" := Str "AWS Account (dev)"]>
                    (Sample.account_profile "p-default" "Default"))))
      Sample.console_world.
Proof.
  intros H.
  apply (proj2 (proj2 (encoders_injective "AWS Account (prod)"
                         "AWS Account (dev)"))
           Sample.user
           (Sample.account_profile "p-default" "Default")
           (<["name" := Str "AWS Account (dev)"]>
              (Sample.account_profile "p-default" "Default"))
           (list_to_map [("id", Str "p-default"); ("name", Str "Default")])
           (list_to_map [("id", Str "p-default"); ("name", Str "Default")])
           Sample.console_world) in H.
  - discriminate H.
  - reflexivity.
  - reflexivity.
  - reflexivity.
  - reflexivity.
  - reflexivity.
  - reflexivity.
  - reflexivity.
Defined.

(** ** Loading *)

Lemma reads_ret {A} (a : A) : reads_only (mret a : M A).
Proof. by intros w. Qed.

Lemma reads_lift {A} (r : res A) : reads_only (lift r).
Proof. by intros w. Qed.

Lemma reads_ask {A} (g : world → A) : reads_only (ask g).
Proof. by intros w. Qed.

Lemma reads_throw {A} e : reads_only (throw e : M A).
Proof. by intros w. Qed.

Lemma reads_bind {A B} (m : M A) (f : A → M B) :
  reads_only m → (∀ a, reads_only (f a)) → reads_only (m ≫= f).
Proof.
  intros Hm Hf w. unfold mbind, M_bind. specialize (Hm w).
  destruct (m w) as [[a|e] w1]; simpl in Hm; subst w1; [apply Hf|done].
Qed.

Lemma reads_mapM' {A B} (f : A → M B) l :
  (∀ x, reads_only (f x)) → reads_only (mapM' f l).
Proof.
  intros Hf. induction l as [|x l IH]; [apply reads_ret|].
  simpl. apply reads_bind; [apply Hf|]. intros y.
  apply reads_bind; [apply IH|]. intros ys. apply reads_ret.
Qed.

Lemma reads_storage_get a k : reads_only (storage_get a k).
Proof. apply reads_ask. Qed.

Lemma reads_storage_get_keys a keys : reads_only (storage_get_keys a keys).
Proof.
  unfold storage_get_keys. destruct keys as [[| | |k|ks|]|];
    try apply reads_ask; try apply reads_throw.
  destruct (mapM as_key ks); [apply reads_ask|apply reads_throw].
Qed.

Lemma reads_loadSettings_ref : reads_only loadSettings_ref.
Proof.
  unfold loadSettings_ref.
  repeat (apply reads_bind; [first [apply reads_ask | apply reads_storage_get
                                   | apply reads_lift]|intros ?]).
  apply reads_ret.
Qed.

Lemma reads_loadUser userId enableSync : reads_only (loadUser userId enableSync).
Proof.
  unfold loadUser. cbv zeta.
  repeat (apply reads_bind; [first [apply reads_ask | apply reads_storage_get
                                   | apply reads_lift]|intros ?]).
  apply reads_lift.
Qed.

Lemma reads_loadUsers enableSync : reads_only (loadUsers enableSync).
Proof.
  unfold loadUsers.
  apply reads_bind; [apply reads_ask|intros name].
  apply reads_bind; [apply reads_storage_get|intros cell].
  apply reads_bind.
  - destruct cell; [apply reads_lift|apply reads_ret].
  - intros [[| | | |ids|]|]; try apply reads_throw.
    apply reads_mapM'. intros x. apply reads_loadUser.
Qed.

(** X24.  Loading only reads: [loadIamLogins], [loadSettings],
    [loadUser], [loadUsers] and [loadData] leave both storage areas, the
    clock and everything else as they found them, whether they return or
    fail. *)
Theorem loading_reads_only :
  reads_only loadIamLogins
  ∧ reads_only loadSettings
  ∧ (∀ userId enableSync, reads_only (loadUser userId enableSync))
  ∧ (∀ enableSync, reads_only (loadUsers enableSync))
  ∧ reads_only loadData.
Proof.
  assert (Hlogins : reads_only loadIamLogins) by (by intros w).
  assert (Hsettings : reads_only loadSettings).
  { unfold loadSettings. apply reads_bind; [apply reads_loadSettings_ref|].
    intros r. apply reads_ret. }
  split; [done|]. split; [done|]. split; [apply reads_loadUser|].
  split; [apply reads_loadUsers|].
  unfold loadData.
  apply reads_bind; [done|intros iamLogins].
  apply reads_bind; [done|intros settings].
  apply reads_bind; [apply reads_lift|intros enableSync].
  apply reads_bind; [apply reads_loadUsers|intros users].
  apply reads_bind; [apply reads_lift|intros sorted].
  apply reads_bind; [apply reads_lift|intros appProfileIds].
  apply reads_bind; [apply reads_lift|intros uniqProfileIds].
  apply reads_bind.
  { apply reads_mapM'. intros x. apply reads_storage_get_keys. }
  intros aps. apply reads_bind.
  - destruct sorted; [apply reads_ret|apply reads_lift].
  - intros updatedAt. apply reads_ret.
Qed.

Lemma mapM'_run {A B} (f : A → M B) (g : A → B) l w :
  (∀ x, x ∈ l → f x w = (Ok (g x), w)) →
  mapM' f l w = (Ok (map g l), w).
Proof.
  induction l as [|x l IH]; intros Hf; [done|].
  simpl mapM'. rewrite (bind_run _ _ _ _ _ (Hf x ltac:(by left))).
  rewrite (bind_run _ _ _ _ _ (IH ltac:(intros y Hy; apply Hf; by right))).
  reflexivity.
Qed.

(** X25.  [loadUsers] returns one user for each id of the stored list,
    in the order of the list: the stored record of the id with its
    customization, defaults filled in.  An id without a stored record
    still yields a user, one that has nothing but the default
    customization.  Without a stored list the result is empty; a stored
    list record that has no [users] makes the method fail with a
    [TypeError]. *)
Theorem loadUsers_lists (w : world) (enableSync : option value) :
  let storage := storage_of enableSync in
  let name := config_name w in
  let user_cell id := area_of storage w !! (name +:+ "-user-" +:+ id) in
  let custom_cell id := area_of storage w !! (name +:+ "-custom-" +:+ id) in
  (sync w !! (name +:+ "-users") = None → loadUsers enableSync w = (Ok [], w))
  ∧ (∀ (doc : gmap string value) uids,
       sync w !! (name +:+ "-users") = Some (Obj doc) →
       doc !! "users" = Some (Arr (map Str uids)) →
       Forall (λ id, obj_cell (user_cell id) ∧ obj_cell (custom_cell id)) uids →
       loadUsers enableSync w
       = (Ok (map (λ id,
                     Obj (<["custom" :=
                            Obj (obj_or (defaultCustom w) (custom_cell id)
                                 ∪ defaultCustom w)]>
                            (obj_or ∅ (user_cell id)))) uids), w))
  ∧ (∀ (doc : gmap string value),
       sync w !! (name +:+ "-users") = Some (Obj doc) →
       doc !! "users" = None →
       loadUsers enableSync w = (Throw TypeError, w)).
Proof.
  intros storage name user_cell custom_cell. split; [|split].
  - intros Hnone. unfold loadUsers. js_run.
    change (area_of SyncArea w) with (sync w). fold name. by rewrite Hnone.
  - intros doc uids Hdoc Husers Hcells. unfold loadUsers. js_run.
    change (area_of SyncArea w) with (sync w). fold name.
    rewrite Hdoc. js_run.
    rewrite (mapM'_run _
               (λ v, match v with
                     | Str id =>
                         Obj (<["custom" :=
                                Obj (obj_or (defaultCustom w) (custom_cell id)
                                     ∪ defaultCustom w)]>
                                (obj_or ∅ (user_cell id)))
                     | _ => Null
                     end)).
    + by rewrite map_map.
    + intros x Hx. apply list_elem_of_fmap in Hx as (id & -> & Hid).
      change (to_string (Some (Str id))) with id.
      eapply Forall_forall in Hcells as [Hu Hc]; [|exact Hid].
      apply (loadUser_run w id enableSync (user_cell id) (custom_cell id));
        try done.
      * unfold obj_cell, obj_or in *.
        by destruct (user_cell id) as [[| | | | |]|].
      * unfold obj_cell, obj_or in *.
        by destruct (custom_cell id) as [[| | | | |]|].
  - intros doc Hdoc Husers. unfold loadUsers. js_run.
    change (area_of SyncArea w) with (sync w). fold name.
    rewrite Hdoc. by js_run.
Qed.

Lemma loadUsers_lists_witness :
  loadUsers (Some (Bool true)) Sample.stored_world
  = (Ok [Sample.alice_loaded; Sample.bob_loaded], Sample.stored_world).
Proof.
  etrans.
  { apply (proj1 (proj2 (loadUsers_lists Sample.stored_world
                           (Some (Bool true))))
             Sample.users_doc ["alice"; "bob"]).
    - reflexivity.
    - reflexivity.
    - constructor; [by split|]. constructor; [by split|]. constructor. }
  reflexivity.
Defined.

(** X26.  [switchRole] sends the window to the switch-role page of the
    sign-in console: the label, the role name and the account id of the
    role are put into the query as they are, the redirect address is
    percent-encoded, and the fragment is the name of the extension. *)
Theorem switchRole_href (label : option value) (role : gmap string value)
    (w : world) :
  switchRole label (Some (Obj role)) w
  = (Ok ("https://signin.aws.amazon.com/switchrole?displayName="
         +:+ to_string label
         +:+ "&roleName=" +:+ to_string (role !! "roleName")
         +:+ "&account=" +:+ to_string (role !! "accountId")
         +:+ "&redirect_uri=https%3A%2F%2Fconsole.aws.amazon.com%2Fconsole%2Fhome#"
         +:+ config_name w), w).
Proof.
  unfold switchRole. js_run.
  change (encodeURIComponent "https://console.aws.amazon.com/console/home")
    with "https%3A%2F%2Fconsole.aws.amazon.com%2Fconsole%2Fhome".
  unfold mret, M_ret. do 2 f_equal.
  cbv [join]. rewrite !append_assoc. reflexivity.
Qed.

(** ** From the first sign-in to the first load *)

Lemma nub_aux_NoDup (l : list string) : ∀ seen,
  NoDup l → (∀ x, x ∈ l → x ∉ seen) → nub_aux seen l = l.
Proof.
  induction l as [|x l IH]; intros seen Hnd Hseen; [done|].
  apply NoDup_cons in Hnd as [Hx Hnd]. simpl.
  rewrite bool_decide_eq_false_2 by (apply Hseen; by left).
  f_equal. apply IH; [done|]. intros y Hy Hin.
  apply elem_of_cons in Hin as [->|Hin]; [done|].
  by apply (Hseen y); [right|].
Qed.

Lemma omap_lookup_all {A} (store : gmap string value) (aps : list A) :
  ∀ (g : nat → A → value) (ids : list string),
    length aps = length ids →
    (∀ i ap id, aps !! i = Some ap → ids !! i = Some id →
       store !! id = Some (g i ap)) →
    omap (λ id, store !! id) ids = imap g aps.
Proof.
  induction aps as [|ap aps IH]; intros g [|id ids] Hlen H; try done.
  rewrite omap_cons, (H 0 ap id eq_refl eq_refl), imap_cons. f_equal.
  apply IH; [by injection Hlen|].
  intros i ap' id' Hi Hid. apply (H (S i) ap' id' Hi Hid).
Qed.

(** X27.  On an empty store with the defaults as the constructor sets
    them, [update] for a user who has no [custom], with distinct string
    profile ids, none of them [__proto__] or the key of the registry of
    logins, leaves a store from which [loadData] returns everything
    that was saved: one user, the one who signed in, with
    [appProfileIds] set to the profile ids, the default customization
    and the stamp of the save; the application profiles in the order
    parsed, each with the stamp of its own save; on this aggregate both
    [getDefaultUser] and [findUser] return that user. *)
Theorem first_sign_in (w : world) (apps : list value)
    (aps : list (gmap string value)) (ids : list string)
    (um : gmap string value) (uid : string) :
  sync w = ∅ → local w = ∅ →
  defaultSettings w = defaultSettings_init →
  parseAppProfiles apps = Ok (map Obj aps) →
  Forall2 has_profile_id aps ids →
  NoDup ids →
  "__proto__" ∉ ids →
  (config_name w +:+ "-iam-logins") ∉ ids →
  um !! "userId" = Some (Str uid) →
  um !! "custom" = None →
  let user :=
    Obj (<["custom" := Obj (defaultCustom w)]>
           (<["updatedAt" := Num (clock w (ticks w + 1 + length ids))]>
              (<["custom" := Obj ∅]>
                 (<["appProfileIds" := Arr (map Str ids)]> um)))) in
  ∃ w' data,
    update apps (Some (Obj um)) w = (Ok tt, w') ∧
    loadData w' = (Ok data, w') ∧
    d_users data = [user] ∧
    d_appProfiles data
    = imap (λ i ap, Obj (<["updatedAt" := Num (clock w (ticks w + 1 + i))]> ap))
        aps ∧
    getDefaultUser data = Ok (Some user) ∧
    findUser data = Ok (Some user).
Proof.
  intros Hsync Hlocal Hds Hparse Hids Hnd Hproto Hiam Huid Hcustom user.
  set (name := config_name w) in *.
  set (listDoc := <["updatedAt" := Num (now w)]>
                    ({[ "users" := Arr (map Str [uid]) ]} : gmap string value)).
  set (w1 := write SyncArea (name +:+ "-users") (Obj listDoc) (tick w)).
  set (w2 := foldl (λ w p, write LocalArea p.1
                             (Obj (<["updatedAt" := Num (now w)]> p.2)) (tick w))
                   w1 (zip ids aps)).
  set (data0 := <["appProfileIds" := Arr (map Str ids)]> um).
  set (userDoc := <["updatedAt" := Num (now w2)]> (<["custom" := Obj ∅]> data0)).
  set (w3 := write SyncArea (name +:+ "-user-" +:+ uid) (Obj userDoc) (tick w2)).
  pose proof (save_profiles_state ids aps w1
                (Forall2_length _ _ _ Hids) Hnd) as Hstate.
  cbv zeta in Hstate. fold w2 in Hstate.
  destruct Hstate as (Hput & Hkeep & Hsync2 & Hname2 & Hclock2 & Hticks2 & Hdc2).
  assert (Hclock1 : clock w1 = clock w) by reflexivity.
  assert (Hticks1 : ticks w1 = ticks w + 1).
  { change (ticks w1) with (S (ticks w)). lia. }
  assert (Hnow2 : now w2 = clock w (ticks w + 1 + length ids)).
  { unfold now. by rewrite Hclock2, Hticks2, Hclock1, Hticks1. }
  (* the fresh aggregate that [update] starts from *)
  assert (Hfresh : loadData w
            = (Ok {| d_updatedAt := Some (Num 0); d_appProfiles := [];
                     d_settings := Obj defaultSettings_init; d_users := [];
                     d_iamLogins := Obj ∅ |}, w)).
  { unfold loadData. rewrite (bind_run _ _ _ _ _ (loadIamLogins_run w)).
    rewrite (bind_run _ _ _ _ _
               (loadSettings_run w None (defaultSettings w)
                  ltac:(by rewrite Hsync) eq_refl)).
    rewrite (idemp_L (∪)), Hds, get_obj, bind_lift_ok by exact eq_refl.
    assert (HloadUsers : ∀ e, loadUsers e w = (Ok [], w)).
    { intros e. unfold loadUsers. rewrite bind_ask, bind_storage_get.
      change (area_of SyncArea w) with (sync w).
      by rewrite Hsync, lookup_empty. }
    rewrite (bind_run _ _ _ _ _ (HloadUsers _)).
    by rewrite Hlocal, lookup_empty. }
  (* the run of [update] *)
  assert (Hupdate : update apps (Some (Obj um)) w = (Ok tt, w3)).
  { unfold update. rewrite (bind_run _ _ _ _ _ Hfresh).
    rewrite get_obj, Huid, bind_lift_ok by exact eq_refl. simpl d_users. simpl map_res.
    rewrite bind_lift_ok.
    change (uniq [Some (Str uid)]) with (Ok [Some (Str uid)]).
    rewrite bind_lift_ok.
    change (array_of [Some (Str uid)]) with (Ok (Arr [Str uid])).
    rewrite bind_lift_ok, bind_ask.
    erewrite bind_run by apply fire_ok, saveData_obj, dash_key.
    fold name listDoc w1. simpl d_settings. rewrite get_obj, bind_lift_ok by exact eq_refl.
    change (defaultSettings_init !! "enableSync") with (Some (Bool true)).
    unfold saveAppProfiles. rewrite Hparse, bind_lift_ok.
    rewrite (bind_run _ _ _ _ _ (save_profiles_run aps ids Hids Hproto w1)).
    fold w2. rewrite (profile_ids_run _ _ Hids), bind_lift_ok.
    rewrite array_of_strs, bind_lift_ok.
    apply fire_ok.
    assert (Hdata : data0 !! "userId" = Some (Str uid)).
    { subst data0. by rewrite lookup_insert_ne. }
    change (spread (Some (Obj um))) with um. fold data0.
    rewrite (saveUser_run data0 uid (Some (Bool true)) w2 Hdata).
    assert (Hnoc : data0 !! "custom" = None).
    { subst data0. by rewrite lookup_insert_ne. }
    rewrite Hnoc. cbv zeta. rewrite Hname2.
    reflexivity. }
  (* what the store holds afterwards *)
  assert (Hname3 : config_name w3 = name) by (subst w3; simpl; exact Hname2).
  assert (Hlocal3 : local w3 = local w2) by reflexivity.
  assert (Hsync3 : sync w3
            = <[name +:+ "-user-" +:+ uid := Obj userDoc]>
                (<[name +:+ "-users" := Obj listDoc]> ∅)).
  { subst w3. rewrite sync_write_sync. change (sync (tick w2)) with (sync w2).
    rewrite Hsync2. subst w1. rewrite sync_write_sync.
    change (sync (tick w)) with (sync w). by rewrite Hsync. }
  assert (Hlogins : local w3 !! (name +:+ "-iam-logins") = None).
  { rewrite Hlocal3, Hkeep by done. subst w1. simpl.
    by rewrite Hlocal, lookup_empty. }
  assert (Hdc3 : defaultCustom w3 = defaultCustom w) by (subst w3; simpl; exact Hdc2).
  assert (Hds3 : defaultSettings w3 = defaultSettings_init).
  { subst w3. rewrite defaultSettings_write, defaultSettings_tick.
    subst w2. clear -Hds. subst w1.
    assert (H : ∀ l w0, defaultSettings
                (foldl (λ w p, write LocalArea p.1
                          (Obj (<["updatedAt" := Num (now w)]> p.2)) (tick w))
                       w0 l) = defaultSettings w0).
    { intros l. induction l as [|p l IH]; intros w0; [done|].
      rewrite foldl_step, IH. reflexivity. }
    by rewrite H. }
  set (loaded := Obj (<["custom" := Obj (defaultCustom w ∪ defaultCustom w)]>
                        userDoc)).
  assert (HloadUser : loadUser uid (Some (Bool true)) w3 = (Ok loaded, w3)).
  { subst loaded. rewrite <- Hdc3.
    apply (loadUser_run w3 uid (Some (Bool true)) (Some (Obj userDoc)) None);
      try done.
    - change (area_of (storage_of (Some (Bool true))) w3) with (sync w3).
      by rewrite Hname3, Hsync3, lookup_insert_eq.
    - change (area_of (storage_of (Some (Bool true))) w3) with (sync w3).
      rewrite Hname3, Hsync3.
      rewrite lookup_insert_ne by apply user_key_ne_custom_key.
      rewrite lookup_insert_ne by key_ne. apply lookup_empty. }
  assert (Huser : loaded = user).
  { subst loaded user userDoc data0. rewrite (idemp_L (∪)). by rewrite Hnow2. }
  assert (Hstored : omap (λ id, local w3 !! id) ids
            = imap (λ i ap,
                      Obj (<["updatedAt" := Num (clock w (ticks w + 1 + i))]> ap))
                aps).
  { apply omap_lookup_all; [by apply Forall2_length in Hids|].
    intros i ap id Hi Hid.
    by rewrite Hlocal3, (Hput i ap id Hi Hid), Hclock1, Hticks1. }
  exists w3. eexists. split; [exact Hupdate|].
  assert (Hload : loadData w3
            = (Ok {| d_updatedAt := Some (Num (now w2));
                     d_appProfiles := omap (λ id, local w3 !! id) ids;
                     d_settings := Obj defaultSettings_init;
                     d_users := [loaded];
                     d_iamLogins := Obj ∅ |}, w3)).
  { unfold loadData. rewrite (bind_run _ _ _ _ _ (loadIamLogins_run w3)).
    rewrite Hname3, Hlogins. simpl default.
    rewrite (bind_run _ _ _ _ _
               (loadSettings_run w3 None (defaultSettings w3)
                  ltac:(rewrite Hname3, Hsync3;
                        rewrite lookup_insert_ne by key_ne;
                        rewrite lookup_insert_ne by key_ne;
                        apply lookup_empty) eq_refl)).
    rewrite (idemp_L (∪)), Hds3, get_obj, bind_lift_ok by exact eq_refl.
    change (defaultSettings_init !! "enableSync") with (Some (Bool true)).
    assert (HloadUsers : loadUsers (Some (Bool true)) w3 = (Ok [loaded], w3)).
    { unfold loadUsers. rewrite bind_ask, bind_storage_get.
      change (area_of SyncArea w3) with (sync w3).
      rewrite Hname3, Hsync3.
      rewrite lookup_insert_ne by key_ne. rewrite lookup_insert_eq.
      erewrite bind_run by (subst listDoc; reflexivity).
      simpl mapM'. change (to_string (Some (Str uid))) with uid.
      rewrite lookup_insert_ne, lookup_singleton_eq by done.
      simpl mapM'. change (to_string (Some (Str uid))) with uid.
      by rewrite (bind_run _ _ _ _ _ HloadUser). }
    rewrite (bind_run _ _ _ _ _ HloadUsers).
    change (sort_by by_updatedAt [loaded]) with (Ok [loaded]).
    rewrite bind_lift_ok.
    assert (Hidsget : map_res (λ u, get (Some u) "appProfileIds") [loaded]
              = Ok [Some (Arr (map Str ids))]).
    { subst loaded userDoc data0. simpl map_res.
      by rewrite !lookup_insert_ne, lookup_insert_eq by done. }
    rewrite Hidsget, bind_lift_ok.
    assert (Hflat : flat1 [Some (Arr (map Str ids))]
              = map (λ s, Some (Str s)) ids).
    { unfold flat1. simpl. by rewrite app_nil_r, map_map. }
    rewrite Hflat, uniq_strs, bind_lift_ok.
    unfold nub. rewrite nub_aux_NoDup by (done || (intros ? _; apply not_elem_of_nil)).
    rewrite (bind_run _ _ _ _ _ (load_profiles_run ids w3)).
    rewrite first_values.
    assert (Hstamp : get (Some loaded) "updatedAt" = Ok (Some (Num (now w2)))).
    { subst loaded userDoc. rewrite get_obj by exact eq_refl.
      by rewrite lookup_insert_ne, lookup_insert_eq by done. }
    by rewrite Hstamp, bind_lift_ok. }
  split; [exact Hload|]. simpl d_users. simpl d_appProfiles.
  rewrite Huser in *. split; [done|]. split; [exact Hstored|].
  assert (Hid : get (Some user) "userId" = Ok (Some (Str uid))).
  { subst user. rewrite get_obj by exact eq_refl.
    by rewrite !lookup_insert_ne, Huid by done. }
  split.
  - unfold getDefaultUser. cbv zeta. simpl d_settings. simpl d_users.
    rewrite !get_obj by exact eq_refl.
    change (defaultSettings_init !! "defaultUser")
      with (Some (Str "lastUserId")).
    rewrite res_bind_ok, strict_eq_str.
    rewrite (proj2 (is_str_true "lastUserId" _) eq_refl), res_bind_ok.
    change (find_res ?f [user])
      with (b ← f user; if b : bool then Ok (Some user) else Ok None).
    cbv beta. rewrite Hid, res_bind_ok.
    by change (defaultSettings_init !! "lastUserId") with (Some Null).
  - unfold findUser, active_user_id. cbn [d_users].
    rewrite Hid, res_bind_ok, filter_res_cons, Hid, res_bind_ok.
    rewrite strict_eq_str, (proj2 (is_str_true uid _) eq_refl).
    by rewrite res_bind_ok.
Qed.

Lemma first_sign_in_witness :
  ∃ w' data,
    update SignIn.apps (Some (Obj SignIn.dave)) Sample.console_world
      = (Ok tt, w') ∧
    loadData w' = (Ok data, w') ∧
    d_appProfiles data
    = [Obj (<["updatedAt" := Num 1700000000001]>
              (<["profile" := SignIn.admin]> SignIn.account));
       Obj (<["updatedAt" := Num 1700000000002]>
              (<["profile" := SignIn.reader]> SignIn.account))].
Proof.
  destruct (first_sign_in Sample.console_world SignIn.apps
              [<["profile" := SignIn.admin]> SignIn.account;
               <["profile" := SignIn.reader]> SignIn.account]
              ["p-1"; "p-2"] SignIn.dave "dave")
    as (w' & data & Hrun & Hload & _ & Haps & _).
  - reflexivity.
  - reflexivity.
  - reflexivity.
  - reflexivity.
  - constructor; [eexists; split; reflexivity|].
    constructor; [eexists; split; reflexivity|]. constructor.
  - apply NoDup_cons. split; [|apply NoDup_singleton].
    intros H. apply list_elem_of_singleton in H. discriminate.
  - intros H. apply elem_of_cons in H as [H|H]; [discriminate|].
    apply list_elem_of_singleton in H. discriminate.
  - intros H. apply elem_of_cons in H as [H|H]; [discriminate|].
    apply list_elem_of_singleton in H. discriminate.
  - reflexivity.
  - reflexivity.
  - exists w', data. split; [exact Hrun|]. split; [exact Hload|]. exact Haps.
Defined.
